(** * Bang & Olufsen integration: media player and select entities

    A shallow embedding of [custom_components/bangolufsen/media_player.py]
    and [custom_components/bangolufsen/select.py].

    Entity methods are state transformers over the entity's attributes.
    Each one returns an outcome (a value or a raised Python exception),
    the entity as the method left it (attribute writes made before an
    exception stay), and the trace of what it did to its collaborators:
    vendor client requests, log records, dispatcher sends, sleeps, tasks.

    Integers are [Z]; Python floats are IEEE binary64 values of the
    Standard Library's [spec_float]; [dict]s whose order is observable are
    insertion-ordered association lists; the platform's registries, whose
    order is not, are [gmap]s. *)

From Stdlib Require Import ZArith Lia Ascii String SpecFloat DecimalString DecimalZ DecimalPos.
From stdpp Require Import gmap strings list.

Local Open Scope Z_scope.

(** ** Python values and builtins *)

Module Py.

Inductive exn :=
| IndexError | AttributeError | KeyError | ValueError
| OverflowError | ZeroDivisionError.

Inductive outcome (A : Type) :=
| Ok (a : A)
| Raise (e : exn).
Arguments Ok {A} a.
Arguments Raise {A} e.

Definition is_ok {A} (o : outcome A) : bool :=
  match o with Ok _ => true | Raise _ => false end.

(** [s.split(sep)] for a one-character separator: never empty. *)
Fixpoint str_split (sep : ascii) (s : string) : list string :=
  match s with
  | EmptyString => [EmptyString]
  | String ch s' =>
      if Ascii.eqb ch sep then EmptyString :: str_split sep s'
      else match str_split sep s' with
           | [] => [String ch EmptyString]
           | w :: ws => String ch w :: ws
           end
  end.

(** [l[i]] for [i >= 0]. *)
Definition index {A} (l : list A) (i : nat) : outcome A :=
  match l !! i with
  | Some x => Ok x
  | None => Raise IndexError
  end.

(** *** Insertion-ordered [dict[str, V]] *)

Definition dict (V : Type) := list (string * V).

Fixpoint dict_get {V} (d : dict V) (k : string) : option V :=
  match d with
  | [] => None
  | (k', v) :: d' => if String.eqb k' k then Some v else dict_get d' k
  end.

(** [k in d] *)
Definition dict_contains {V} (d : dict V) (k : string) : bool :=
  match dict_get d k with Some _ => true | None => false end.

(** [d[k] = v]: an existing key keeps its position. *)
Fixpoint dict_set {V} (d : dict V) (k : string) (v : V) : dict V :=
  match d with
  | [] => [(k, v)]
  | (k', v') :: d' =>
      if String.eqb k' k then (k', v) :: d' else (k', v') :: dict_set d' k v
  end.

Definition dict_keys {V} (d : dict V) : list string := fst <$> d.
Definition dict_values {V} (d : dict V) : list V := snd <$> d.

(** [x in l] for a list (or tuple) of strings. *)
Definition str_in (x : string) (l : list string) : bool :=
  existsb (String.eqb x) l.

(** [a == b] where either side may be [None]. *)
Definition opt_eqb (a b : option string) : bool :=
  match a, b with
  | Some x, Some y => String.eqb x y
  | None, None => true
  | _, _ => false
  end.

(** *** [float]: IEEE 754 binary64 *)

Definition prec : Z := 53.
Definition emax : Z := 1024.
Definition float : Type := spec_float.

Definition float_of_int (z : Z) : float := binary_normalize prec emax z 0 false.

Definition fadd : float -> float -> float := SFadd prec emax.
Definition fmul : float -> float -> float := SFmul prec emax.
(** [a <= b] and [a >= b] *)
Definition fle (a b : float) : bool := SFleb a b.
Definition fge (a b : float) : bool := SFleb b a.
(** [bool(x)]: every float but a zero is truthy. *)
Definition ftruthy (x : float) : bool := negb (SFeqb x (S754_zero false)).

Definition is_nan (x : float) : bool :=
  match x with S754_nan => true | _ => false end.

(** A float that is a number: a zero or a finite value. *)
Definition is_real (x : float) : bool :=
  match x with
  | S754_zero _ | S754_finite _ _ _ => true
  | _ => false
  end.

(** [a / b] on integers: the quotient rounded once, to nearest even. *)
Definition int_truediv (a b : Z) : outcome float :=
  match b, a with
  | 0, _ => Raise ZeroDivisionError
  | _, 0 => Ok (S754_zero (b <? 0))
  | _, _ =>
      let '(q, e, l) := SFdiv_core_binary prec emax (Z.abs a) 0 (Z.abs b) 0 in
      match binary_round_aux prec emax (xorb (a <? 0) (b <? 0)) q e l with
      | S754_infinity _ => Raise OverflowError
      | x => Ok x
      end
  end.

(** [int(x)]: truncation towards zero. *)
Definition int_of_float (x : float) : outcome Z :=
  match x with
  | S754_nan => Raise ValueError
  | S754_infinity _ => Raise OverflowError
  | S754_zero _ => Ok 0
  | S754_finite s m e =>
      Ok (cond_Zopp s
            (match e with
             | Zneg p => Z.shiftr (Zpos m) (Zpos p)
             | _ => Z.shiftl (Zpos m) e
             end))
  end.

(** The builtins that parse text are taken as given: [int(s)] and
    [float(s)] on a [str], [None] standing for [ValueError]. *)
Record Builtins := {
  int_of_str : string -> option Z;
  float_of_str : string -> option float;
}.

End Py.

Import Py.

(** ** Collaborators and effects *)

(** Requests sent to the vendor client ([self._client.<name>(...,
    async_req=True)]), with the arguments the entity chooses. *)
Inductive request :=
| get_beolink_peers
| get_beolink_listeners
| set_current_volume_level (level : Z)
| set_active_source (source_id : string)
| post_remote_trigger (id : string)
| join_latest_beolink_experience
| join_beolink_peer (jid : string)
| post_beolink_expand (jid : string)
| get_all_scenes
| get_speakergroup_active.

Inductive log_level := LOG_ERROR | LOG_WARNING.

Inductive log_arg :=
| LStr (s : string)
| LList (l : list string).

#[warnings="-register-all"]
Inductive event :=
| Request (r : request)
| Log (level : log_level) (format : string) (args : list log_arg)
| DispatcherSend (topic : string) (args : list string)
| Sleep (seconds : Z)
| CreateTask (body : list event)
| WriteHaState.

(** A method body over an entity of type [S]. *)
Definition prog (S A : Type) : Type := S -> outcome A * S * list event.

#[export] Instance prog_ret {S} : MRet (prog S) :=
  fun A a s => (Ok a, s, []).

#[export] Instance prog_bind {S} : MBind (prog S) :=
  fun A B k m s =>
    match m s with
    | (Ok a, s', t) => let '(r, s'', t') := k a s' in (r, s'', t ++ t')
    | (Raise e, s', t) => (Raise e, s', t)
    end.

Definition this {S} : prog S S := fun s => (Ok s, s, []).
Definition assign {S} (f : S -> S) : prog S unit := fun s => (Ok tt, f s, []).
Definition emit {S} (e : event) : prog S unit := fun s => (Ok tt, s, [e]).
Definition raise {S A} (e : exn) : prog S A := fun s => (Raise e, s, []).
Definition lift {S A} (o : outcome A) : prog S A := fun s => (o, s, []).
Definition pass {S} : prog S unit := mret tt.

(** [for x in l: body x] *)
Fixpoint for_each {S A} (l : list A) (body : A -> prog S unit) : prog S unit :=
  match l with
  | [] => pass
  | x :: l' => body x;; for_each l' body
  end.

Definition result {S A} (r : outcome A * S * list event) : outcome A := r.1.1.
Definition after {S A} (r : outcome A * S * list event) : S := r.1.2.
Definition trace {S A} (r : outcome A * S * list event) : list event := r.2.

Definition requests (t : list event) : list request :=
  omap (fun e => match e with Request r => Some r | _ => None end) t.

(** Unfold the monad's operations at the head of a goal. *)
Ltac run :=
  unfold mbind, prog_bind, mret, prog_ret, this, assign, emit, raise, lift, pass;
  cbv beta iota.

(** ** Vendor models (the fields the entities read) *)

Module BeolinkLeader.
Record t := { friendly_name : string; jid : string }.
End BeolinkLeader.

Module BeolinkListener.
Record t := { jid : string }.
End BeolinkListener.

Module BeolinkPeer.
Record t := { friendly_name : string; jid : string }.
End BeolinkPeer.

Module Art.
Record t := {
  key : option string;
  size : option string;
  url : option string;
  has_local_image : option bool;
}.
(** [Art()] *)
Definition empty : t :=
  {| key := None; size := None; url := None; has_local_image := None |}.
End Art.

Module PlaybackContentMetadata.
Record t := {
  title : option string;
  art : option (list Art.t);
  remote_leader : option BeolinkLeader.t;
}.
End PlaybackContentMetadata.

Module Source.
Record t := { id : option string; name : option string }.
End Source.

Module VolumeLevel.
Record t := { level : option Z }.
End VolumeLevel.

Module VolumeState.
Record t := { level : option VolumeLevel.t }.
End VolumeState.

Module Action.
Record t := { speaker_group_id : option string }.
End Action.

Module Scene.
Record t := {
  tags : option (list string);
  label : option string;
  action_list : list Action.t;
}.
End Scene.

Module SpeakerGroupOverview.
Record t := { id : option string }.
End SpeakerGroupOverview.

(** What the device answers to the requests that fetch data. *)
Record Responses := {
  beolink_peers : list BeolinkPeer.t;
  beolink_listeners : list BeolinkListener.t;
  all_scenes : dict Scene.t;
  speakergroup_active : SpeakerGroupOverview.t;
}.

(** ** The platform: entity registry and config entries *)

Record RegistryEntry := { config_entry_id : option string }.
Record ConfigEntry := { data : dict string }.

Record HomeAssistant := {
  (** [async_get_entity_id(Platform.MEDIA_PLAYER, DOMAIN, unique_id)] *)
  entity_ids : gmap string string;
  (** [entity_registry.async_get(entity_id)] *)
  entities : gmap string RegistryEntry;
  (** [config_entries.async_get_entry(entry_id)] *)
  config_entries : gmap string ConfigEntry;
}.

(** ** Constants of the integration's [const] module

    The module is not part of the sources at hand; its values are taken
    as given. *)
Record Consts := {
  SOURCE_ENUM_lineIn : string;
  SOURCE_ENUM_uriStreamer : string;
  SOURCE_ENUM_bluetooth : string;
  SOURCE_ENUM_spdif : string;
  SOURCE_ENUM_chromeCast : string;
  BEOLINK_LISTENER_COMMAND : string;
  BEOLINK_VOLUME : string;
  BEOLINK_RELATIVE_VOLUME : string;
  CONF_BEOLINK_JID : string;
  (** [ART_SIZE_ENUM[name].value], [None] standing for [KeyError] *)
  ART_SIZE_ENUM : string -> option Z;
}.

(** ** The media player entity ([media_player.py]) *)

Module MediaPlayer.

(** The value under the ["beolink"] key of [_beolink_attribute]; an
    absent key is [None]. *)
Record BeolinkAttribute := {
  attr_self : dict string;
  attr_peers : option (dict string);
  attr_leader : option (dict string);
  attr_listeners : option (dict string);
}.

Record Entity := {
  _beolink_jid : string;
  _max_volume : Z;
  _volume_step : Z;
  _friendly_name : string;
  _attr_group_members : list (option string);
  _audio_sources : dict string;
  _sources : dict string;
  _beolink_listeners : list BeolinkListener.t;
  _media_image : Art.t;
  _remote_leader : option BeolinkLeader.t;
  _beolink_attribute : option BeolinkAttribute;
  _playback_metadata : PlaybackContentMetadata.t;
  _source_change : Source.t;
  _volume : VolumeState.t;
}.

(** Attribute writes, [self.<field> = v]. *)
Definition set_attr_group_members (v : list (option string)) (e : Entity) : Entity :=
  {| _beolink_jid := _beolink_jid e; _max_volume := _max_volume e;
     _volume_step := _volume_step e; _friendly_name := _friendly_name e;
     _attr_group_members := v;
     _audio_sources := _audio_sources e; _sources := _sources e;
     _beolink_listeners := _beolink_listeners e; _media_image := _media_image e;
     _remote_leader := _remote_leader e; _beolink_attribute := _beolink_attribute e;
     _playback_metadata := _playback_metadata e; _source_change := _source_change e;
     _volume := _volume e |}.

Definition set_beolink_listeners (v : list BeolinkListener.t) (e : Entity) : Entity :=
  {| _beolink_jid := _beolink_jid e; _max_volume := _max_volume e;
     _volume_step := _volume_step e; _friendly_name := _friendly_name e;
     _attr_group_members := _attr_group_members e;
     _audio_sources := _audio_sources e; _sources := _sources e;
     _beolink_listeners := v; _media_image := _media_image e;
     _remote_leader := _remote_leader e; _beolink_attribute := _beolink_attribute e;
     _playback_metadata := _playback_metadata e; _source_change := _source_change e;
     _volume := _volume e |}.

Definition set_media_image (v : Art.t) (e : Entity) : Entity :=
  {| _beolink_jid := _beolink_jid e; _max_volume := _max_volume e;
     _volume_step := _volume_step e; _friendly_name := _friendly_name e;
     _attr_group_members := _attr_group_members e;
     _audio_sources := _audio_sources e; _sources := _sources e;
     _beolink_listeners := _beolink_listeners e; _media_image := v;
     _remote_leader := _remote_leader e; _beolink_attribute := _beolink_attribute e;
     _playback_metadata := _playback_metadata e; _source_change := _source_change e;
     _volume := _volume e |}.

Definition set_remote_leader (v : option BeolinkLeader.t) (e : Entity) : Entity :=
  {| _beolink_jid := _beolink_jid e; _max_volume := _max_volume e;
     _volume_step := _volume_step e; _friendly_name := _friendly_name e;
     _attr_group_members := _attr_group_members e;
     _audio_sources := _audio_sources e; _sources := _sources e;
     _beolink_listeners := _beolink_listeners e; _media_image := _media_image e;
     _remote_leader := v; _beolink_attribute := _beolink_attribute e;
     _playback_metadata := _playback_metadata e; _source_change := _source_change e;
     _volume := _volume e |}.

Definition set_beolink_attribute (v : option BeolinkAttribute) (e : Entity) : Entity :=
  {| _beolink_jid := _beolink_jid e; _max_volume := _max_volume e;
     _volume_step := _volume_step e; _friendly_name := _friendly_name e;
     _attr_group_members := _attr_group_members e;
     _audio_sources := _audio_sources e; _sources := _sources e;
     _beolink_listeners := _beolink_listeners e; _media_image := _media_image e;
     _remote_leader := _remote_leader e; _beolink_attribute := v;
     _playback_metadata := _playback_metadata e; _source_change := _source_change e;
     _volume := _volume e |}.

Definition set_playback_metadata (v : PlaybackContentMetadata.t) (e : Entity) : Entity :=
  {| _beolink_jid := _beolink_jid e; _max_volume := _max_volume e;
     _volume_step := _volume_step e; _friendly_name := _friendly_name e;
     _attr_group_members := _attr_group_members e;
     _audio_sources := _audio_sources e; _sources := _sources e;
     _beolink_listeners := _beolink_listeners e; _media_image := _media_image e;
     _remote_leader := _remote_leader e; _beolink_attribute := _beolink_attribute e;
     _playback_metadata := v; _source_change := _source_change e;
     _volume := _volume e |}.

(** [self._beolink_attribute["beolink"][...] = ...]; the attribute is a
    dict whenever these run. *)
Definition on_beolink_attribute (f : BeolinkAttribute -> BeolinkAttribute)
    (e : Entity) : Entity :=
  set_beolink_attribute (f <$> _beolink_attribute e) e.

Definition with_peers (d : dict string) (a : BeolinkAttribute) : BeolinkAttribute :=
  {| attr_self := attr_self a; attr_peers := Some d;
     attr_leader := attr_leader a; attr_listeners := attr_listeners a |}.

Definition with_leader (d : dict string) (a : BeolinkAttribute) : BeolinkAttribute :=
  {| attr_self := attr_self a; attr_peers := attr_peers a;
     attr_leader := Some d; attr_listeners := attr_listeners a |}.

Definition with_listeners (d : dict string) (a : BeolinkAttribute) : BeolinkAttribute :=
  {| attr_self := attr_self a; attr_peers := attr_peers a;
     attr_leader := attr_leader a; attr_listeners := Some d |}.

Section Methods.

Context (c : Consts) (py : Builtins).
(** [mozart_api.mozart_client.check_valid_jid], a vendor function. *)
Context (check_valid_jid : string -> bool).
Context (hass : HomeAssistant) (client : Responses).

Abbreviation M := (prog Entity).

(** [v.level and v.level.level]: the stored level when both are truthy. *)
Definition truthy_level (v : VolumeState.t) : option Z :=
  match VolumeState.level v with
  | Some vl =>
      match VolumeLevel.level vl with
      | Some l => if l =? 0 then None else Some l
      | None => None
      end
  | None => None
  end.

(** Property [volume_level]. *)
Definition volume_level (e : Entity) : outcome (option float) :=
  match truthy_level (_volume e) with
  | Some l =>
      match int_truediv l 100 with
      | Ok x => Ok (Some x)
      | Raise err => Raise err
      end
  | None => Ok None
  end.

(** Property [source].  [hasattr(self._playback_metadata, "title")] and
    [hasattr(..., "art")] hold of every metadata object. *)
Definition source (e : Entity) : option string :=
  let title := PlaybackContentMetadata.title (_playback_metadata e) in
  if opt_eqb title (Some (SOURCE_ENUM_lineIn c)) then Some (SOURCE_ENUM_lineIn c)
  else if opt_eqb title (Some (SOURCE_ENUM_bluetooth c)) then Some (SOURCE_ENUM_bluetooth c)
  else if match Source.id (_source_change e) with
          | Some i => str_in i [SOURCE_ENUM_bluetooth c; SOURCE_ENUM_lineIn c;
                                SOURCE_ENUM_spdif c]
          | None => false
          end
       then Some (SOURCE_ENUM_chromeCast c)
  else match PlaybackContentMetadata.art (_playback_metadata e) with
       | Some [] =>
           if opt_eqb (Source.name (_source_change e)) (Some (SOURCE_ENUM_bluetooth c))
           then Some (SOURCE_ENUM_bluetooth c)
           else Source.name (_source_change e)
       | _ => Source.name (_source_change e)
       end.

Definition _get_beolink_jid (entity_id : string) : outcome (option string) :=
  match entities hass !! entity_id with
  | None => Raise AttributeError
  | Some entity_entry =>
      match config_entry_id entity_entry ≫= (config_entries hass !!.) with
      | None => Raise AttributeError
      | Some config_entry => Ok (dict_get (data config_entry) (CONF_BEOLINK_JID c))
      end
  end.

Definition _get_entity_id_from_jid (jid : string) : outcome (option string) :=
  match index (str_split "." jid) 2 with
  | Raise err => Raise err
  | Ok part =>
      match index (str_split "@" part) 0 with
      | Raise err => Raise err
      | Ok unique_id => Ok (entity_ids hass !! unique_id)
      end
  end.

(** [max(l)] and [l.index(x)] *)
Definition list_max (l : list Z) : outcome Z :=
  match l with
  | [] => Raise ValueError
  | x :: l' => Ok (fold_left Z.max l' x)
  end.

Fixpoint list_index (x : Z) (l : list Z) : outcome nat :=
  match l with
  | [] => Raise ValueError
  | y :: l' =>
      if y =? x then Ok 0%nat
      else match list_index x l' with
           | Ok i => Ok (S i)
           | Raise err => Raise err
           end
  end.

(** The loop of [_update_artwork] that collects the image sizes. *)
Fixpoint artwork_images (first : Art.t) (arts : list Art.t) : outcome (list Z) :=
  match arts with
  | [] => Ok []
  | image :: arts' =>
      let here :=
        match Art.key first, Art.size first with
        | Some _, _ =>
            match Art.key image with
            | None => Raise AttributeError
            | Some k =>
                match index (str_split "x" k) 0 with
                | Raise err => Raise err
                | Ok w => match int_of_str py w with
                          | Some n => Ok [n]
                          | None => Raise ValueError
                          end
                end
            end
        | None, Some _ =>
            match Art.size image ≫= ART_SIZE_ENUM c with
            | Some n => Ok [n]
            | None => Raise KeyError
            end
        | None, None => Ok []
        end in
      match here with
      | Raise err => Raise err
      | Ok h => match artwork_images first arts' with
                | Ok t => Ok (h ++ t)
                | Raise err => Raise err
                end
      end
  end.

Definition _update_artwork : M unit :=
  e ← this;
  let metadata := _playback_metadata e in
  match PlaybackContentMetadata.art metadata with
  | Some ((first :: _) as arts) =>
      images ← lift (artwork_images first arts);
      largest ← lift (list_max images);
      i ← lift (list_index largest images);
      image ← lift (index arts i);
      assign (set_media_image image)
  | _ => assign (set_media_image Art.empty)
  end.

(** The loop of [_update_beolink] over the listeners: the group members
    and the listener names gathered so far are its locals. *)
Fixpoint beolink_listeners_loop (peers : list BeolinkPeer.t)
    (listeners : list BeolinkListener.t)
    (group_members : list (option string)) (beolink_listeners : dict string)
  : M (list (option string) * dict string) :=
  match listeners with
  | [] => mret (group_members, beolink_listeners)
  | beolink_listener :: listeners' =>
      entity_id ← lift (_get_entity_id_from_jid (BeolinkListener.jid beolink_listener));
      beolink_listeners_loop peers listeners' (group_members ++ [entity_id])
        (match List.find (fun peer => String.eqb (BeolinkPeer.jid peer)
                                        (BeolinkListener.jid beolink_listener)) peers with
         | Some peer => dict_set beolink_listeners (BeolinkPeer.friendly_name peer)
                          (BeolinkListener.jid beolink_listener)
         | None => beolink_listeners
         end)
  end.

Definition _update_beolink : M unit :=
  e ← this;
  assign (set_beolink_attribute
            (Some {| attr_self := [(_friendly_name e, _beolink_jid e)];
                     attr_peers := None; attr_leader := None;
                     attr_listeners := None |}));;
  emit (Request get_beolink_peers);;
  let peers := beolink_peers client in
  (if (0 <? length peers)%nat
   then assign (on_beolink_attribute
                  (with_peers
                     (fold_left (fun d peer => dict_set d (BeolinkPeer.friendly_name peer)
                                                 (BeolinkPeer.jid peer)) peers [])))
   else pass);;
  assign (set_remote_leader (PlaybackContentMetadata.remote_leader (_playback_metadata e)));;
  (match source e with
   | Some s =>
       if str_in s [SOURCE_ENUM_lineIn c; SOURCE_ENUM_uriStreamer c]
       then assign (set_remote_leader None) else pass
   | None => pass
   end);;
  e ← this;
  group_members ←
    match _remote_leader e with
    | Some leader =>
        leader_id ← lift (_get_entity_id_from_jid (BeolinkLeader.jid leader));
        self_id ← lift (_get_entity_id_from_jid (_beolink_jid e));
        assign (on_beolink_attribute
                  (with_leader [(BeolinkLeader.friendly_name leader,
                                 BeolinkLeader.jid leader)]));;
        mret [leader_id; self_id]
    | None =>
        emit (Request get_beolink_listeners);;
        assign (set_beolink_listeners (beolink_listeners client));;
        e ← this;
        if (0 <? length (_beolink_listeners e))%nat
        then
          self_id ← lift (_get_entity_id_from_jid (_beolink_jid e));
          '(group_members, names) ←
            beolink_listeners_loop peers (_beolink_listeners e) [self_id] [];
          assign (on_beolink_attribute (with_listeners names));;
          mret group_members
        else mret []
    end;
  assign (set_attr_group_members group_members).

Definition _update_playback_metadata (data : PlaybackContentMetadata.t) : M unit :=
  assign (set_playback_metadata data);;
  _update_artwork;;
  _update_beolink;;
  emit WriteHaState.

Definition async_volume_up : M unit :=
  e ← this;
  match truthy_level (_volume e) with
  | None => emit (Log LOG_WARNING "Error setting volume" [])
  | Some level =>
      let new_volume := Z.min (level + _volume_step e) (_max_volume e) in
      emit (Request (set_current_volume_level new_volume))
  end.

Definition async_volume_down : M unit :=
  e ← this;
  match truthy_level (_volume e) with
  | None => emit (Log LOG_WARNING "Error setting volume" [])
  | Some level =>
      let new_volume := Z.max (level - _volume_step e) 0 in
      emit (Request (set_current_volume_level new_volume))
  end.

Definition async_set_volume_level (volume : float) : M unit :=
  level ← lift (int_of_float (fmul volume (float_of_int 100)));
  emit (Request (set_current_volume_level level)).

Definition async_select_source (source : string) : M unit :=
  e ← this;
  if negb (str_in source (dict_values (_sources e)))
  then emit (Log LOG_ERROR "Invalid source: %s. Valid sources are: %s"
               [LStr source; LList (dict_values (_sources e))])
  else
    key ← lift (index (List.filter
                         (fun x => opt_eqb (dict_get (_sources e) x) (Some source))
                         (dict_keys (_sources e))) 0);
    if str_in source (dict_values (_audio_sources e))
    then emit (Request (set_active_source key))
    else emit (Request (post_remote_trigger key)).

Definition async_beolink_join (beolink_jid : option string) : M unit :=
  match beolink_jid with
  | None => emit (Request join_latest_beolink_experience)
  | Some jid =>
      if negb (check_valid_jid jid) then pass
      else emit (Request (join_beolink_peer jid))
  end.

Definition _beolink_expand (beolink_jids : list string) : M unit :=
  for_each beolink_jids (fun beolink_jid =>
    emit (Request (post_beolink_expand beolink_jid));;
    emit (Sleep 1)).

(** The validity loop returns at the first invalid JID; otherwise the
    expansion is handed to [hass.async_create_task]. *)
Definition async_beolink_expand (beolink_jids : list string) : M unit :=
  match List.find (fun beolink_jid => negb (check_valid_jid beolink_jid)) beolink_jids with
  | Some beolink_jid => emit (Log LOG_ERROR "Invalid Beolink JID: %s" [LStr beolink_jid])
  | None =>
      e ← this;
      emit (CreateTask (trace (_beolink_expand beolink_jids e)))
  end.

(** The loop of [async_join_players] that resolves the group members. *)
Fixpoint join_players_jids (group_members : list string) (jids : list string)
  : M (list string) :=
  match group_members with
  | [] => mret jids
  | group_member :: group_members' =>
      jid ← lift (_get_beolink_jid group_member);
      match jid with
      | None =>
          emit (Log LOG_WARNING "Error adding %s to group" [LStr group_member]);;
          join_players_jids group_members' jids
      | Some jid => join_players_jids group_members' (jids ++ [jid])
      end
  end.

Definition async_join_players (group_members : list string) : M unit :=
  if (length group_members =? 0)%nat then async_beolink_join None
  else
    jids ← join_players_jids group_members [];
    async_beolink_expand jids.

Definition async_beolink_set_volume (volume_level : string) : M unit :=
  e ← this;
  match _remote_leader e with
  | Some leader =>
      emit (DispatcherSend (BeolinkLeader.jid leader +:+ "_" +:+ BEOLINK_VOLUME c)
              [volume_level])
  | None =>
      volume ← lift (match float_of_str py volume_level with
                     | Some v => Ok v
                     | None => Raise ValueError
                     end);
      async_set_volume_level volume;;
      e ← this;
      for_each (_beolink_listeners e) (fun beolink_listener =>
        emit (DispatcherSend
                (BeolinkListener.jid beolink_listener +:+ "_" +:+ BEOLINK_LISTENER_COMMAND c)
                ["set_volume_level"; volume_level]))
  end.

Definition async_set_relative_volume_level (volume : float) : M unit :=
  e ← this;
  level ← lift (volume_level e);
  match level with
  | None => emit (Log LOG_WARNING "Error setting volume" [])
  | Some level =>
      if negb (ftruthy level) then emit (Log LOG_WARNING "Error setting volume" [])
      else
        let new_volume :=
          if fge (fadd level volume) (float_of_int 1) then float_of_int 1
          else if fle (fadd level volume) (float_of_int 0) then S754_zero false
          else fadd level volume in
        async_set_volume_level new_volume
  end.

Definition async_beolink_set_relative_volume (volume_level : string) : M unit :=
  e ← this;
  match _remote_leader e with
  | Some leader =>
      emit (DispatcherSend
              (BeolinkLeader.jid leader +:+ "_" +:+ BEOLINK_RELATIVE_VOLUME c)
              [volume_level])
  | None =>
      volume ← lift (match float_of_str py volume_level with
                     | Some v => Ok v
                     | None => Raise ValueError
                     end);
      async_set_relative_volume_level volume;;
      e ← this;
      for_each (_beolink_listeners e) (fun beolink_listener =>
        emit (DispatcherSend
                (BeolinkListener.jid beolink_listener +:+ "_" +:+ BEOLINK_LISTENER_COMMAND c)
                ["set_relative_volume_level"; volume_level]))
  end.

End Methods.

(** *** Vocabulary of the statements *)

(** [self._volume.level.level], [None] when either link is [None]: the
    stored volume level the volume operations read. *)
Definition stored_level (e : Entity) : option Z :=
  VolumeState.level (_volume e) ≫= VolumeLevel.level.

Definition volume_warning : event := Log LOG_WARNING "Error setting volume" [].

(** The sends of a leader's volume fan-out, one per known listener. *)
Definition listener_sends (c : Consts) (command volume_level : string)
    (listeners : list BeolinkListener.t) : list event :=
  (fun l => DispatcherSend (BeolinkListener.jid l +:+ "_" +:+ BEOLINK_LISTENER_COMMAND c)
              [command; volume_level]) <$> listeners.

(** The source override of [_update_beolink]: the entity's source is
    Line-In or the URI streamer. *)
Definition leader_overridden (c : Consts) (e : Entity) : bool :=
  match source c e with
  | Some s => str_in s [SOURCE_ENUM_lineIn c; SOURCE_ENUM_uriStreamer c]
  | None => false
  end.

(** The Beolink JID a registered group member resolves to, if any. *)
Definition jid_of (c : Consts) (hass : HomeAssistant) (entity_id : string) : option string :=
  match _get_beolink_jid c hass entity_id with
  | Ok jid => jid
  | Raise _ => None
  end.

(** One warning per group member without a JID, in order. *)
Definition join_warnings (c : Consts) (hass : HomeAssistant)
    (group_members : list string) : list event :=
  omap (fun m => match jid_of c hass m with
                 | None => Some (Log LOG_WARNING "Error adding %s to group" [LStr m])
                 | Some _ => None
                 end) group_members.

(** The task that expands the session: a request and a one second sleep
    per JID. *)
Definition expand_task (jids : list string) : event :=
  CreateTask (flat_map (fun jid => [Request (post_beolink_expand jid); Sleep 1]) jids).

(** Projections of attribute writes. *)
Ltac fields :=
  cbn [_beolink_jid _max_volume _volume_step _friendly_name _attr_group_members
       _audio_sources _sources _beolink_listeners _media_image _remote_leader
       _beolink_attribute _playback_metadata _source_change _volume
       set_attr_group_members set_beolink_listeners set_media_image
       set_remote_leader set_beolink_attribute set_playback_metadata
       on_beolink_attribute result after trace fst snd app].

End MediaPlayer.

(** ** The listening-position select entity ([select.py]) *)

Module Select.

Record Entity := {
  _listening_positions : dict string;
  _attr_current_option : option string;
  _attr_options : list string;
}.

Definition set_listening_positions (v : dict string) (e : Entity) : Entity :=
  {| _listening_positions := v;
     _attr_current_option := _attr_current_option e;
     _attr_options := _attr_options e |}.

Definition set_attr_current_option (v : option string) (e : Entity) : Entity :=
  {| _listening_positions := _listening_positions e;
     _attr_current_option := v;
     _attr_options := _attr_options e |}.

Definition set_attr_options (v : list string) (e : Entity) : Entity :=
  {| _listening_positions := _listening_positions e;
     _attr_current_option := _attr_current_option e;
     _attr_options := v |}.

Section Methods.

Context (client : Responses).

Abbreviation M := (prog Entity).

(** The guard of the loop body: the label of a scene that is tagged as a
    listening position and has a label. *)
Definition listening_position_label (scene : Scene.t) : option string :=
  match Scene.tags scene, Scene.label scene with
  | Some tags, Some label =>
      if str_in "listeningposition" tags then Some label else None
  | _, _ => None
  end.

(** The body of the loop of [_update_listening_positions]. *)
Definition listening_position_step (scenes : dict Scene.t)
    (active_speaker_group : SpeakerGroupOverview.t) (scene_key : string) : M unit :=
  scene ← lift (match dict_get scenes scene_key with
                | Some scene => Ok scene
                | None => Raise KeyError
                end);
  match listening_position_label scene with
  | None => pass
  | Some label =>
      e ← this;
      if dict_contains (_listening_positions e) label
      then emit (Log LOG_WARNING
                   "Ignoring listening position with duplicate name: %s and ID: %s"
                   [LStr label; LStr scene_key])
      else
        assign (set_listening_positions (dict_set (_listening_positions e) label scene_key));;
        action ← lift (index (Scene.action_list scene) 0);
        if opt_eqb (SpeakerGroupOverview.id active_speaker_group)
                   (Action.speaker_group_id action)
        then assign (set_attr_current_option (Scene.label scene))
        else pass
  end.

Definition _update_listening_positions
    (active_speaker_group : option SpeakerGroupOverview.t) : M unit :=
  emit (Request get_all_scenes);;
  let scenes := all_scenes client in
  active_speaker_group ←
    match active_speaker_group with
    | Some g => mret g
    | None => emit (Request get_speakergroup_active);;
              mret (speakergroup_active client)
    end;
  assign (set_listening_positions []);;
  for_each (dict_keys scenes) (listening_position_step scenes active_speaker_group);;
  e ← this;
  assign (set_attr_options (dict_keys (_listening_positions e)));;
  emit WriteHaState.

End Methods.

(** *** Vocabulary of the statements *)

Definition duplicate_warning (label scene_key : string) : event :=
  Log LOG_WARNING "Ignoring listening position with duplicate name: %s and ID: %s"
    [LStr label; LStr scene_key].

(** The listening positions among the scenes, as (label, key), in order. *)
Definition labelled (scenes : dict Scene.t) : dict string :=
  omap (fun '(key, scene) => (fun label => (label, key)) <$> listening_position_label scene)
    scenes.

(** First seen wins: what becomes of a catalog when labelled keys are
    offered to it in order, and the warnings the losers earn. *)
Fixpoint catalog (positions : dict string) (labels : dict string) : dict string :=
  match labels with
  | [] => positions
  | (label, key) :: labels' =>
      if dict_contains positions label then catalog positions labels'
      else catalog (dict_set positions label key) labels'
  end.

Fixpoint catalog_warnings (positions : dict string) (labels : dict string) : list event :=
  match labels with
  | [] => []
  | (label, key) :: labels' =>
      if dict_contains positions label
      then duplicate_warning label key :: catalog_warnings positions labels'
      else catalog_warnings (dict_set positions label key) labels'
  end.

End Select.

(** ** A concrete configuration

    One assignment of the constants and one speaker set-up, used to run
    the methods on examples. *)

Module Sample.

Definition consts : Consts :=
  {| SOURCE_ENUM_lineIn := "Line-In";
     SOURCE_ENUM_uriStreamer := "Audio Streamer";
     SOURCE_ENUM_bluetooth := "Bluetooth";
     SOURCE_ENUM_spdif := "Optical";
     SOURCE_ENUM_chromeCast := "Chromecast built-in";
     BEOLINK_LISTENER_COMMAND := "BEOLINK_LISTENER_COMMAND";
     BEOLINK_VOLUME := "BEOLINK_VOLUME";
     BEOLINK_RELATIVE_VOLUME := "BEOLINK_RELATIVE_VOLUME";
     CONF_BEOLINK_JID := "jid";
     ART_SIZE_ENUM := fun name =>
       if String.eqb name "small" then Some 1
       else if String.eqb name "medium" then Some 2
       else if String.eqb name "large" then Some 3
       else None |}.

Definition digit (ch : ascii) : option Z :=
  let n := Z.of_nat (nat_of_ascii ch) in
  if (48 <=? n) && (n <=? 57) then Some (n - 48) else None.

Fixpoint digits (s : string) (acc : Z) : option Z :=
  match s with
  | EmptyString => Some acc
  | String ch s' =>
      match digit ch with
      | Some d => digits s' (10 * acc + d)
      | None => None
      end
  end.

(** Plain decimal numerals. *)
Definition numeral (s : string) : option Z :=
  match s with
  | EmptyString => None
  | _ => digits s 0
  end.

(** Numerals of the shape [ddd] or [ddd.ddd], with an optional sign. *)
Definition decimal (s : string) : option float :=
  let '(negative, body) :=
    match s with
    | String "-" s' => (true, s')
    | _ => (false, s)
    end in
  match str_split "." body with
  | [whole] =>
      match numeral whole with
      | Some n => Some (float_of_int (if negative then - n else n))
      | None => None
      end
  | [whole; frac] =>
      match numeral (whole +:+ frac) with
      | Some n =>
          match int_truediv (if negative then - n else n)
                  (10 ^ Z.of_nat (String.length frac)) with
          | Ok x => Some x
          | Raise _ => None
          end
      | None => None
      end
  | _ => None
  end.

Definition builtins : Builtins :=
  {| int_of_str := numeral; float_of_str := decimal |}.

(** [float] also reads the names of the values that are not numbers. *)
Definition named (s : string) : option float :=
  if String.eqb s "nan" then Some S754_nan
  else if String.eqb s "inf" then Some (S754_infinity false)
  else if String.eqb s "-inf" then Some (S754_infinity true)
  else decimal s.

Definition builtins_named : Builtins :=
  {| int_of_str := numeral; float_of_str := named |}.

(** Four digits, seven digits, eight digits, then the vendor's domain. *)
Definition check_valid_jid (jid : string) : bool :=
  match str_split "@" jid with
  | [product; domain] =>
      String.eqb domain "products.bang-olufsen.com" &&
      match str_split "." product with
      | [a; b; serial] =>
          (String.length a =? 4)%nat && (String.length b =? 7)%nat &&
          (String.length serial =? 8)%nat &&
          bool_decide (is_Some (numeral a)) && bool_decide (is_Some (numeral b)) &&
          bool_decide (is_Some (numeral serial))
      | _ => false
      end
  | _ => false
  end.

Definition jid_living_room : string := "1111.2222222.33333333@products.bang-olufsen.com".
Definition jid_kitchen : string := "1111.2222222.44444444@products.bang-olufsen.com".
Definition jid_bedroom : string := "1111.2222222.55555555@products.bang-olufsen.com".

(** The living room and kitchen speakers are registered; the bedroom
    speaker is on the network but not in the registry.  The TV belongs to
    another integration, and one entry carries a malformed identifier. *)
Definition hass : HomeAssistant :=
  {| entity_ids :=
       {[ "33333333" := "media_player.living_room";
          "44444444" := "media_player.kitchen" ]};
     entities :=
       {[ "media_player.living_room" := {| config_entry_id := Some "entry_1" |};
          "media_player.kitchen" := {| config_entry_id := Some "entry_2" |};
          "media_player.tv" := {| config_entry_id := Some "entry_3" |};
          "media_player.attic" := {| config_entry_id := Some "entry_4" |} ]};
     config_entries :=
       {[ "entry_1" := {| data := [("host", "192.168.0.2"); ("jid", jid_living_room)] |};
          "entry_2" := {| data := [("host", "192.168.0.3"); ("jid", jid_kitchen)] |};
          "entry_3" := {| data := [("host", "192.168.0.9")] |};
          "entry_4" := {| data := [("jid", "attic")] |} ]} |}.

Definition no_scenes : dict Scene.t := [].

Definition responses (listeners : list string) : Responses :=
  {| beolink_peers :=
       [ {| BeolinkPeer.friendly_name := "Kitchen"; BeolinkPeer.jid := jid_kitchen |};
         {| BeolinkPeer.friendly_name := "Bedroom"; BeolinkPeer.jid := jid_bedroom |} ];
     beolink_listeners := (fun j => {| BeolinkListener.jid := j |}) <$> listeners;
     all_scenes := no_scenes;
     speakergroup_active := {| SpeakerGroupOverview.id := None |} |}.

Definition metadata (title : option string) (leader : option BeolinkLeader.t)
  : PlaybackContentMetadata.t :=
  {| PlaybackContentMetadata.title := title;
     PlaybackContentMetadata.art := None;
     PlaybackContentMetadata.remote_leader := leader |}.

(** The living room speaker, with a given stored level. *)
Definition living_room (level : option Z) : MediaPlayer.Entity :=
  {| MediaPlayer._beolink_jid := jid_living_room;
     MediaPlayer._max_volume := 70;
     MediaPlayer._volume_step := 5;
     MediaPlayer._friendly_name := "Living room";
     MediaPlayer._attr_group_members := [];
     MediaPlayer._audio_sources := [("spotify", "Spotify Connect"); ("lineIn", "Line-In")];
     MediaPlayer._sources :=
       [("spotify", "Spotify Connect"); ("lineIn", "Line-In"); ("HdmiArc1", "HDMI A")];
     MediaPlayer._beolink_listeners := [];
     MediaPlayer._media_image := Art.empty;
     MediaPlayer._remote_leader := None;
     MediaPlayer._beolink_attribute := None;
     MediaPlayer._playback_metadata := metadata (Some "Song") None;
     MediaPlayer._source_change :=
       {| Source.id := Some "spotify"; Source.name := Some "Spotify Connect" |};
     MediaPlayer._volume :=
       {| VolumeState.level := Some {| VolumeLevel.level := level |} |} |}.

Definition kitchen_leader : BeolinkLeader.t :=
  {| BeolinkLeader.friendly_name := "Kitchen"; BeolinkLeader.jid := jid_kitchen |}.

(** The living room speaker listening to the kitchen. *)
Definition listening (level : option Z) : MediaPlayer.Entity :=
  MediaPlayer.set_remote_leader (Some kitchen_leader) (living_room level).

(** The living room speaker leading the kitchen. *)
Definition leading (level : option Z) : MediaPlayer.Entity :=
  MediaPlayer.set_beolink_listeners [{| BeolinkListener.jid := jid_kitchen |}]
    (living_room level).

(** 0.5 and 0.68 *)
Definition half : float := S754_finite false 4503599627370496 (-53).
Definition level_68 : float := S754_finite false 6124895493223875 (-53).

Definition listening_position (label group : string) : Scene.t :=
  {| Scene.tags := Some ["listeningposition"];
     Scene.label := Some label;
     Scene.action_list := [{| Action.speaker_group_id := Some group |}] |}.

Definition party : Scene.t :=
  {| Scene.tags := Some ["scene"]; Scene.label := Some "Party"; Scene.action_list := [] |}.

(** Two scenes are called Sofa. *)
Definition scenes : dict Scene.t :=
  [ ("scene-1", listening_position "Sofa" "group-1");
    ("scene-2", party);
    ("scene-3", listening_position "Sofa" "group-2");
    ("scene-4", listening_position "Desk" "group-3") ].

Definition scene_responses : Responses :=
  {| beolink_peers := [];
     beolink_listeners := [];
     all_scenes := scenes;
     speakergroup_active := {| SpeakerGroupOverview.id := Some "group-1" |} |}.

Definition select : Select.Entity :=
  {| Select._listening_positions := [];
     Select._attr_current_option := None;
     Select._attr_options := [] |}.

End Sample.

(** ** Vocabulary of the further properties *)

Module Vocabulary.

Import MediaPlayer.

(** How often a character occurs in a string. *)
Fixpoint count_char (ch : ascii) (s : string) : nat :=
  match s with
  | EmptyString => 0
  | String ch' s' => (if Ascii.eqb ch' ch then 1 else 0) + count_char ch s'
  end.

(** [f"{product}.{kind}.{serial}@{domain}"], the shape of a Beolink JID. *)
Definition make_jid (product kind serial domain : string) : string :=
  product +:+ "." +:+ kind +:+ "." +:+ serial +:+ "@" +:+ domain.

(** [int(image.key.split("x")[0])], when the image has a key that starts
    with a number. *)
Definition key_width (py : Builtins) (image : Art.t) : option Z :=
  Art.key image ≫= fun k => head (str_split "x" k) ≫= int_of_str py.

(** The attributes a group update derives, replaced by other values. *)
Definition with_stale (group_members : list (option string))
    (leader : option BeolinkLeader.t) (attribute : option BeolinkAttribute)
    (e : Entity) : Entity :=
  set_attr_group_members group_members
    (set_remote_leader leader (set_beolink_attribute attribute e)).

(** The attributes a group update never writes agree in [e] and [e']. *)
Definition untouched (e e' : Entity) : Prop :=
  _beolink_jid e' = _beolink_jid e /\ _max_volume e' = _max_volume e /\
  _volume_step e' = _volume_step e /\ _friendly_name e' = _friendly_name e /\
  _audio_sources e' = _audio_sources e /\ _sources e' = _sources e /\
  _media_image e' = _media_image e /\ _playback_metadata e' = _playback_metadata e /\
  _source_change e' = _source_change e /\ _volume e' = _volume e.

(** A group member that resolves to a config entry. *)
Definition config_entry_of (hass : HomeAssistant) (entity_id : string) : option ConfigEntry :=
  (entities hass !! entity_id ≫= config_entry_id) ≫= (config_entries hass !!.).

End Vocabulary.

(** ** Further requests and effects

    The methods below send requests the ones above do not.  Their traces
    hold the events above, the further requests, and the tasks made of
    both. *)

Module Uri.
Record t := { location : string }.
End Uri.

Module TextToSpeech.
(** [OverlayPlayRequestTextToSpeechTextToSpeech] *)
Record t := { lang : string; text : string }.
End TextToSpeech.

Module OverlayPlayRequest.
Record t := {
  uri : option Uri.t;
  text_to_speech : option TextToSpeech.t;
  volume_absolute : option Z;
}.
End OverlayPlayRequest.

Inductive call :=
| post_scene_trigger (id : string)
| get_listening_mode_set
| get_active_listening_mode
| activate_listening_mode (id : Z)
(** [get_available_sources(target_remote=False)] *)
| get_available_sources
| get_remote_menu
| post_beolink_unexpand (jid : string)
| post_overlay_play (overlay_play_request : OverlayPlayRequest.t)
| seek_to_position (position_ms : Z).

#[warnings="-register-all"]
Inductive effect :=
| Event (e : event)
| Call (r : call)
(** [hass.async_create_task] *)
| Task (body : list effect).

Definition proc (S A : Type) : Type := S -> outcome A * S * list effect.

#[export] Instance proc_ret {S} : MRet (proc S) :=
  fun A a s => (Ok a, s, []).

#[export] Instance proc_bind {S} : MBind (proc S) :=
  fun A B k m s =>
    match m s with
    | (Ok a, s', t) => let '(r, s'', t') := k a s' in (r, s'', t ++ t')
    | (Raise e, s', t) => (Raise e, s', t)
    end.

Definition current {S} : proc S S := fun s => (Ok s, s, []).
Definition modify {S} (f : S -> S) : proc S unit := fun s => (Ok tt, f s, []).
Definition perform {S} (x : effect) : proc S unit := fun s => (Ok tt, s, [x]).
Definition throw {S A} (e : exn) : proc S A := fun s => (Raise e, s, []).
Definition of_outcome {S A} (o : outcome A) : proc S A := fun s => (o, s, []).
Definition skip {S} : proc S unit := mret tt.

Definition send {S} (r : call) : proc S unit := perform (Call r).
Definition log {S} (level : log_level) (format : string) (args : list log_arg)
  : proc S unit :=
  perform (Event (Log level format args)).

(** [for x in l: body x] *)
Fixpoint for_all {S A} (l : list A) (body : A -> proc S unit) : proc S unit :=
  match l with
  | [] => skip
  | x :: l' => body x;; for_all l' body
  end.

Definition outcome_of {S A} (r : outcome A * S * list effect) : outcome A := r.1.1.
Definition state_of {S A} (r : outcome A * S * list effect) : S := r.1.2.
Definition effects_of {S A} (r : outcome A * S * list effect) : list effect := r.2.

Definition calls (t : list effect) : list call :=
  omap (fun x => match x with Call r => Some r | _ => None end) t.

(** Unfold the operations at the head of a goal. *)
Ltac step :=
  unfold mbind, proc_bind, mret, proc_ret, current, modify, send, log, perform, throw,
    of_outcome, skip;
  cbv beta iota.

(** *** More of Python *)

(** [bool(x)] for an optional [int] and an optional [str]: the value when
    it is truthy. *)
Definition truthy_int (x : option Z) : option Z :=
  match x with
  | Some n => if n =? 0 then None else Some n
  | None => None
  end.

Definition truthy_str (x : option string) : option string :=
  match x with
  | Some s => if String.eqb s "" then None else Some s
  | None => None
  end.

(** [str(n)] for an [int]. *)
Definition str_of_int (n : Z) : string := NilZero.string_of_int (Z.to_int n).

(** [f"{x}"] for an optional [str]. *)
Definition format_str (x : option string) : string :=
  match x with
  | Some s => s
  | None => "None"
  end.

(** [a == b] for optional [int]s. *)
Definition opt_Z_eqb (a b : option Z) : bool :=
  match a, b with
  | Some x, Some y => x =? y
  | None, None => true
  | _, _ => false
  end.

(** The last element of a list that passes a test. *)
Fixpoint find_last {A} (f : A -> bool) (l : list A) : option A :=
  match l with
  | [] => None
  | x :: l' =>
      match find_last f l' with
      | Some y => Some y
      | None => if f x then Some x else None
      end
  end.

(** [a | b] on dicts: the entries of [a], those of [b] on top. *)
Definition dict_union {V} (a b : dict V) : dict V :=
  fold_left (fun d '(k, v) => dict_set d k v) b a.

(** The value a key gets last in a list of entries. *)
Definition dict_last {V} (entries : list (string * V)) (k : string) : option V :=
  snd <$> find_last (fun entry => String.eqb (fst entry) k) entries.

(** ** Select entities ([select.py]), continued *)

Module ListeningMode.
Record t := { id : Z; name : option string }.
End ListeningMode.

Module ListeningModeRef.
(** Also [ListeningModeProps], of which only the [id] is read. *)
Record t := { id : option Z }.
End ListeningModeRef.

Record SelectResponses := {
  listening_mode_set : list ListeningMode.t;
  active_listening_mode : ListeningModeRef.t;
}.

(** [BangOlufsenSelectListeningPosition], whose catalog is rebuilt above *)
Module ListeningPositionSelect.

Import Select.

Definition async_select_option (option : string) : proc Entity unit :=
  e ← current;
  id ← of_outcome (match dict_get (_listening_positions e) option with
                   | Some id => Ok id
                   | None => Raise KeyError
                   end);
  send (post_scene_trigger id).

End ListeningPositionSelect.

(** [BangOlufsenSelectSoundMode] *)
Module SoundModeSelect.

Record Entity := {
  _sound_modes : dict Z;
  _attr_current_option : option string;
  _attr_options : list string;
}.

Definition set_sound_modes (v : dict Z) (e : Entity) : Entity :=
  {| _sound_modes := v;
     _attr_current_option := _attr_current_option e;
     _attr_options := _attr_options e |}.

Definition set_attr_current_option (v : option string) (e : Entity) : Entity :=
  {| _sound_modes := _sound_modes e;
     _attr_current_option := v;
     _attr_options := _attr_options e |}.

Definition set_attr_options (v : list string) (e : Entity) : Entity :=
  {| _sound_modes := _sound_modes e;
     _attr_current_option := _attr_current_option e;
     _attr_options := v |}.

Section Methods.

Context (client : SelectResponses).

Definition async_select_option (option : string) : proc Entity unit :=
  e ← current;
  id ← of_outcome (match dict_get (_sound_modes e) option with
                   | Some id => Ok id
                   | None => Raise KeyError
                   end);
  send (activate_listening_mode id).

(** [f"{sound_mode.name} - {sound_mode.id}"] *)
Definition sound_mode_label (sound_mode : ListeningMode.t) : string :=
  format_str (ListeningMode.name sound_mode) +:+ " - "
  +:+ str_of_int (ListeningMode.id sound_mode).

(** The body of the loop of [_update_sound_modes]. *)
Definition sound_mode_step (active_sound_mode : ListeningModeRef.t)
    (sound_mode : ListeningMode.t) : proc Entity unit :=
  let label := sound_mode_label sound_mode in
  e ← current;
  modify (set_sound_modes (dict_set (_sound_modes e) label (ListeningMode.id sound_mode)));;
  if opt_Z_eqb (Some (ListeningMode.id sound_mode)) (ListeningModeRef.id active_sound_mode)
  then modify (set_attr_current_option (Some label))
  else skip.

Definition _update_sound_modes (active_sound_mode : option ListeningModeRef.t)
  : proc Entity unit :=
  send get_listening_mode_set;;
  let sound_modes := listening_mode_set client in
  active_sound_mode ←
    match active_sound_mode with
    | Some m => mret m
    | None => send get_active_listening_mode;;
              mret (active_listening_mode client)
    end;
  for_all sound_modes (sound_mode_step active_sound_mode);;
  e ← current;
  modify (set_attr_options (dict_keys (_sound_modes e)));;
  perform (Event WriteHaState).

End Methods.

(** *** Vocabulary of the statements *)

(** The last mode in the list that gets a given label. *)
Definition mode_labelled (sound_modes : list ListeningMode.t) (label : string)
  : option ListeningMode.t :=
  find_last (fun m => String.eqb (sound_mode_label m) label) sound_modes.

(** The last mode in the list with the active ID. *)
Definition active_mode (sound_modes : list ListeningMode.t) (active : ListeningModeRef.t)
  : option ListeningMode.t :=
  find_last (fun m => opt_Z_eqb (Some (ListeningMode.id m)) (ListeningModeRef.id active))
    sound_modes.

(** The catalog after the loop over the modes, from the one before. *)
Definition sound_modes_after (sound_modes : list ListeningMode.t) (d : dict Z) : dict Z :=
  fold_left (fun d m => dict_set d (sound_mode_label m) (ListeningMode.id m)) sound_modes d.

End SoundModeSelect.

(** ** The media player entity, continued *)

(** A [Source] as [get_available_sources] lists it. *)
Module ListedSource.
Record t := {
  id : option string;
  name : option string;
  is_enabled : option bool;
}.
End ListedSource.

Module ContentItem.
Record t := { categories : option (list string) }.
End ContentItem.

Module RemoteMenuItem.
Record t := {
  available : option bool;
  content : option ContentItem.t;
  label : option string;
}.
End RemoteMenuItem.

Module PlaybackProgress.
Record t := { progress : option Z }.
End PlaybackProgress.

Record PlayerResponses := {
  (** The [items] of the [SourceArray], or the exception of the request *)
  available_sources : outcome (list ListedSource.t);
  remote_menu : dict RemoteMenuItem.t;
}.

(** Further constants, of [const.py] and of the vendor's package. *)
Record PlayerConsts := {
  (** The [items] of [FALLBACK_SOURCES] *)
  FALLBACK_SOURCES : list ListedSource.t;
  HIDDEN_SOURCE_IDS : list string;
  MOZART_API_VERSION : string;
  SOURCE_ENUM_deezer : string;
}.

(** What the platform does for [async_overlay_audio] and the clock. *)
Record Platform := {
  (** [hass.is_running] *)
  is_running : bool;
  (** [utcnow()] *)
  utcnow : Z;
  (** [media_source.is_media_source_id] *)
  is_media_source_id : string -> bool;
  (** [async_process_play_media_url] of the URL that
      [media_source.async_resolve_media] finds, or the exception that
      either of the two raises *)
  resolved_media_url : string -> outcome string;
}.

(** The vendor's request models check their fields when they are built:
    the exception the constructor raises on a value, if it raises. *)
Record Models := {
  (** [Uri(location=...)] *)
  Uri_error : Uri.t -> option exn;
  (** [OverlayPlayRequestTextToSpeechTextToSpeech(lang=..., text=...)] *)
  TextToSpeech_error : TextToSpeech.t -> option exn;
  (** [OverlayPlayRequest(...)] *)
  OverlayPlayRequest_error : OverlayPlayRequest.t -> option exn;
}.

(** [Model(...)]: the model, unless its constructor raises. *)
Definition construct {S A} (error : A -> option exn) (x : A) : proc S A :=
  match error x with
  | Some err => throw err
  | None => mret x
  end.

Module Player.

Import MediaPlayer.

(** The attributes read and written here, besides those above. *)
Record Entity := {
  base : MediaPlayer.Entity;
  _video_sources : dict string;
  (** [self._software_status.software_version] *)
  _software_version : string;
  _playback_progress : PlaybackProgress.t;
  _last_update : Z;
}.

Definition set_base (v : MediaPlayer.Entity) (e : Entity) : Entity :=
  {| base := v; _video_sources := _video_sources e;
     _software_version := _software_version e;
     _playback_progress := _playback_progress e; _last_update := _last_update e |}.

Definition set_video_sources (v : dict string) (e : Entity) : Entity :=
  {| base := base e; _video_sources := v;
     _software_version := _software_version e;
     _playback_progress := _playback_progress e; _last_update := _last_update e |}.

Definition set_playback_progress (v : PlaybackProgress.t) (e : Entity) : Entity :=
  {| base := base e; _video_sources := _video_sources e;
     _software_version := _software_version e;
     _playback_progress := v; _last_update := _last_update e |}.

Definition set_last_update (v : Z) (e : Entity) : Entity :=
  {| base := base e; _video_sources := _video_sources e;
     _software_version := _software_version e;
     _playback_progress := _playback_progress e; _last_update := v |}.

Definition set_audio_sources (v : dict string) (e : MediaPlayer.Entity)
  : MediaPlayer.Entity :=
  {| _beolink_jid := _beolink_jid e; _max_volume := _max_volume e;
     _volume_step := _volume_step e; _friendly_name := _friendly_name e;
     _attr_group_members := _attr_group_members e;
     _audio_sources := v; _sources := _sources e;
     _beolink_listeners := _beolink_listeners e; _media_image := _media_image e;
     _remote_leader := _remote_leader e; _beolink_attribute := _beolink_attribute e;
     _playback_metadata := _playback_metadata e; _source_change := _source_change e;
     _volume := _volume e |}.

Definition set_sources (v : dict string) (e : MediaPlayer.Entity) : MediaPlayer.Entity :=
  {| _beolink_jid := _beolink_jid e; _max_volume := _max_volume e;
     _volume_step := _volume_step e; _friendly_name := _friendly_name e;
     _attr_group_members := _attr_group_members e;
     _audio_sources := _audio_sources e; _sources := v;
     _beolink_listeners := _beolink_listeners e; _media_image := _media_image e;
     _remote_leader := _remote_leader e; _beolink_attribute := _beolink_attribute e;
     _playback_metadata := _playback_metadata e; _source_change := _source_change e;
     _volume := _volume e |}.

Definition on_base (f : MediaPlayer.Entity -> MediaPlayer.Entity) (e : Entity) : Entity :=
  set_base (f (base e)) e.

Section Methods.

Context (c : Consts) (k : PlayerConsts).
Context (check_valid_jid : string -> bool).
Context (platform : Platform) (models : Models) (client : PlayerResponses).

Definition M := proc Entity.

(** The filter and the entry of the comprehension of [_update_sources]:
    an enabled source with an ID and a name, the ID not hidden. *)
Definition listed (source : ListedSource.t) : option (string * string) :=
  match ListedSource.is_enabled source,
        truthy_str (ListedSource.id source), truthy_str (ListedSource.name source) with
  | Some true, Some id, Some name =>
      if negb (str_in id (HIDDEN_SOURCE_IDS k)) then Some (id, name) else None
  | _, _, _ => None
  end.

(** [{source.id: source.name for source in items if ...}] *)
Definition audio_sources_of (items : list ListedSource.t) : dict string :=
  fold_left (fun d source =>
               match listed source with
               | Some (id, name) => dict_set d id name
               | None => d
               end) items [].

(** The test on a remote menu item that makes it a video source. *)
Definition video_label (menu_item : RemoteMenuItem.t) : option string :=
  match RemoteMenuItem.content menu_item with
  | Some content =>
      match ContentItem.categories content with
      | Some categories =>
          if (0 <? length categories)%nat && negb (str_in "music" categories)
          then match truthy_str (RemoteMenuItem.label menu_item) with
               | Some label => if negb (String.eqb label "TV") then Some label else None
               | None => None
               end
          else None
      | None => None
      end
  | None => None
  end.

(** The body of the loop of [_update_sources] over the remote menu. *)
Definition menu_item_step (menu_items : dict RemoteMenuItem.t) (key : string) : M unit :=
  menu_item ← of_outcome (match dict_get menu_items key with
                          | Some menu_item => Ok menu_item
                          | None => Raise KeyError
                          end);
  match RemoteMenuItem.available menu_item with
  | Some true =>
      match video_label menu_item with
      | Some label =>
          e ← current;
          modify (set_video_sources (dict_set (_video_sources e) key label))
      | None => skip
      end
  | _ => skip
  end.

(** [self.device_info] is the [DeviceInfo] that [__init__] builds, with a
    configuration URL, identifiers, manufacturer, model and name: it is
    not empty and has no ["sw_version"] entry, so the version named in the
    warning is the one of [self._software_status]. *)
Definition _update_sources : M unit :=
  send get_available_sources;;
  sources ←
    match available_sources client with
    | Ok items => mret items
    | Raise ValueError =>
        e ← current;
        let sw_version := _software_version e in
        log LOG_WARNING
          "The API is outdated compared to the device software version %s and %s. Using fallback sources"
          [LStr (MOZART_API_VERSION k); LStr sw_version];;
        mret (FALLBACK_SOURCES k)
    | Raise err => throw err
    end;
  modify (on_base (set_audio_sources (audio_sources_of sources)));;
  send get_remote_menu;;
  let menu_items := remote_menu client in
  for_all (dict_keys menu_items) (menu_item_step menu_items);;
  e ← current;
  modify (on_base (set_sources (dict_union (_audio_sources (base e)) (_video_sources e))));;
  if is_running platform then perform (Event WriteHaState) else skip.

(** Property [media_position]. *)
Definition media_position (e : Entity) : option Z :=
  match _remote_leader (base e) with
  | None => PlaybackProgress.progress (_playback_progress e)
  | Some _ => None
  end.

Definition async_media_seek (position : float) : M unit :=
  e ← current;
  if opt_eqb (source c (base e)) (Some (SOURCE_ENUM_deezer k))
  then
    position_ms ← of_outcome (int_of_float (fmul position (float_of_int 1000)));
    send (seek_to_position position_ms);;
    modify (set_last_update (utcnow platform));;
    progress ← of_outcome (int_of_float position);
    modify (set_playback_progress {| PlaybackProgress.progress := Some progress |});;
    perform (Event WriteHaState)
  else log LOG_ERROR "Seeking is currently only supported when using Deezer" [].

Definition _beolink_unexpand (beolink_jids : list string) : M unit :=
  for_all beolink_jids (fun beolink_jid =>
    send (post_beolink_unexpand beolink_jid);;
    perform (Event (Sleep 1))).

(** The validity loop returns at the first invalid JID, without a word. *)
Definition async_beolink_unexpand (beolink_jids : list string) : M unit :=
  match List.find (fun beolink_jid => negb (check_valid_jid beolink_jid)) beolink_jids with
  | Some _ => skip
  | None =>
      e ← current;
      perform (Task (effects_of (_beolink_unexpand beolink_jids e)))
  end.

(** The media source is resolved and the request models are built, each
    of which may raise, before the one request is sent. *)
Definition async_overlay_audio (uri : option string)
    (absolute_volume volume_offset : option Z) (tts : option string)
    (tts_language : string) : M unit :=
  match truthy_int absolute_volume, truthy_int volume_offset with
  | Some _, Some _ =>
      log LOG_ERROR "Can't define absolute volume and volume offset at the same time" []
  | absolute, offset =>
      match truthy_str tts, truthy_str uri with
      | Some _, Some _ =>
          log LOG_ERROR "Can't define URI and TTS message at the same time" []
      | message, location =>
          volume ←
            match absolute, offset with
            | Some volume, _ => mret (Some volume)
            | None, Some offset =>
                e ← current;
                match truthy_level (_volume (base e)) with
                | None => log LOG_WARNING "Error setting volume" [];; mret None
                | Some level => mret (Some (Z.min (level + offset) 100))
                end
            | None, None => mret None
            end;
          match location, message with
          | Some media_id, _ =>
              media_id ←
                (if is_media_source_id platform media_id
                 then of_outcome (resolved_media_url platform media_id)
                 else mret media_id);
              location ← construct (Uri_error models) {| Uri.location := media_id |};
              overlay_play_request ←
                construct (OverlayPlayRequest_error models)
                  {| OverlayPlayRequest.uri := Some location;
                     OverlayPlayRequest.text_to_speech := None;
                     OverlayPlayRequest.volume_absolute := volume |};
              send (post_overlay_play overlay_play_request)
          | None, Some message =>
              text_to_speech ←
                construct (TextToSpeech_error models)
                  {| TextToSpeech.lang := tts_language; TextToSpeech.text := message |};
              overlay_play_request ←
                construct (OverlayPlayRequest_error models)
                  {| OverlayPlayRequest.uri := None;
                     OverlayPlayRequest.text_to_speech := Some text_to_speech;
                     OverlayPlayRequest.volume_absolute := volume |};
              send (post_overlay_play overlay_play_request)
          | None, None => skip
          end
      end
  end.

End Methods.

(** *** Vocabulary of the statements *)

(** A method of the entity above, run on the attributes it knows. *)
Definition on_player {A} (m : prog MediaPlayer.Entity A) (e : Entity)
  : outcome A * Entity * list effect :=
  let '(o, b, t) := m (base e) in (o, set_base b e, Event <$> t).

(** The video sources a remote menu adds: the available items that pass
    the test, under their keys. *)
Definition video_sources_of (menu_items : dict RemoteMenuItem.t) : dict string :=
  omap (fun '(key, menu_item) =>
          match RemoteMenuItem.available menu_item with
          | Some true => (fun label => (key, label)) <$> video_label menu_item
          | _ => None
          end) menu_items.

(** The request an overlay sends, if it sends one. *)
Definition overlay_requests (t : list effect) : list OverlayPlayRequest.t :=
  omap (fun x => match x with Call (post_overlay_play r) => Some r | _ => None end) t.

(** The volume an overlay asks for: the absolute volume given, or else
    the stored level plus the offset given, capped at 100, where 0 and a
    missing value count as not given or not stored. *)
Definition overlay_volume (absolute_volume volume_offset : option Z) (e : Entity)
  : option Z :=
  match truthy_int absolute_volume, truthy_int volume_offset with
  | Some volume, _ => Some volume
  | None, Some offset =>
      (fun level => Z.min (level + offset) 100) <$> truthy_level (_volume (base e))
  | None, None => None
  end.

(** The outcome of building [x] and then [y] from it. *)
Definition built {A B} (error : A -> option exn) (x : A)
    (error' : B -> option exn) (y : B) : outcome B :=
  match error x, error' y with
  | Some err, _ => Raise err
  | None, Some err => Raise err
  | None, None => Ok y
  end.

(** The request for a URI, which a media source ID is resolved to, and
    the request for a message. *)
Definition uri_request (platform : Platform) (models : Models) (uri : string)
    (volume : option Z) : outcome OverlayPlayRequest.t :=
  match (if is_media_source_id platform uri then resolved_media_url platform uri
         else Ok uri) with
  | Raise err => Raise err
  | Ok media_id =>
      built (Uri_error models) {| Uri.location := media_id |}
        (OverlayPlayRequest_error models)
        {| OverlayPlayRequest.uri := Some {| Uri.location := media_id |};
           OverlayPlayRequest.text_to_speech := None;
           OverlayPlayRequest.volume_absolute := volume |}
  end.

Definition tts_request (models : Models) (tts tts_language : string)
    (volume : option Z) : outcome OverlayPlayRequest.t :=
  built (TextToSpeech_error models)
    {| TextToSpeech.lang := tts_language; TextToSpeech.text := tts |}
    (OverlayPlayRequest_error models)
    {| OverlayPlayRequest.uri := None;
       OverlayPlayRequest.text_to_speech :=
         Some {| TextToSpeech.lang := tts_language; TextToSpeech.text := tts |};
       OverlayPlayRequest.volume_absolute := volume |}.

Ltac fields :=
  cbn [base _video_sources _software_version _playback_progress _last_update
       set_base set_video_sources set_playback_progress set_last_update on_base
       outcome_of state_of effects_of fst snd app].

End Player.

(** ** Further examples *)

Module Examples.

Definition cover (key : string) : Art.t :=
  {| Art.key := Some key; Art.size := None;
     Art.url := Some ("http://192.168.0.2/art/" +:+ key);
     Art.has_local_image := Some true |}.

(** Two images are 640 wide. *)
Definition covers : list Art.t :=
  [cover "300x300"; cover "640x640"; cover "64x64"; cover "640x480"].

Definition blank : Art.t :=
  {| Art.key := None; Art.size := None; Art.url := Some "http://192.168.0.2/art/blank";
     Art.has_local_image := None |}.

Definition song (art : list Art.t) : PlaybackContentMetadata.t :=
  {| PlaybackContentMetadata.title := Some "Song";
     PlaybackContentMetadata.art := Some art;
     PlaybackContentMetadata.remote_leader := None |}.

(** The living room speaker playing a song with the given artwork. *)
Definition playing (art : list Art.t) : MediaPlayer.Entity :=
  MediaPlayer.set_playback_metadata (song art) (Sample.living_room (Some 30)).

(** The living room speaker with Line-In as the title of what it plays,
    while the metadata still names the kitchen as leader. *)
Definition on_line_in : MediaPlayer.Entity :=
  MediaPlayer.set_playback_metadata
    (Sample.metadata (Some "Line-In") (Some Sample.kitchen_leader))
    (Sample.living_room (Some 30)).

(** The living room speaker streaming from Deezer. *)
Definition on_deezer : MediaPlayer.Entity :=
  {| MediaPlayer._beolink_jid := Sample.jid_living_room;
     MediaPlayer._max_volume := 70;
     MediaPlayer._volume_step := 5;
     MediaPlayer._friendly_name := "Living room";
     MediaPlayer._attr_group_members := [];
     MediaPlayer._audio_sources := [("deezer", "Deezer")];
     MediaPlayer._sources := [("deezer", "Deezer")];
     MediaPlayer._beolink_listeners := [];
     MediaPlayer._media_image := Art.empty;
     MediaPlayer._remote_leader := None;
     MediaPlayer._beolink_attribute := None;
     MediaPlayer._playback_metadata := Sample.metadata (Some "Song") None;
     MediaPlayer._source_change :=
       {| Source.id := Some "deezer"; Source.name := Some "Deezer" |};
     MediaPlayer._volume :=
       {| VolumeState.level := Some {| VolumeLevel.level := Some 30 |} |} |}.

(** The sound modes of the device; the second one is active. *)
Definition sound_modes : list ListeningMode.t :=
  [ {| ListeningMode.id := 1; ListeningMode.name := Some "Speech" |};
    {| ListeningMode.id := 2; ListeningMode.name := Some "Music" |};
    {| ListeningMode.id := 3; ListeningMode.name := None |} ].

Definition sound_mode_responses : SelectResponses :=
  {| listening_mode_set := sound_modes;
     active_listening_mode := {| ListeningModeRef.id := Some 2 |} |}.

(** A sound-mode select that knows a mode the device no longer lists. *)
Definition sound_mode_select : SoundModeSelect.Entity :=
  {| SoundModeSelect._sound_modes := [("Night - 7", 7)];
     SoundModeSelect._attr_current_option := Some "Night - 7";
     SoundModeSelect._attr_options := ["Night - 7"] |}.

Definition listed (id name : string) (enabled : bool) : ListedSource.t :=
  {| ListedSource.id := Some id; ListedSource.name := Some name;
     ListedSource.is_enabled := Some enabled |}.

Definition player_consts : PlayerConsts :=
  {| FALLBACK_SOURCES := [listed "lineIn" "Line-In" true; listed "spdif" "Optical" true];
     HIDDEN_SOURCE_IDS := ["airPlay"; "beolink"];
     MOZART_API_VERSION := "3.2.1.150.0";
     SOURCE_ENUM_deezer := "Deezer" |}.

(** AirPlay is hidden and Deezer is switched off. *)
Definition available : list ListedSource.t :=
  [ listed "spotify" "Spotify Connect" true; listed "airPlay" "AirPlay" true;
    listed "deezer" "Deezer" false; listed "lineIn" "Line-In" true ].

Definition menu_item (label : string) (categories : list string) (available : bool)
  : RemoteMenuItem.t :=
  {| RemoteMenuItem.available := Some available;
     RemoteMenuItem.content := Some {| ContentItem.categories := Some categories |};
     RemoteMenuItem.label := Some label |}.

Definition menu : dict RemoteMenuItem.t :=
  [ ("HdmiArc1", menu_item "HDMI A" ["video"] true);
    ("NetRadio1", menu_item "Radio" ["music"] true);
    ("Tv1", menu_item "TV" ["video"] true);
    ("Hdmi2", menu_item "HDMI B" ["video"] false) ].

Definition player_responses : PlayerResponses :=
  {| available_sources := Ok available; remote_menu := menu |}.

(** The device runs software the vendor's package does not know. *)
Definition outdated_responses : PlayerResponses :=
  {| available_sources := Raise ValueError; remote_menu := menu |}.

Definition platform : Platform :=
  {| is_running := true;
     utcnow := 1700000000;
     is_media_source_id := String.prefix "media-source://";
     resolved_media_url := fun media_id =>
       Ok "http://192.168.0.1:8123/media/doorbell.mp3" |}.

(** Request models whose message holds up to 2048 characters; the
    validation error of a model is a [ValueError]. *)
Definition models : Models :=
  {| Uri_error := fun _ => None;
     TextToSpeech_error := fun text_to_speech =>
       if (2048 <? String.length (TextToSpeech.text text_to_speech))%nat
       then Some ValueError else None;
     OverlayPlayRequest_error := fun _ => None |}.

(** A message of 2049 characters. *)
Definition long_message : string :=
  string_of_list_ascii (repeat "a"%char 2049).

(** A player that remembers a video source from an earlier remote menu. *)
Definition player (b : MediaPlayer.Entity) : Player.Entity :=
  {| Player.base := b;
     Player._video_sources := [("Hdmi2", "HDMI B")];
     Player._software_version := "3.5.0";
     Player._playback_progress := {| PlaybackProgress.progress := Some 12 |};
     Player._last_update := 0 |}.

End Examples.

(** * Properties *)

Module PyFacts.

(** ** Floats: rounding never invents a NaN, and the order is total *)

Lemma shr_1_nonneg mrs : 0 <= shr_m mrs -> 0 <= shr_m (shr_1 mrs).
Proof.
  destruct mrs as [m r s]; simpl.
  destruct m as [|[p|p|]|[p|p|]]; simpl; lia.
Qed.

Lemma iter_pos_preserves {A} (P : A -> Prop) (f : A -> A) :
  (forall x, P x -> P (f x)) ->
  forall n x, P x -> P (SpecFloat.iter_pos f n x).
Proof.
  intros Hf n. induction n as [n IH|n IH|]; intros x Hx; simpl; auto.
Qed.

Lemma shr_nonneg mrs e n : 0 <= shr_m mrs -> 0 <= shr_m (shr mrs e n).1.
Proof.
  intros H. destruct n as [|p|p]; simpl; auto.
  apply (iter_pos_preserves (fun mrs => 0 <= shr_m mrs)); auto using shr_1_nonneg.
Qed.

Lemma shr_fexp_nonneg m e l : 0 <= m -> 0 <= shr_m (shr_fexp prec emax m e l).1.
Proof.
  intros H. unfold shr_fexp. apply shr_nonneg.
  destruct l as [|[]]; simpl; exact H.
Qed.

Lemma round_nearest_even_nonneg m l : 0 <= m -> 0 <= round_nearest_even m l.
Proof.
  intros H. destruct l as [|[]]; simpl; try lia.
  destruct (Z.even m); lia.
Qed.

Lemma binary_round_aux_not_nan s m e l :
  0 <= m -> is_nan (binary_round_aux prec emax s m e l) = false.
Proof.
  intros H. unfold binary_round_aux.
  pose proof (shr_fexp_nonneg m e l H) as H1.
  destruct (shr_fexp prec emax m e l) as [mrs' e']. simpl in H1.
  pose proof (shr_fexp_nonneg _ e' loc_Exact
                (round_nearest_even_nonneg _ (loc_of_shr_record mrs') H1)) as H2.
  destruct (shr_fexp prec emax _ e' loc_Exact) as [mrs'' e'']. simpl in H2.
  destruct (shr_m mrs'') as [|p|p]; try reflexivity; [|lia].
  destruct (e'' <=? emax - prec); reflexivity.
Qed.

Lemma div_core_nonneg m1 e1 m2 e2 :
  0 <= m1 -> 0 < m2 -> 0 <= (SFdiv_core_binary prec emax m1 e1 m2 e2).1.1.
Proof.
  intros H1 H2. unfold SFdiv_core_binary.
  set (s := _ - _ - _).
  set (m' := match s with Z0 => m1 | Zpos _ => Z.shiftl m1 s | Zneg _ => 0 end).
  assert (0 <= m') as Hm'.
  { subst m'. destruct s; try lia. apply Z.shiftl_nonneg. exact H1. }
  pose proof (Z.div_pos m' m2 Hm' H2) as Hq. unfold Z.div in Hq.
  destruct (Z.div_eucl m' m2) as [q r]. exact Hq.
Qed.

(** An integer quotient that does not overflow is a number. *)
Lemma int_truediv_real a b x : int_truediv a b = Ok x -> is_real x = true.
Proof.
  unfold int_truediv. intros H.
  destruct (decide (b = 0)) as [->|Hb]; [discriminate|].
  destruct (decide (a = 0)) as [->|Ha].
  { destruct b; try done; injection H as <-; reflexivity. }
  assert (0 <= (SFdiv_core_binary prec emax (Z.abs a) 0 (Z.abs b) 0).1.1) as Hq
    by (apply div_core_nonneg; lia).
  destruct (SFdiv_core_binary _ _ _ _ _ _) as [[q e] l]. simpl in Hq.
  pose proof (binary_round_aux_not_nan (xorb (a <? 0) (b <? 0)) q e l Hq) as Hnan.
  destruct b; try done; destruct a; try done;
    destruct (binary_round_aux _ _ _ _ _ _); try done; injection H as <-; done.
Qed.

Lemma binary_normalize_not_nan m e sz :
  is_nan (binary_normalize prec emax m e sz) = false.
Proof.
  destruct m as [|p|p]; simpl; try reflexivity;
    unfold binary_round; destruct (shl_align _ _ _) as [mz ez];
    apply binary_round_aux_not_nan; lia.
Qed.

(** Adding anything but a NaN to a number does not give a NaN. *)
Lemma fadd_not_nan x v :
  is_real x = true -> is_nan v = false -> is_nan (fadd x v) = false.
Proof.
  destruct x as [sx| | |sx mx ex]; try done; intros _;
    destruct v as [sv|sv| |sv mv ev]; try done; intros _.
  - destruct sx, sv; reflexivity.
  - unfold fadd, SFadd. apply binary_normalize_not_nan.
Qed.

Lemma SFcompare_total x y :
  is_nan x = false -> is_nan y = false -> is_Some (SFcompare x y).
Proof. destruct x, y; try done; intros _ _; simpl; eauto. Qed.

Lemma SFcompare_antisym x y cmp :
  SFcompare x y = Some cmp -> SFcompare y x = Some (CompOpp cmp).
Proof.
  destruct x as [sx|sx| |sx mx ex], y as [sy|sy| |sy my ey]; simpl; try done;
    intros [= <-]; f_equal.
  all: try (destruct sx; reflexivity); try (destruct sy; reflexivity).
  - destruct sx, sy; reflexivity.
  - destruct sx, sy; try reflexivity;
      rewrite (Z.compare_antisym ex ey); destruct (ex ?= ey); simpl; try reflexivity;
      rewrite (Pos.compare_cont_antisym); simpl; try reflexivity.
    rewrite CompOpp_involutive. reflexivity.
Qed.

(** [not (x <= y)] gives [y <= x] unless a NaN is involved. *)
Lemma fle_total x y :
  is_nan x = false -> is_nan y = false -> fle x y = false -> fle y x = true.
Proof.
  intros Hx Hy. unfold fle, SFleb.
  destruct (SFcompare_total x y Hx Hy) as [cmp Hc].
  rewrite Hc, (SFcompare_antisym _ _ _ Hc). destruct cmp; done.
Qed.

(** Nothing is at least 1 and at most 0. *)
Lemma fle_one_zero x :
  fle (float_of_int 1) x = true -> fle x (float_of_int 0) = false.
Proof.
  destruct x as [[]|[]| |[] m e]; intros H; vm_compute in H; try discriminate;
    reflexivity.
Qed.

(** A NaN added to anything is a NaN, and so is its product. *)
Lemma fadd_nan x v : is_nan v = true -> fadd x v = S754_nan.
Proof. destruct v; try done. intros _. by destruct x. Qed.

Lemma fmul_nan x v : is_nan x = true -> fmul x v = S754_nan.
Proof. destruct x; try done. Qed.

Lemma str_in_elem_of x l : str_in x l = true <-> x ∈ l.
Proof.
  unfold str_in. rewrite existsb_exists. split.
  - intros (y & Hy & Heq). apply String.eqb_eq in Heq as ->.
    by apply list_elem_of_In.
  - intros H. exists x. split; [by apply list_elem_of_In|apply String.eqb_refl].
Qed.

Lemma str_in_not_elem_of x l : str_in x l = false <-> x ∉ l.
Proof.
  rewrite <- str_in_elem_of. destruct (str_in x l); split; try done.
Qed.

(** ** Dicts *)

Lemma opt_eqb_eq a b : opt_eqb a b = true <-> a = b.
Proof.
  destruct a, b; simpl; try (split; done).
  rewrite String.eqb_eq. split; congruence.
Qed.

Lemma dict_get_elem_of {V} (d : dict V) k v :
  NoDup (dict_keys d) -> (k, v) ∈ d -> dict_get d k = Some v.
Proof.
  induction d as [|[k' v'] d IH]; simpl; intros Hnd Hin.
  - by apply elem_of_nil in Hin.
  - apply NoDup_cons in Hnd as [Hk' Hnd].
    apply elem_of_cons in Hin as [[= -> ->]|Hin].
    + by rewrite String.eqb_refl.
    + destruct (String.eqb_spec k' k) as [->|_]; [|by apply IH].
      exfalso. apply Hk'. apply list_elem_of_fmap. by exists (k, v).
Qed.

Lemma dict_get_None {V} (d : dict V) k : dict_get d k = None <-> k ∉ dict_keys d.
Proof.
  induction d as [|[k' v'] d IH]; simpl.
  - split; [intros _; apply not_elem_of_nil|done].
  - rewrite not_elem_of_cons. destruct (String.eqb_spec k' k) as [->|Hne].
    + split; [done|]. by intros [? _].
    + rewrite IH. split; [by split|by intros [_ ?]].
Qed.

Lemma dict_get_app {V} (d1 d2 : dict V) k :
  dict_get (d1 ++ d2) k
  = match dict_get d1 k with Some v => Some v | None => dict_get d2 k end.
Proof.
  induction d1 as [|[k' v'] d1 IH]; simpl; [done|].
  by destruct (String.eqb k' k).
Qed.

(** A new key goes to the end. *)
Lemma dict_set_absent {V} (d : dict V) k v :
  dict_get d k = None -> dict_set d k v = d ++ [(k, v)].
Proof.
  induction d as [|[k' v'] d IH]; simpl; [done|].
  destruct (String.eqb k' k); [done|]. intros H. by rewrite IH.
Qed.

Lemma dict_contains_get {V} (d : dict V) k :
  dict_contains d k = true <-> is_Some (dict_get d k).
Proof.
  unfold dict_contains. destruct (dict_get d k); split; done.
Qed.

(** ** Running method bodies *)

Lemma run_bind {S A B} (m : prog S A) (k : A -> prog S B) (s : S) :
  (m ≫= k) s
  = match m s with
    | (Ok a, s', t) => let '(r, s'', t') := k a s' in (r, s'', t ++ t')
    | (Raise e, s', t) => (Raise e, s', t)
    end.
Proof. reflexivity. Qed.

Lemma run_tail {S A} (r : outcome A * S * list event) :
  (let '(o, s, t) := r in (o, s, [] ++ t)) = r.
Proof. by destruct r as [[o s] t]. Qed.

(** A loop whose body only leaves a trace. *)
Lemma for_each_trace {S A} (l : list A) (body : A -> prog S unit)
    (f : A -> list event) (s : S) :
  (forall x s', body x s' = (Ok tt, s', f x)) ->
  for_each l body s = (Ok tt, s, flat_map f l).
Proof.
  intros Hbody. induction l as [|x l IH]; [done|].
  simpl. by rewrite run_bind, Hbody, IH.
Qed.

Lemma for_each_emit {S A} (l : list A) (f : A -> event) (s : S) :
  for_each l (fun x s' => (Ok tt, s', [f x])) s = (Ok tt, s, f <$> l).
Proof.
  induction l as [|x l IH]; [done|]. simpl.
  unfold mbind, prog_bind. by rewrite IH.
Qed.

End PyFacts.

(** ** The media player *)

Module MediaPlayerFacts.
Import PyFacts MediaPlayer.

(** *** Volume *)

(** The guard of the volume operations lets a level through exactly when
    it is stored and not zero. *)
Lemma truthy_level_Some e l :
  truthy_level (_volume e) = Some l <-> stored_level e = Some l /\ l <> 0.
Proof.
  unfold truthy_level, stored_level.
  destruct (VolumeState.level (_volume e)) as [[[l'|]]|]; simpl;
    try (split; [done|intros [? ?]; done]).
  destruct (Z.eqb_spec l' 0); split; try done.
  - intros [[= ->] ?]. done.
  - intros [= ->]. done.
  - intros [[= ->] ?]. done.
Qed.

Lemma truthy_level_None e :
  truthy_level (_volume e) = None <-> stored_level e = None \/ stored_level e = Some 0.
Proof.
  unfold truthy_level, stored_level.
  destruct (VolumeState.level (_volume e)) as [[[l'|]]|]; simpl; try (split; auto; done).
  destruct (Z.eqb_spec l' 0) as [->|]; split; auto; try done.
  intros [|[= ?]]; done.
Qed.

(** C4, as the code has it.  Volume step up, with a stored level that is
    not zero: one request is sent, for the level plus the step capped at
    the configured maximum.  The level sent never exceeds the maximum.
    With a step that is not negative it is not below the previous level
    unless that level had reached or passed the maximum; then the level
    sent is the maximum itself, which is below a previous level that had
    passed it. *)
Theorem volume_up_within_maximum (e : Entity) (level : Z) :
  stored_level e = Some level -> level <> 0 ->
  exists sent,
    async_volume_up e = (Ok tt, e, [Request (set_current_volume_level sent)]) /\
    sent = Z.min (level + _volume_step e) (_max_volume e) /\
    sent <= _max_volume e /\
    (0 <= _volume_step e -> level <= sent \/ _max_volume e <= level) /\
    (0 <= _volume_step e -> _max_volume e <= level -> sent = _max_volume e) /\
    (0 <= _volume_step e -> _max_volume e < level -> sent < level).
Proof.
  intros Hl Hnz. assert (truthy_level (_volume e) = Some level) as Ht
    by by apply truthy_level_Some.
  eexists. unfold async_volume_up. run. rewrite Ht. simpl.
  repeat split; lia.
Qed.

Lemma volume_up_within_maximum_witness :
  exists sent,
    async_volume_up (Sample.living_room (Some 68))
    = (Ok tt, Sample.living_room (Some 68), [Request (set_current_volume_level sent)]) /\
    sent = 70 /\ sent <= 70 /\ (0 <= 5 -> 68 <= sent \/ 70 <= 68) /\
    (0 <= 5 -> 70 <= 68 -> sent = 70) /\ (0 <= 5 -> 70 < 68 -> sent < 68).
Proof.
  apply (volume_up_within_maximum (Sample.living_room (Some 68)) 68);
    [reflexivity | lia].
Defined.

(** C4, as stated, fails.  A speaker whose stored level, 90, is above the
    configured maximum, 70, is not at the maximum; a step up sends 70,
    which is below the previous level. *)
Lemma volume_up_lowers_level_above_maximum :
  stored_level (Sample.living_room (Some 90)) = Some 90 /\
  _max_volume (Sample.living_room (Some 90)) = 70 /\
  _volume_step (Sample.living_room (Some 90)) = 5 /\
  async_volume_up (Sample.living_room (Some 90))
  = (Ok tt, Sample.living_room (Some 90), [Request (set_current_volume_level 70)]) /\
  70 < 90 /\ 90 <> 70.
Proof. repeat split; try reflexivity; lia. Qed.

(** C5. Volume step down, with a stored level that is not zero: one
    request is sent, for the level minus the step floored at 0, whatever
    the configured maximum.  The level sent is never negative; for a level
    and a step that are not negative it does not exceed the previous level;
    and it exceeds the configured maximum whenever the level minus the step
    does. *)
Theorem volume_down_floor_only (e : Entity) (level : Z) :
  stored_level e = Some level -> level <> 0 ->
  exists sent,
    async_volume_down e = (Ok tt, e, [Request (set_current_volume_level sent)]) /\
    sent = Z.max (level - _volume_step e) 0 /\
    0 <= sent /\
    (0 <= level -> 0 <= _volume_step e -> sent <= level) /\
    (_max_volume e < level - _volume_step e -> _max_volume e < sent).
Proof.
  intros Hl Hnz. assert (truthy_level (_volume e) = Some level) as Ht
    by by apply truthy_level_Some.
  eexists. unfold async_volume_down. run. rewrite Ht. simpl.
  repeat split; lia.
Qed.

Lemma volume_down_floor_only_witness :
  exists sent,
    async_volume_down (Sample.living_room (Some 90))
    = (Ok tt, Sample.living_room (Some 90), [Request (set_current_volume_level sent)]) /\
    sent = 85 /\ 0 <= sent /\
    (0 <= 90 -> 0 <= 5 -> sent <= 90) /\ (70 < 90 - 5 -> 70 < sent).
Proof.
  apply (volume_down_floor_only (Sample.living_room (Some 90)) 90);
    [reflexivity | lia].
Defined.

(** C10. With no stored level, or a stored level of 0, step up, step down
    and the relative volume change each log one warning, send nothing to
    the client and leave the entity as it was. *)
Theorem volume_operations_need_nonzero_level (e : Entity) :
  stored_level e = None \/ stored_level e = Some 0 ->
  async_volume_up e = (Ok tt, e, [volume_warning]) /\
  async_volume_down e = (Ok tt, e, [volume_warning]) /\
  forall volume, async_set_relative_volume_level volume e = (Ok tt, e, [volume_warning]).
Proof.
  intros H%truthy_level_None.
  unfold async_volume_up, async_volume_down, async_set_relative_volume_level, volume_level.
  run. rewrite H. done.
Qed.

Lemma volume_operations_need_nonzero_level_witness :
  async_volume_up (Sample.living_room (Some 0))
  = (Ok tt, Sample.living_room (Some 0), [volume_warning]) /\
  async_volume_down (Sample.living_room (Some 0))
  = (Ok tt, Sample.living_room (Some 0), [volume_warning]) /\
  forall volume, async_set_relative_volume_level volume (Sample.living_room (Some 0))
                 = (Ok tt, Sample.living_room (Some 0), [volume_warning]).
Proof.
  apply (volume_operations_need_nonzero_level (Sample.living_room (Some 0))).
  right. reflexivity.
Defined.

(** The volume level property, when it has a value, is a number. *)
Lemma volume_level_real e level :
  volume_level e = Ok (Some level) -> is_real level = true.
Proof.
  unfold volume_level. destruct (truthy_level (_volume e)) as [l|]; [|done].
  destruct (int_truediv l 100) as [x|] eqn:Hdiv; [|done].
  intros [= <-]. by eapply int_truediv_real.
Qed.

(** A stored level from 1 to 100 gives the property a truthy value. *)
Lemma volume_level_percent e l :
  stored_level e = Some l -> 1 <= l <= 100 ->
  exists level, volume_level e = Ok (Some level) /\ ftruthy level = true.
Proof.
  intros Hl Hrange.
  assert (truthy_level (_volume e) = Some l) as Ht
    by (apply truthy_level_Some; split; [done|lia]).
  assert (forallb (fun n => match int_truediv (Z.of_nat n) 100 with
                            | Ok x => ftruthy x
                            | Raise _ => false
                            end) (seq 1 100) = true) as Hall
    by (vm_compute; reflexivity).
  rewrite forallb_forall in Hall. specialize (Hall (Z.to_nat l)).
  rewrite Z2Nat.id in Hall by lia.
  unfold volume_level. rewrite Ht.
  destruct (int_truediv l 100) as [x|].
  - exists x. split; [done|]. apply Hall, in_seq. lia.
  - exfalso. assert (false = true) by (apply Hall, in_seq; lia). done.
Qed.

(** What the relative change hands to [async_set_volume_level]. *)
Lemma relative_volume_run (e : Entity) (level volume : float) :
  volume_level e = Ok (Some level) ->
  ftruthy level = true ->
  async_set_relative_volume_level volume e
  = async_set_volume_level
      (if fle (float_of_int 1) (fadd level volume) then float_of_int 1
       else if fle (fadd level volume) (float_of_int 0) then S754_zero false
       else fadd level volume) e.
Proof.
  intros Hlevel Htruthy. unfold async_set_relative_volume_level. run.
  rewrite Hlevel, Htruthy. simpl negb. cbv iota. rewrite !run_tail. reflexivity.
Qed.

(** The three cases of the relative change: a sum of at least 1.0 sends
    the level 100, a sum of at most 0 sends the level 0, and any other
    sum is handed on itself. *)
Lemma relative_volume_cases (e : Entity) (level volume : float) :
  volume_level e = Ok (Some level) ->
  ftruthy level = true ->
  (fle (float_of_int 1) (fadd level volume) = true ->
   async_set_relative_volume_level volume e
   = (Ok tt, e, [Request (set_current_volume_level 100)])) /\
  (fle (fadd level volume) (float_of_int 0) = true ->
   async_set_relative_volume_level volume e
   = (Ok tt, e, [Request (set_current_volume_level 0)])) /\
  (fle (float_of_int 1) (fadd level volume) = false ->
   fle (fadd level volume) (float_of_int 0) = false ->
   async_set_relative_volume_level volume e = async_set_volume_level (fadd level volume) e).
Proof.
  intros Hlevel Htruthy. rewrite (relative_volume_run e level volume Hlevel Htruthy).
  split; [|split].
  - intros ->. reflexivity.
  - intros Hlow. destruct (fle (float_of_int 1) (fadd level volume)) eqn:Hhigh.
    + apply fle_one_zero in Hhigh. congruence.
    + rewrite Hlow. reflexivity.
  - intros -> ->. reflexivity.
Qed.

(** C6. [async_set_relative_volume_level], when the volume level property
    has a truthy value [level], passes on the sum [level + volume] clamped
    into [0.0, 1.0], for every offset that is not a NaN (infinite offsets
    included): the level [new_volume] passed on has
    [0.0 <= new_volume <= 1.0]; it is 1.0, and the client is sent the
    level 100, when the sum is at least 1.0; it is 0.0, and the client is
    sent the level 0, when the sum is at most 0; and it is the sum itself
    when the sum lies strictly between the two. *)
Theorem relative_volume_clamped (e : Entity) (level volume : float) :
  volume_level e = Ok (Some level) ->
  ftruthy level = true ->
  is_nan volume = false ->
  let sum := fadd level volume in
  exists new_volume,
    async_set_relative_volume_level volume e = async_set_volume_level new_volume e /\
    fle (float_of_int 0) new_volume = true /\
    fle new_volume (float_of_int 1) = true /\
    (fle (float_of_int 1) sum = true ->
     new_volume = float_of_int 1 /\
     async_set_relative_volume_level volume e
     = (Ok tt, e, [Request (set_current_volume_level 100)])) /\
    (fle sum (float_of_int 0) = true ->
     new_volume = float_of_int 0 /\
     async_set_relative_volume_level volume e
     = (Ok tt, e, [Request (set_current_volume_level 0)])) /\
    (fle (float_of_int 1) sum = false -> fle sum (float_of_int 0) = false ->
     new_volume = sum).
Proof.
  intros Hlevel Htruthy Hvolume sum.
  pose proof (fadd_not_nan level volume (volume_level_real _ _ Hlevel) Hvolume) as Hsum.
  destruct (relative_volume_cases e level volume Hlevel Htruthy)
    as (Hhigh & Hlow & Hbetween).
  fold sum in Hsum, Hhigh, Hlow, Hbetween.
  destruct (fle (float_of_int 1) sum) eqn:H1.
  - exists (float_of_int 1). rewrite (Hhigh eq_refl).
    pose proof (fle_one_zero sum H1) as H0. rewrite H0.
    split; [reflexivity|]. split; [reflexivity|]. split; [reflexivity|].
    split; [done|]. split; done.
  - destruct (fle sum (float_of_int 0)) eqn:H0.
    + exists (float_of_int 0). rewrite (Hlow eq_refl).
      split; [reflexivity|]. split; [reflexivity|]. split; [reflexivity|].
      split; [done|]. split; done.
    + exists sum. split; [by apply Hbetween|].
      split; [by apply fle_total|]. split; [by apply fle_total|].
      split; [done|]. split; done.
Qed.

Lemma relative_volume_clamped_witness :
  exists new_volume,
    async_set_relative_volume_level Sample.half (Sample.living_room (Some 68))
    = async_set_volume_level new_volume (Sample.living_room (Some 68)) /\
    new_volume = float_of_int 1 /\
    async_set_relative_volume_level Sample.half (Sample.living_room (Some 68))
    = (Ok tt, Sample.living_room (Some 68), [Request (set_current_volume_level 100)]).
Proof.
  destruct (relative_volume_clamped (Sample.living_room (Some 68)) Sample.level_68
              Sample.half eq_refl eq_refl eq_refl)
    as (new_volume & Hrun & _ & _ & Hhigh & _).
  exists new_volume. split; [exact Hrun|]. exact (Hhigh eq_refl).
Defined.

(** *** Source selection *)

(** C8. Selecting a source, on a catalog that is a dict (no key twice).
    A label that is not in the catalog: one error is logged, nothing is
    sent to the client, no exception is raised and the entity is as it
    was.  A label that is in the catalog: exactly one request is sent, with
    a key the catalog maps to the label; it is [set_active_source] when the
    label is among the audio sources and [post_remote_trigger] otherwise. *)
Theorem select_source_dispatch (e : Entity) (source : string) :
  NoDup (dict_keys (_sources e)) ->
  (source ∉ dict_values (_sources e) ->
   async_select_source source e
   = (Ok tt, e, [Log LOG_ERROR "Invalid source: %s. Valid sources are: %s"
                   [LStr source; LList (dict_values (_sources e))]])) /\
  (source ∈ dict_values (_sources e) ->
   exists key,
     dict_get (_sources e) key = Some source /\
     async_select_source source e
     = (Ok tt, e,
        [Request (if bool_decide (source ∈ dict_values (_audio_sources e))
                  then set_active_source key
                  else post_remote_trigger key)])).
Proof.
  intros Hnd. unfold async_select_source. run. split.
  - intros Hout%str_in_not_elem_of. rewrite Hout. reflexivity.
  - intros Hin. pose proof Hin as Hin'%str_in_elem_of. rewrite Hin'. simpl.
    apply list_elem_of_fmap in Hin as [[k v] [-> Hkv]].
    pose proof (dict_get_elem_of _ _ _ Hnd Hkv) as Hget. simpl in *.
    set (found := List.filter _ _).
    assert (k ∈ found) as Hk.
    { apply list_elem_of_In, filter_In. split.
      - apply list_elem_of_In, list_elem_of_fmap. by exists (k, v).
      - by apply opt_eqb_eq. }
    destruct found as [|key found'] eqn:Hfound; [by apply elem_of_nil in Hk|].
    assert (key ∈ List.filter (fun x => opt_eqb (dict_get (_sources e) x) (Some v))
                     (dict_keys (_sources e))) as Hkey.
    { fold found. rewrite Hfound. apply list_elem_of_here. }
    apply list_elem_of_In, filter_In in Hkey as [_ Hkey%opt_eqb_eq].
    exists key. split; [done|]. unfold index. simpl.
    case_bool_decide as Haudio.
    + apply str_in_elem_of in Haudio. by rewrite Haudio.
    + apply str_in_not_elem_of in Haudio. by rewrite Haudio.
Qed.

Lemma select_source_dispatch_witness :
  async_select_source "HDMI B" (Sample.living_room None)
  = (Ok tt, Sample.living_room None,
     [Log LOG_ERROR "Invalid source: %s. Valid sources are: %s"
        [LStr "HDMI B"; LList ["Spotify Connect"; "Line-In"; "HDMI A"]]]) /\
  exists key,
    dict_get (_sources (Sample.living_room None)) key = Some "HDMI A" /\
    async_select_source "HDMI A" (Sample.living_room None)
    = (Ok tt, Sample.living_room None,
       [Request (if bool_decide
                      ("HDMI A" ∈ dict_values (_audio_sources (Sample.living_room None)))
                 then set_active_source key
                 else post_remote_trigger key)]).
Proof.
  assert (NoDup (dict_keys (_sources (Sample.living_room None)))) as Hnd
    by (apply (bool_decide_unpack _); vm_compute; exact I).
  split.
  - apply (proj1 (select_source_dispatch (Sample.living_room None) "HDMI B" Hnd)).
    apply (bool_decide_unpack _); vm_compute; exact I.
  - apply (proj2 (select_source_dispatch (Sample.living_room None) "HDMI A" Hnd)).
    apply (bool_decide_unpack _); vm_compute; exact I.
Defined.

(** *** Beolink volume relay *)

Lemma set_volume_level_ok volume n e :
  int_of_float (fmul volume (float_of_int 100)) = Ok n ->
  async_set_volume_level volume e = (Ok tt, e, [Request (set_current_volume_level n)]).
Proof. intros H. unfold async_set_volume_level. run. by rewrite H. Qed.

Lemma set_volume_level_raises volume err e :
  int_of_float (fmul volume (float_of_int 100)) = Raise err ->
  async_set_volume_level volume e = (Raise err, e, []).
Proof. intros H. unfold async_set_volume_level. run. by rewrite H. Qed.

(** The relative command of a device without a leader: the relative
    change, then the fan-out if the change did not raise. *)
Lemma relative_relay_run c py e volume_level volume :
  _remote_leader e = None -> float_of_str py volume_level = Some volume ->
  async_beolink_set_relative_volume c py volume_level e
  = match async_set_relative_volume_level volume e with
    | (Ok _, e', t) =>
        (Ok tt, e', t ++ listener_sends c "set_relative_volume_level" volume_level
                          (_beolink_listeners e'))
    | (Raise err, e', t) => (Raise err, e', t)
    end.
Proof.
  intros Hleader Hparse. unfold async_beolink_set_relative_volume. run.
  rewrite Hleader, Hparse. cbv iota.
  destruct (async_set_relative_volume_level volume e) as [[[[]|err] e'] t]; [|by destruct t].
  rewrite for_each_emit. reflexivity.
Qed.

(** C3, as the code has it.  A device with a remote leader sends the
    command to the leader's topic and does nothing else.  A device without
    one raises [ValueError], before anything is sent, on a text that does
    not parse as a float.  On a text that parses to [volume]:

    - set-volume sends the client the level [int(volume * 100)] and then
      sends the command to the listener-command topic of every known
      listener; when [int(volume * 100)] raises, as it does for a NaN, the
      command raises with nothing sent;
    - the relative command logs a warning and sends the client nothing
      when no nonzero level is stored or the volume level property is
      falsy, and still sends the command to every known listener; it
      raises with nothing sent when the volume level property raises;
    - with a truthy volume level [level], the relative command raises
      [ValueError] with nothing sent when [volume] is a NaN; it sends the
      client 100 when [level + volume >= 1.0], 0 when
      [level + volume <= 0], and otherwise, the sum lying between 0.0 and
      1.0, the level [int((level + volume) * 100)]; after each of the
      three it sends the command to every known listener. *)
Theorem beolink_volume_relay (c : Consts) (py : Builtins) (e : Entity)
    (volume_level : string) :
  let set_volume := async_beolink_set_volume c py volume_level e in
  let set_relative := async_beolink_set_relative_volume c py volume_level e in
  let fan_out command := listener_sends c command volume_level (_beolink_listeners e) in
  (forall leader, _remote_leader e = Some leader ->
     set_volume
     = (Ok tt, e, [DispatcherSend (BeolinkLeader.jid leader +:+ "_" +:+ BEOLINK_VOLUME c)
                     [volume_level]]) /\
     set_relative
     = (Ok tt, e, [DispatcherSend
                     (BeolinkLeader.jid leader +:+ "_" +:+ BEOLINK_RELATIVE_VOLUME c)
                     [volume_level]])) /\
  (_remote_leader e = None -> float_of_str py volume_level = None ->
     set_volume = (Raise ValueError, e, []) /\
     set_relative = (Raise ValueError, e, [])) /\
  (forall volume, _remote_leader e = None -> float_of_str py volume_level = Some volume ->
     (forall n, int_of_float (fmul volume (float_of_int 100)) = Ok n ->
        set_volume
        = (Ok tt, e, Request (set_current_volume_level n) :: fan_out "set_volume_level")) /\
     (forall err, int_of_float (fmul volume (float_of_int 100)) = Raise err ->
        set_volume = (Raise err, e, [])) /\
     (is_nan volume = true -> set_volume = (Raise ValueError, e, [])) /\
     (stored_level e = None \/ stored_level e = Some 0 ->
        set_relative
        = (Ok tt, e, volume_warning :: fan_out "set_relative_volume_level")) /\
     (forall level, MediaPlayer.volume_level e = Ok (Some level) -> ftruthy level = false ->
        set_relative
        = (Ok tt, e, volume_warning :: fan_out "set_relative_volume_level")) /\
     (forall err, MediaPlayer.volume_level e = Raise err ->
        set_relative = (Raise err, e, [])) /\
     (forall level, MediaPlayer.volume_level e = Ok (Some level) -> ftruthy level = true ->
        let sum := fadd level volume in
        (is_nan volume = true -> set_relative = (Raise ValueError, e, [])) /\
        (fle (float_of_int 1) sum = true ->
           set_relative
           = (Ok tt, e, Request (set_current_volume_level 100)
                          :: fan_out "set_relative_volume_level")) /\
        (fle sum (float_of_int 0) = true ->
           set_relative
           = (Ok tt, e, Request (set_current_volume_level 0)
                          :: fan_out "set_relative_volume_level")) /\
        (is_nan volume = false ->
         fle (float_of_int 1) sum = false -> fle sum (float_of_int 0) = false ->
           fle (float_of_int 0) sum = true /\ fle sum (float_of_int 1) = true /\
           (forall n, int_of_float (fmul sum (float_of_int 100)) = Ok n ->
              set_relative
              = (Ok tt, e, Request (set_current_volume_level n)
                             :: fan_out "set_relative_volume_level")) /\
           (forall err, int_of_float (fmul sum (float_of_int 100)) = Raise err ->
              set_relative = (Raise err, e, []))))).
Proof.
  intros set_volume set_relative fan_out. subst set_volume set_relative fan_out.
  split; [|split].
  - intros leader Hleader.
    unfold async_beolink_set_volume, async_beolink_set_relative_volume. run.
    by rewrite Hleader.
  - intros Hleader Hparse.
    unfold async_beolink_set_volume, async_beolink_set_relative_volume. run.
    by rewrite Hleader, Hparse.
  - intros volume Hleader Hparse.
    assert (forall err, int_of_float (fmul volume (float_of_int 100)) = Raise err ->
              async_beolink_set_volume c py volume_level e = (Raise err, e, [])) as Hraise.
    { intros err Herr. unfold async_beolink_set_volume. run.
      rewrite Hleader, Hparse. cbv iota.
      by rewrite (set_volume_level_raises _ _ _ Herr). }
    rewrite (relative_relay_run c py e volume_level volume Hleader Hparse).
    split; [|split; [|split; [|split; [|split; [|split]]]]].
    + intros n Hn. unfold async_beolink_set_volume. run.
      rewrite Hleader, Hparse. cbv iota.
      rewrite (set_volume_level_ok _ _ _ Hn), for_each_emit. done.
    + exact Hraise.
    + intros Hnan. apply Hraise. by rewrite (fmul_nan _ _ Hnan).
    + intros Hlevel%truthy_level_None.
      unfold async_set_relative_volume_level, MediaPlayer.volume_level. run.
      rewrite Hlevel. reflexivity.
    + intros level Hlevel Hfalsy. unfold async_set_relative_volume_level. run.
      rewrite Hlevel, Hfalsy. reflexivity.
    + intros err Herr. unfold async_set_relative_volume_level. run.
      rewrite Herr. reflexivity.
    + intros level Hlevel Htruthy sum.
      destruct (relative_volume_cases e level volume Hlevel Htruthy)
        as (Hhigh & Hlow & Hbetween).
      fold sum in Hhigh, Hlow, Hbetween.
      split; [|split; [|split]].
      * intros Hnan.
        rewrite (relative_volume_run e level volume Hlevel Htruthy).
        rewrite (fadd_nan level volume Hnan). reflexivity.
      * intros H1. rewrite (Hhigh H1). reflexivity.
      * intros H0. rewrite (Hlow H0). reflexivity.
      * intros Hnan H1 H0.
        pose proof (fadd_not_nan level volume (volume_level_real _ _ Hlevel) Hnan) as Hsum.
        fold sum in Hsum.
        split; [by apply fle_total|]. split; [by apply fle_total|].
        rewrite (Hbetween H1 H0). split.
        -- intros n Hn. rewrite (set_volume_level_ok _ _ _ Hn). reflexivity.
        -- intros err Herr. rewrite (set_volume_level_raises _ _ _ Herr). reflexivity.
Qed.

Lemma beolink_volume_relay_witness :
  (async_beolink_set_volume Sample.consts Sample.builtins "0.5" (Sample.listening (Some 30))
   = (Ok tt, Sample.listening (Some 30),
      [DispatcherSend (Sample.jid_kitchen +:+ "_" +:+ "BEOLINK_VOLUME") ["0.5"]]) /\
   async_beolink_set_relative_volume Sample.consts Sample.builtins "0.5"
     (Sample.listening (Some 30))
   = (Ok tt, Sample.listening (Some 30),
      [DispatcherSend (Sample.jid_kitchen +:+ "_" +:+ "BEOLINK_RELATIVE_VOLUME") ["0.5"]])) /\
  (async_beolink_set_volume Sample.consts Sample.builtins "loud" (Sample.leading (Some 30))
   = (Raise ValueError, Sample.leading (Some 30), []) /\
   async_beolink_set_relative_volume Sample.consts Sample.builtins "loud"
     (Sample.leading (Some 30))
   = (Raise ValueError, Sample.leading (Some 30), [])) /\
  async_beolink_set_volume Sample.consts Sample.builtins "0.5" (Sample.leading (Some 68))
  = (Ok tt, Sample.leading (Some 68),
     Request (set_current_volume_level 50)
       :: listener_sends Sample.consts "set_volume_level" "0.5"
            [{| BeolinkListener.jid := Sample.jid_kitchen |}]) /\
  async_beolink_set_volume Sample.consts Sample.builtins_named "nan" (Sample.leading (Some 68))
  = (Raise ValueError, Sample.leading (Some 68), []) /\
  async_beolink_set_relative_volume Sample.consts Sample.builtins "0.5" (Sample.leading None)
  = (Ok tt, Sample.leading None,
     volume_warning
       :: listener_sends Sample.consts "set_relative_volume_level" "0.5"
            [{| BeolinkListener.jid := Sample.jid_kitchen |}]) /\
  async_beolink_set_relative_volume Sample.consts Sample.builtins_named "nan"
    (Sample.leading (Some 68))
  = (Raise ValueError, Sample.leading (Some 68), []) /\
  async_beolink_set_relative_volume Sample.consts Sample.builtins "0.5"
    (Sample.leading (Some 68))
  = (Ok tt, Sample.leading (Some 68),
     Request (set_current_volume_level 100)
       :: listener_sends Sample.consts "set_relative_volume_level" "0.5"
            [{| BeolinkListener.jid := Sample.jid_kitchen |}]) /\
  async_beolink_set_relative_volume Sample.consts Sample.builtins "-0.75"
    (Sample.leading (Some 68))
  = (Ok tt, Sample.leading (Some 68),
     Request (set_current_volume_level 0)
       :: listener_sends Sample.consts "set_relative_volume_level" "-0.75"
            [{| BeolinkListener.jid := Sample.jid_kitchen |}]) /\
  async_beolink_set_relative_volume Sample.consts Sample.builtins "0.25"
    (Sample.leading (Some 68))
  = (Ok tt, Sample.leading (Some 68),
     Request (set_current_volume_level 93)
       :: listener_sends Sample.consts "set_relative_volume_level" "0.25"
            [{| BeolinkListener.jid := Sample.jid_kitchen |}]).
Proof.
  pose proof (proj1 (beolink_volume_relay Sample.consts Sample.builtins
                       (Sample.listening (Some 30)) "0.5")
                Sample.kitchen_leader eq_refl) as Hlistener.
  pose proof (proj1 (proj2 (beolink_volume_relay Sample.consts Sample.builtins
                              (Sample.leading (Some 30)) "loud"))
                eq_refl eq_refl) as Hloud.
  destruct (proj2 (proj2 (beolink_volume_relay Sample.consts Sample.builtins
                            (Sample.leading (Some 68)) "0.5"))
              Sample.half eq_refl eq_refl) as (Hset & _ & _ & _ & _ & _ & Hhigh).
  destruct (proj2 (proj2 (beolink_volume_relay Sample.consts Sample.builtins_named
                            (Sample.leading (Some 68)) "nan"))
              S754_nan eq_refl eq_refl) as (_ & _ & Hnan & _ & _ & _ & Hnan').
  destruct (proj2 (proj2 (beolink_volume_relay Sample.consts Sample.builtins
                            (Sample.leading None) "0.5"))
              Sample.half eq_refl eq_refl) as (_ & _ & _ & Hwarning & _).
  destruct (proj2 (proj2 (beolink_volume_relay Sample.consts Sample.builtins
                            (Sample.leading (Some 68)) "-0.75"))
              (S754_finite true 6755399441055744 (-53)) eq_refl eq_refl)
    as (_ & _ & _ & _ & _ & _ & Hlow).
  destruct (proj2 (proj2 (beolink_volume_relay Sample.consts Sample.builtins
                            (Sample.leading (Some 68)) "0.25"))
              (S754_finite false 4503599627370496 (-54)) eq_refl eq_refl)
    as (_ & _ & _ & _ & _ & _ & Hbetween).
  split; [exact Hlistener|].
  split; [exact Hloud|].
  split; [exact (Hset 50 eq_refl)|].
  split; [exact (Hnan eq_refl)|].
  split; [exact (Hwarning (or_introl eq_refl))|].
  split; [exact (proj1 (Hnan' Sample.level_68 eq_refl eq_refl) eq_refl)|].
  split; [exact (proj1 (proj2 (Hhigh Sample.level_68 eq_refl eq_refl)) eq_refl)|].
  split; [exact (proj1 (proj2 (proj2 (Hlow Sample.level_68 eq_refl eq_refl))) eq_refl)|].
  destruct (proj2 (proj2 (proj2 (Hbetween Sample.level_68 eq_refl eq_refl)))
              eq_refl eq_refl eq_refl) as (_ & _ & Hsent & _).
  exact (Hsent 93 eq_refl).
Defined.

(** C3, as stated, fails.  A leader with no stored level, asked for a
    relative change, reaches its listener but sends nothing to its own
    client; and a text that is no number raises before anything is sent. *)
Lemma beolink_volume_relay_skips_local_change :
  _remote_leader (Sample.leading None) = None /\
  async_beolink_set_relative_volume Sample.consts Sample.builtins "0.5" (Sample.leading None)
  = (Ok tt, Sample.leading None,
     [volume_warning;
      DispatcherSend (Sample.jid_kitchen +:+ "_BEOLINK_LISTENER_COMMAND")
        ["set_relative_volume_level"; "0.5"]]) /\
  requests (trace (async_beolink_set_relative_volume Sample.consts Sample.builtins "0.5"
                     (Sample.leading None))) = [] /\
  async_beolink_set_volume Sample.consts Sample.builtins "loud" (Sample.leading (Some 30))
  = (Raise ValueError, Sample.leading (Some 30), []).
Proof. repeat split; vm_compute; reflexivity. Qed.

(** *** Group join *)

Lemma beolink_expand_run jids e :
  _beolink_expand jids e
  = (Ok tt, e, flat_map (fun jid => [Request (post_beolink_expand jid); Sleep 1]) jids).
Proof. unfold _beolink_expand. by apply for_each_trace. Qed.

(** A group member resolves without an exception exactly when it is a
    registered entity whose config entry exists. *)
Lemma get_beolink_jid_ok c hass entity_id :
  is_ok (_get_beolink_jid c hass entity_id) = true <->
  exists entry config_entry,
    entities hass !! entity_id = Some entry /\
    config_entry_id entry ≫= (config_entries hass !!.) = Some config_entry.
Proof.
  unfold _get_beolink_jid. destruct (entities hass !! entity_id) as [entry|].
  - destruct (config_entry_id entry ≫= _) as [config_entry|] eqn:Hentry; simpl.
    + split; [by exists entry, config_entry|done].
    + split; [done|]. intros (? & ? & [= <-] & ?). congruence.
  - split; [done|]. by intros (? & ? & ? & ?).
Qed.

Lemma join_players_jids_run c hass group_members jids e :
  Forall (fun m => is_ok (_get_beolink_jid c hass m) = true) group_members ->
  join_players_jids c hass group_members jids e
  = (Ok (jids ++ omap (jid_of c hass) group_members), e,
     join_warnings c hass group_members).
Proof.
  intros Hok. revert jids. induction Hok as [|m ms Hm _ IH]; intros jids.
  - simpl. run. by rewrite app_nil_r.
  - simpl. unfold join_warnings, jid_of in *. simpl. run.
    destruct (_get_beolink_jid c hass m) as [[jid|]|]; [| |done]; cbv iota.
    + rewrite IH. by rewrite <- app_assoc.
    + by rewrite IH.
Qed.

(** C7, as the code has it.  Joining with no group member sends the one
    request to join the latest experience.  Joining with group members
    that are all registered entities with a config entry: each member
    whose entry has no Beolink JID earns a warning and is skipped; then,
    if every JID found is valid, one task is created that sends an expand
    request followed by a one second sleep for each JID in order; if some
    JID is not valid, an error names the first such JID and nothing is
    expanded. *)
Theorem join_players_expands (c : Consts) (check_valid_jid : string -> bool)
    (hass : HomeAssistant) (group_members : list string) (e : Entity) :
  (group_members = [] ->
   async_join_players c check_valid_jid hass group_members e
   = (Ok tt, e, [Request join_latest_beolink_experience])) /\
  (group_members <> [] ->
   Forall (fun m => is_ok (_get_beolink_jid c hass m) = true) group_members ->
   let jids := omap (jid_of c hass) group_members in
   async_join_players c check_valid_jid hass group_members e
   = (Ok tt, e,
      join_warnings c hass group_members ++
      [match List.find (fun jid => negb (check_valid_jid jid)) jids with
       | None => expand_task jids
       | Some jid => Log LOG_ERROR "Invalid Beolink JID: %s" [LStr jid]
       end])).
Proof.
  split.
  - intros ->. reflexivity.
  - intros Hne Hok jids. unfold async_join_players.
    assert ((length group_members =? 0)%nat = false) as ->
      by by destruct group_members.
    rewrite run_bind, (join_players_jids_run _ _ _ _ _ Hok), app_nil_l.
    fold jids. unfold async_beolink_expand.
    destruct (List.find _ jids) as [bad|]; [done|].
    rewrite run_bind. unfold this, emit. by rewrite beolink_expand_run.
Qed.

Lemma join_players_expands_witness :
  async_join_players Sample.consts Sample.check_valid_jid Sample.hass []
    (Sample.living_room None)
  = (Ok tt, Sample.living_room None, [Request join_latest_beolink_experience]) /\
  async_join_players Sample.consts Sample.check_valid_jid Sample.hass
    ["media_player.tv"; "media_player.kitchen"] (Sample.living_room None)
  = (Ok tt, Sample.living_room None,
     [Log LOG_WARNING "Error adding %s to group" [LStr "media_player.tv"];
      CreateTask [Request (post_beolink_expand Sample.jid_kitchen); Sleep 1]]).
Proof.
  split.
  - exact (proj1 (join_players_expands Sample.consts Sample.check_valid_jid Sample.hass []
                    (Sample.living_room None)) eq_refl).
  - apply (proj2 (join_players_expands Sample.consts Sample.check_valid_jid Sample.hass
                    ["media_player.tv"; "media_player.kitchen"] (Sample.living_room None))).
    + discriminate.
    + repeat constructor.
Defined.

(** C7, as stated, fails.  The kitchen speaker resolves to a valid JID,
    yet it gets no expand request when another member's JID is invalid:
    the validity check returns before anything is expanded. *)
Lemma join_players_invalid_jid_expands_nothing :
  _get_beolink_jid Sample.consts Sample.hass "media_player.kitchen"
  = Ok (Some Sample.jid_kitchen) /\
  Sample.check_valid_jid Sample.jid_kitchen = true /\
  _get_beolink_jid Sample.consts Sample.hass "media_player.attic" = Ok (Some "attic") /\
  async_join_players Sample.consts Sample.check_valid_jid Sample.hass
    ["media_player.kitchen"; "media_player.attic"] (Sample.living_room None)
  = (Ok tt, Sample.living_room None,
     [Log LOG_ERROR "Invalid Beolink JID: %s" [LStr "attic"]]).
Proof. repeat split; vm_compute; reflexivity. Qed.

(** *** Group membership *)

Lemma listeners_loop_run hass peers listeners ids :
  Forall2 (fun l id => _get_entity_id_from_jid hass (BeolinkListener.jid l) = Ok id)
    listeners ids ->
  forall group_members names, exists names', forall e,
    beolink_listeners_loop hass peers listeners group_members names e
    = (Ok (group_members ++ ids, names'), e, []).
Proof.
  induction 1 as [|l id ls ids Hl _ IH]; intros group_members names.
  - exists names. intros e. simpl. by rewrite app_nil_r.
  - edestruct IH as [names' Hnames]. exists names'. intros e.
    simpl. rewrite run_bind. unfold lift. rewrite Hl, Hnames.
    by rewrite <- app_assoc.
Qed.

(** A title that echoes Line-In makes Line-In the source, whatever the
    constants are, and so drops the remote leader. *)
Lemma line_in_title_overrides c e :
  PlaybackContentMetadata.title (_playback_metadata e) = Some (SOURCE_ENUM_lineIn c) ->
  leader_overridden c e = true.
Proof.
  intros Htitle. unfold leader_overridden, source. rewrite Htitle. simpl.
  by rewrite !String.eqb_refl.
Qed.

(** C1, as the code has it.  A group update on a device without a remote
    leader (none in the metadata, or dropped because the source is Line-In
    or the URI streamer), to which the client reports N > 0 listeners whose
    JIDs, like the device's own, have a unique-id part: the update
    completes, and the group members are the registry's answer for the
    device's own JID followed by its answer for each listener's JID, in
    the client's order, N + 1 entries in all.  An answer is an entity ID or
    null: nothing is filtered out. *)
Theorem update_beolink_leader_members (c : Consts) (hass : HomeAssistant)
    (client : Responses) (e : Entity) (self_id : option string)
    (ids : list (option string)) :
  PlaybackContentMetadata.remote_leader (_playback_metadata e) = None
  \/ leader_overridden c e = true ->
  beolink_listeners client <> [] ->
  _get_entity_id_from_jid hass (_beolink_jid e) = Ok self_id ->
  Forall2 (fun l id => _get_entity_id_from_jid hass (BeolinkListener.jid l) = Ok id)
    (beolink_listeners client) ids ->
  let r := _update_beolink c hass client e in
  result r = Ok tt /\
  _remote_leader (after r) = None /\
  _beolink_listeners (after r) = beolink_listeners client /\
  _attr_group_members (after r) = self_id :: ids /\
  length (_attr_group_members (after r)) = S (length (beolink_listeners client)).
Proof.
  intros Hleader Hne Hself Hids r.
  destruct (listeners_loop_run hass (beolink_peers client) _ _ Hids [self_id] [])
    as [names Hloop].
  assert ((0 <? length (beolink_listeners client))%nat = true) as Hlen
    by (destruct (beolink_listeners client); done).
  assert (length ids = length (beolink_listeners client)) as Hsize
    by (symmetry; eapply Forall2_length, Hids).
  subst r. unfold _update_beolink. run.
  destruct (0 <? length (beolink_peers client))%nat; run;
  (destruct (source c e) as [s|] eqn:Hs;
    [destruct (str_in s _) eqn:Hin|]; run; fields).
  all: try (destruct Hleader as [Hleader|Hleader];
            [rewrite Hleader
            |unfold leader_overridden in Hleader; rewrite Hs in Hleader; congruence]).
  all: run; fields; rewrite Hlen, Hself, Hloop; fields.
  all: repeat split; simpl; congruence.
Qed.

Lemma update_beolink_leader_members_witness :
  result (_update_beolink Sample.consts Sample.hass
            (Sample.responses [Sample.jid_kitchen]) (Sample.living_room None)) = Ok tt /\
  _remote_leader (after (_update_beolink Sample.consts Sample.hass
            (Sample.responses [Sample.jid_kitchen]) (Sample.living_room None))) = None /\
  _beolink_listeners (after (_update_beolink Sample.consts Sample.hass
            (Sample.responses [Sample.jid_kitchen]) (Sample.living_room None)))
  = beolink_listeners (Sample.responses [Sample.jid_kitchen]) /\
  _attr_group_members (after (_update_beolink Sample.consts Sample.hass
            (Sample.responses [Sample.jid_kitchen]) (Sample.living_room None)))
  = [Some "media_player.living_room"; Some "media_player.kitchen"] /\
  length (_attr_group_members (after (_update_beolink Sample.consts Sample.hass
            (Sample.responses [Sample.jid_kitchen]) (Sample.living_room None))))
  = S (length (beolink_listeners (Sample.responses [Sample.jid_kitchen]))).
Proof.
  apply (update_beolink_leader_members Sample.consts Sample.hass
           (Sample.responses [Sample.jid_kitchen]) (Sample.living_room None)
           (Some "media_player.living_room") [Some "media_player.kitchen"]).
  - left. reflexivity.
  - discriminate.
  - reflexivity.
  - repeat constructor.
Defined.

(** C1, as stated, fails.  The bedroom speaker listens but is not in the
    registry: it is not left out of the group members, it is there as a
    null entry. *)
Lemma update_beolink_keeps_unresolved_listener :
  PlaybackContentMetadata.remote_leader (_playback_metadata (Sample.living_room None))
  = None /\
  _get_entity_id_from_jid Sample.hass Sample.jid_bedroom = Ok None /\
  result (_update_beolink Sample.consts Sample.hass
            (Sample.responses [Sample.jid_kitchen; Sample.jid_bedroom])
            (Sample.living_room None)) = Ok tt /\
  _attr_group_members
    (after (_update_beolink Sample.consts Sample.hass
              (Sample.responses [Sample.jid_kitchen; Sample.jid_bedroom])
              (Sample.living_room None)))
  = [Some "media_player.living_room"; Some "media_player.kitchen"; None].
Proof. repeat split; vm_compute; reflexivity. Qed.

(** A group update on a device whose metadata names a remote leader that
    the source does not override. *)
Lemma update_beolink_listener (c : Consts) (hass : HomeAssistant)
    (client : Responses) (e : Entity) (leader : BeolinkLeader.t)
    (leader_id self_id : option string) :
  PlaybackContentMetadata.remote_leader (_playback_metadata e) = Some leader ->
  leader_overridden c e = false ->
  _get_entity_id_from_jid hass (BeolinkLeader.jid leader) = Ok leader_id ->
  _get_entity_id_from_jid hass (_beolink_jid e) = Ok self_id ->
  let r := _update_beolink c hass client e in
  result r = Ok tt /\
  trace r = [Request get_beolink_peers] /\
  _remote_leader (after r) = Some leader /\
  _attr_group_members (after r) = [leader_id; self_id].
Proof.
  intros Hleader Hover Hlid Hsid r. subst r. unfold _update_beolink. run.
  unfold leader_overridden in Hover.
  destruct (0 <? length (beolink_peers client))%nat; run;
  (destruct (source c e) as [s|] eqn:Hs; [rewrite Hover|]; run; fields).
  all: rewrite Hleader; run; fields; rewrite Hlid, Hsid; done.
Qed.

(** The artwork update, when it completes, only replaces the image. *)
Lemma update_artwork_frame (c : Consts) (py : Builtins) (e : Entity) :
  result (_update_artwork c py e) = Ok tt ->
  exists image, _update_artwork c py e = (Ok tt, set_media_image image e, []).
Proof.
  unfold _update_artwork. run.
  destruct (PlaybackContentMetadata.art (_playback_metadata e)) as [[|first arts]|];
    [by eexists| |by eexists].
  destruct (artwork_images _ _ _ _) as [images|]; [|done]. cbv iota.
  destruct (list_max images) as [largest|]; [|done]. cbv iota.
  destruct (list_index largest images) as [i|]; [|done]. cbv iota.
  destruct (index _ i) as [image|]; [|done]. by eexists.
Qed.

(** C2, as the code has it.  A metadata update that names a remote leader,
    whose artwork is processed without an exception, on a device whose
    source (with the new metadata) is neither Line-In nor the URI streamer,
    the leader's JID and the device's own having a unique-id part: the
    update completes, the remote leader is stored, and the group members
    are exactly two entries, the registry's answer for the leader's JID and
    its answer for the device's own JID, in that order. *)
Theorem metadata_update_listener_members (c : Consts) (py : Builtins)
    (hass : HomeAssistant) (client : Responses)
    (data : PlaybackContentMetadata.t) (e : Entity) (leader : BeolinkLeader.t)
    (leader_id self_id : option string) :
  PlaybackContentMetadata.remote_leader data = Some leader ->
  leader_overridden c (set_playback_metadata data e) = false ->
  result (_update_artwork c py (set_playback_metadata data e)) = Ok tt ->
  _get_entity_id_from_jid hass (BeolinkLeader.jid leader) = Ok leader_id ->
  _get_entity_id_from_jid hass (_beolink_jid e) = Ok self_id ->
  let r := _update_playback_metadata c py hass client data e in
  result r = Ok tt /\
  _remote_leader (after r) = Some leader /\
  _attr_group_members (after r) = [leader_id; self_id].
Proof.
  intros Hleader Hover Hart Hlid Hsid r.
  destruct (update_artwork_frame _ _ _ Hart) as [image Himage].
  pose proof (update_beolink_listener c hass client
                (set_media_image image (set_playback_metadata data e))
                leader leader_id self_id Hleader Hover Hlid Hsid) as Hbeolink.
  cbv zeta in Hbeolink.
  destruct (_update_beolink c hass client _) as [[o e'] t] eqn:Hrun.
  unfold result, after, trace in Hbeolink. simpl in Hbeolink.
  destruct Hbeolink as (-> & -> & Hl & Hg).
  assert (_update_playback_metadata c py hass client data e
          = (Ok tt, e', [Request get_beolink_peers; WriteHaState])) as Heq.
  { unfold _update_playback_metadata.
    rewrite run_bind. unfold assign. cbv iota.
    rewrite run_bind, Himage. cbv iota. by rewrite run_bind, Hrun. }
  subst r. by rewrite Heq.
Qed.

Lemma metadata_update_listener_members_witness :
  result (_update_playback_metadata Sample.consts Sample.builtins Sample.hass
            (Sample.responses [])
            (Sample.metadata (Some "Song") (Some Sample.kitchen_leader))
            (Sample.living_room None)) = Ok tt /\
  _remote_leader
    (after (_update_playback_metadata Sample.consts Sample.builtins Sample.hass
              (Sample.responses [])
              (Sample.metadata (Some "Song") (Some Sample.kitchen_leader))
              (Sample.living_room None))) = Some Sample.kitchen_leader /\
  _attr_group_members
    (after (_update_playback_metadata Sample.consts Sample.builtins Sample.hass
              (Sample.responses [])
              (Sample.metadata (Some "Song") (Some Sample.kitchen_leader))
              (Sample.living_room None)))
  = [Some "media_player.kitchen"; Some "media_player.living_room"].
Proof.
  apply (metadata_update_listener_members Sample.consts Sample.builtins Sample.hass
           (Sample.responses [])
           (Sample.metadata (Some "Song") (Some Sample.kitchen_leader))
           (Sample.living_room None) Sample.kitchen_leader
           (Some "media_player.kitchen") (Some "media_player.living_room"));
    reflexivity.
Defined.

(** C2, as stated, fails.  Metadata that names the kitchen as remote
    leader while its title echoes Line-In: the update drops the leader and
    the device ends up alone, with no group members. *)
Lemma metadata_update_line_in_drops_leader :
  PlaybackContentMetadata.remote_leader
    (Sample.metadata (Some "Line-In") (Some Sample.kitchen_leader))
  = Some Sample.kitchen_leader /\
  result (_update_playback_metadata Sample.consts Sample.builtins Sample.hass
            (Sample.responses [])
            (Sample.metadata (Some "Line-In") (Some Sample.kitchen_leader))
            (Sample.living_room None)) = Ok tt /\
  _remote_leader
    (after (_update_playback_metadata Sample.consts Sample.builtins Sample.hass
              (Sample.responses [])
              (Sample.metadata (Some "Line-In") (Some Sample.kitchen_leader))
              (Sample.living_room None))) = None /\
  _attr_group_members
    (after (_update_playback_metadata Sample.consts Sample.builtins Sample.hass
              (Sample.responses [])
              (Sample.metadata (Some "Line-In") (Some Sample.kitchen_leader))
              (Sample.living_room None))) = [].
Proof. repeat split; vm_compute; reflexivity. Qed.

End MediaPlayerFacts.

(** ** The listening-position select *)

Module SelectFacts.
Import PyFacts Select.

Lemma catalog_app positions l1 l2 :
  catalog positions (l1 ++ l2) = catalog (catalog positions l1) l2.
Proof.
  revert positions. induction l1 as [|[label key] l1 IH]; intros positions; simpl; [done|].
  by destruct (dict_contains positions label).
Qed.

Lemma catalog_warnings_app positions l1 l2 :
  catalog_warnings positions (l1 ++ l2)
  = catalog_warnings positions l1 ++ catalog_warnings (catalog positions l1) l2.
Proof.
  revert positions. induction l1 as [|[label key] l1 IH]; intros positions; simpl; [done|].
  destruct (dict_contains positions label); by rewrite IH.
Qed.

(** First seen wins: a label maps to the key it was first seen with. *)
Lemma catalog_get positions labels label :
  dict_get (catalog positions labels) label
  = match dict_get positions label with
    | Some key => Some key
    | None => dict_get labels label
    end.
Proof.
  revert positions. induction labels as [|[l k] labels IH]; intros positions; simpl.
  - by destruct (dict_get positions label).
  - unfold dict_contains. destruct (dict_get positions l) as [k'|] eqn:Hl.
    + rewrite IH. destruct (String.eqb_spec l label) as [->|_]; [by rewrite Hl|done].
    + rewrite IH, (dict_set_absent _ _ _ Hl), dict_get_app. simpl.
      destruct (dict_get positions label); [done|].
      by destruct (String.eqb l label).
Qed.

Lemma catalog_keys_NoDup positions labels :
  NoDup (dict_keys positions) -> NoDup (dict_keys (catalog positions labels)).
Proof.
  revert positions. induction labels as [|[l k] labels IH]; intros positions Hnd; simpl; [done|].
  unfold dict_contains. destruct (dict_get positions l) eqn:Hl; [by apply IH|].
  apply IH. rewrite (dict_set_absent _ _ _ Hl). unfold dict_keys. rewrite fmap_app.
  apply NoDup_app. split; [done|]. split; [|apply NoDup_singleton].
  intros x Hx [->|[]%elem_of_nil]%elem_of_cons. by apply dict_get_None in Hl.
Qed.

Lemma catalog_elem_of positions labels label key :
  (label, key) ∈ catalog positions labels ->
  (label, key) ∈ positions \/ (label, key) ∈ labels.
Proof.
  revert positions. induction labels as [|[l k] labels IH]; intros positions; simpl; [by left|].
  unfold dict_contains. destruct (dict_get positions l) eqn:Hl.
  - intros [?|?]%IH; [by left|right; by apply list_elem_of_further].
  - rewrite (dict_set_absent _ _ _ Hl).
    intros [[?|[->|[]%elem_of_nil]%elem_of_cons]%elem_of_app|?]%IH.
    + by left.
    + right. apply list_elem_of_here.
    + right. by apply list_elem_of_further.
Qed.


Lemma labelled_cons key scene scenes :
  labelled ((key, scene) :: scenes)
  = match listening_position_label scene with
    | Some label => (label, key) :: labelled scenes
    | None => labelled scenes
    end.
Proof. unfold labelled. simpl. by destruct (listening_position_label scene). Qed.

Lemma labelled_app s1 s2 : labelled (s1 ++ s2) = labelled s1 ++ labelled s2.
Proof. apply omap_app. Qed.

Lemma labelled_elem_of scenes label key :
  (label, key) ∈ labelled scenes <->
  exists scene, (key, scene) ∈ scenes /\ listening_position_label scene = Some label.
Proof.
  unfold labelled. rewrite list_elem_of_omap. split.
  - intros ([k sc] & Hin & Heq). destruct (listening_position_label sc) eqn:Hl; [|done].
    simpl in Heq. injection Heq as <- <-. by exists sc.
  - intros (sc & Hin & Hl). exists (key, sc). by rewrite Hl.
Qed.

(** One turn of the loop on a scene the dict holds. *)
Lemma listening_position_step_run scenes group key scene e :
  dict_get scenes key = Some scene ->
  (is_Some (listening_position_label scene) -> Scene.action_list scene <> []) ->
  exists e',
    listening_position_step scenes group key e
    = (Ok tt, e', catalog_warnings (_listening_positions e) (labelled [(key, scene)])) /\
    _listening_positions e'
    = catalog (_listening_positions e) (labelled [(key, scene)]) /\
    _attr_options e' = _attr_options e.
Proof.
  intros Hkey Hactions. rewrite labelled_cons.
  unfold listening_position_step. run. rewrite Hkey. cbv iota.
  destruct (listening_position_label scene) as [label|]; cbv iota; [|by exists e].
  simpl catalog. simpl catalog_warnings.
  destruct (dict_contains (_listening_positions e) label); cbv iota; [by exists e|].
  destruct (Scene.action_list scene) as [|action actions].
  { exfalso. by apply Hactions. }
  unfold index. simpl lookup. cbv iota.
  destruct (opt_eqb _ _); cbv iota; by eexists.
Qed.

(** The loop, run from any catalog, on scenes the dict really holds. *)
Lemma listening_positions_loop scenes group items e :
  (forall key scene, (key, scene) ∈ items -> dict_get scenes key = Some scene) ->
  (forall key scene, (key, scene) ∈ items ->
     is_Some (listening_position_label scene) -> Scene.action_list scene <> []) ->
  exists e',
    for_each (dict_keys items) (listening_position_step scenes group) e
    = (Ok tt, e', catalog_warnings (_listening_positions e) (labelled items)) /\
    _listening_positions e' = catalog (_listening_positions e) (labelled items) /\
    _attr_options e' = _attr_options e.
Proof.
  revert e. induction items as [|[key scene] items IH]; intros e Hget Hactions.
  - by exists e.
  - destruct (listening_position_step_run scenes group key scene e)
      as (e1 & Hstep & Hpos1 & Hopt1).
    { apply Hget, list_elem_of_here. }
    { apply (Hactions key scene), list_elem_of_here. }
    destruct (IH e1) as (e' & Hloop & Hpos & Hopt).
    { intros k sc Hin. by apply Hget, list_elem_of_further. }
    { intros k sc Hin. by apply (Hactions k sc), list_elem_of_further. }
    exists e'. simpl dict_keys. simpl for_each.
    rewrite run_bind, Hstep, Hloop, Hpos, Hopt, Hpos1, Hopt1.
    change ((key, scene) :: items) with ([(key, scene)] ++ items).
    by rewrite labelled_app, catalog_app, catalog_warnings_app.
Qed.


(** The whole rebuild: it completes, the catalog is rebuilt from scratch
    first seen wins, the options are its labels, and the warnings are
    those of the duplicates. *)
Lemma update_listening_positions_run client group e :
  NoDup (dict_keys (all_scenes client)) ->
  (forall key scene, (key, scene) ∈ all_scenes client ->
     is_Some (listening_position_label scene) -> Scene.action_list scene <> []) ->
  exists e' fetched,
    _update_listening_positions client group e
    = (Ok tt, e',
       fetched ++ catalog_warnings [] (labelled (all_scenes client)) ++ [WriteHaState]) /\
    _listening_positions e' = catalog [] (labelled (all_scenes client)) /\
    _attr_options e' = dict_keys (_listening_positions e').
Proof.
  intros Hnd Hactions.
  assert (forall g e0, exists e',
    for_each (dict_keys (all_scenes client))
      (listening_position_step (all_scenes client) g)
      (set_listening_positions [] e0)
    = (Ok tt, e', catalog_warnings [] (labelled (all_scenes client))) /\
    _listening_positions e' = catalog [] (labelled (all_scenes client))) as Hloop.
  { intros g e0.
    destruct (listening_positions_loop (all_scenes client) g (all_scenes client)
                (set_listening_positions [] e0)) as (e' & Hrun & Hpos & _).
    - intros key scene Hin. by apply dict_get_elem_of.
    - done.
    - by exists e'. }
  unfold _update_listening_positions.
  destruct group as [g|].
  - destruct (Hloop g e) as (e' & Hrun & Hpos).
    exists (set_attr_options (dict_keys (_listening_positions e')) e'),
      [Request get_all_scenes].
    split; [|done]. run. rewrite Hrun. done.
  - destruct (Hloop (speakergroup_active client) e) as (e' & Hrun & Hpos).
    exists (set_attr_options (dict_keys (_listening_positions e')) e'),
      [Request get_all_scenes; Request get_speakergroup_active].
    split; [|done]. run. rewrite Hrun. done.
Qed.

(** C9.  A rebuild of the listening positions over scenes that form a
    dict (no key twice), each listening position having at least one
    action, in which a scene with key [key1] is the first listening
    position labelled [label] and a later scene with key [key2] is a
    listening position with the same label: the rebuild completes, a
    warning naming the label and [key2] is logged, the catalog maps the
    label to [key1] and holds [key2] nowhere, and the options are the
    catalog's labels, each of them once. *)
Theorem duplicate_listening_position_dropped (client : Responses)
    (group : option SpeakerGroupOverview.t) (e : Entity)
    (before : dict Scene.t) (key1 : string) (scene1 : Scene.t)
    (between : dict Scene.t) (key2 : string) (scene2 : Scene.t)
    (rest : dict Scene.t) (label : string) :
  all_scenes client = before ++ (key1, scene1) :: between ++ (key2, scene2) :: rest ->
  NoDup (dict_keys (all_scenes client)) ->
  (forall key scene, (key, scene) ∈ all_scenes client ->
     is_Some (listening_position_label scene) -> Scene.action_list scene <> []) ->
  listening_position_label scene1 = Some label ->
  listening_position_label scene2 = Some label ->
  (forall key scene, (key, scene) ∈ before ->
     listening_position_label scene <> Some label) ->
  let r := _update_listening_positions client group e in
  result r = Ok tt /\
  duplicate_warning label key2 ∈ trace r /\
  dict_get (_listening_positions (after r)) label = Some key1 /\
  (key2 ∉ dict_values (_listening_positions (after r))) /\
  _attr_options (after r) = dict_keys (_listening_positions (after r)) /\
  NoDup (_attr_options (after r)).
Proof.
  intros Hscenes Hnd Hactions Hlabel1 Hlabel2 Hfirst r.
  destruct (update_listening_positions_run client group e Hnd Hactions)
    as (e' & fetched & Hrun & Hpos & Hopt).
  subst r. rewrite Hrun. unfold result, after, trace. simpl.
  assert (dict_get (labelled before) label = None) as Hbefore.
  { apply dict_get_None. intros [[l k] [Heq Hin]]%list_elem_of_fmap. simpl in Heq. subst l.
    apply labelled_elem_of in Hin as (scene & Hin & Hl). by apply (Hfirst k scene). }
  assert (dict_get (_listening_positions e') label = Some key1) as Hget.
  { rewrite Hpos, catalog_get, Hscenes, labelled_app, labelled_cons, Hlabel1,
      dict_get_app, Hbefore. simpl. by rewrite String.eqb_refl. }
  assert (NoDup (dict_keys (_listening_positions e'))) as Hkeys.
  { rewrite Hpos. apply catalog_keys_NoDup. constructor. }
  split; [done|]. split; [|split; [done|split; [|split; [done|by rewrite Hopt]]]].
  - apply elem_of_app. right. apply elem_of_app. left.
    rewrite Hscenes.
    replace (before ++ (key1, scene1) :: between ++ (key2, scene2) :: rest)
      with ((before ++ (key1, scene1) :: between) ++ (key2, scene2) :: rest)
      by by rewrite <- app_assoc.
    rewrite labelled_app, catalog_warnings_app. apply elem_of_app. right.
    rewrite labelled_cons, Hlabel2. simpl.
    assert (dict_contains (catalog [] (labelled (before ++ (key1, scene1) :: between)))
              label = true) as ->; [|apply list_elem_of_here].
    apply dict_contains_get. rewrite catalog_get. simpl.
    rewrite labelled_app, labelled_cons, Hlabel1, dict_get_app, Hbefore. simpl.
    rewrite String.eqb_refl. by eexists.
  - intros [[l k] [Heq Hin]]%list_elem_of_fmap. simpl in Heq. subst k.
    pose proof Hin as Hin'. rewrite Hpos in Hin'.
    apply catalog_elem_of in Hin' as [[]%elem_of_nil|Hin'].
    apply labelled_elem_of in Hin' as (scene & Hscene & Hl).
    assert (scene = scene2) as ->.
    { apply (dict_get_elem_of _ _ _ Hnd) in Hscene.
      assert ((key2, scene2) ∈ all_scenes client) as H2.
      { rewrite Hscenes. apply elem_of_app. right. apply list_elem_of_further.
        apply elem_of_app. right. apply list_elem_of_here. }
      apply (dict_get_elem_of _ _ _ Hnd) in H2. congruence. }
    assert (l = label) as -> by congruence.
    apply (dict_get_elem_of _ _ _ Hkeys) in Hin.
    assert (key1 = key2) as -> by congruence.
    rewrite Hscenes in Hnd. unfold dict_keys in Hnd.
    rewrite fmap_app, fmap_cons, fmap_app, fmap_cons in Hnd. simpl in Hnd.
    apply NoDup_app in Hnd as (_ & _ & Hnd). apply NoDup_cons in Hnd as [Hnd _].
    apply Hnd. apply elem_of_app. right. apply list_elem_of_here.
Qed.


Lemma duplicate_listening_position_dropped_witness :
  result (_update_listening_positions Sample.scene_responses None Sample.select) = Ok tt /\
  duplicate_warning "Sofa" "scene-3"
    ∈ trace (_update_listening_positions Sample.scene_responses None Sample.select) /\
  dict_get (_listening_positions
              (after (_update_listening_positions Sample.scene_responses None Sample.select)))
    "Sofa" = Some "scene-1" /\
  ("scene-3" ∉ dict_values
     (_listening_positions
        (after (_update_listening_positions Sample.scene_responses None Sample.select)))) /\
  _attr_options (after (_update_listening_positions Sample.scene_responses None Sample.select))
  = dict_keys (_listening_positions
       (after (_update_listening_positions Sample.scene_responses None Sample.select))) /\
  NoDup (_attr_options
           (after (_update_listening_positions Sample.scene_responses None Sample.select))).
Proof.
  apply (duplicate_listening_position_dropped Sample.scene_responses None Sample.select
           [] "scene-1" (Sample.listening_position "Sofa" "group-1")
           [("scene-2", Sample.party)]
           "scene-3" (Sample.listening_position "Sofa" "group-2")
           [("scene-4", Sample.listening_position "Desk" "group-3")] "Sofa").
  - reflexivity.
  - apply (bool_decide_unpack _); vm_compute; exact I.
  - intros key scene Hin Hlabel.
    repeat (apply elem_of_cons in Hin as [Heq|Hin];
            [injection Heq as -> ->; try discriminate|]).
    + destruct Hlabel as [label Hlabel]. vm_compute in Hlabel. discriminate.
    + by apply elem_of_nil in Hin.
  - reflexivity.
  - reflexivity.
  - intros key scene Hin. by apply elem_of_nil in Hin.
Defined.

End SelectFacts.

(** ** Beolink JIDs and the entity registry *)

Module JidFacts.

Import PyFacts MediaPlayer Vocabulary.

Lemma str_split_length sep s : length (str_split sep s) = S (count_char sep s).
Proof.
  induction s as [|ch s IH]; [done|]. simpl.
  destruct (Ascii.eqb ch sep); simpl; [by rewrite IH|].
  destruct (str_split sep s); simpl in *; lia.
Qed.

Lemma str_split_app sep a b :
  count_char sep a = 0%nat ->
  str_split sep (a +:+ String sep b) = a :: str_split sep b.
Proof.
  induction a as [|ch a IH]; simpl.
  - intros _. by rewrite Ascii.eqb_refl.
  - destruct (Ascii.eqb ch sep); [done|]. intros H. by rewrite IH.
Qed.

Lemma str_split_sep sep a b :
  count_char sep a = 0%nat ->
  str_split sep (a +:+ String sep EmptyString +:+ b) = a :: str_split sep b.
Proof. exact (str_split_app sep a b). Qed.

Lemma str_split_nonempty sep s : exists w ws, str_split sep s = w :: ws.
Proof.
  destruct (str_split sep s) as [|w ws] eqn:H; [|by eauto].
  pose proof (str_split_length sep s) as Hlen. rewrite H in Hlen. done.
Qed.

Lemma str_split_prefix sep a b :
  count_char sep a = 0%nat ->
  str_split sep (a +:+ b)
  = match str_split sep b with
    | w :: ws => (a +:+ w) :: ws
    | [] => [a]
    end.
Proof.
  induction a as [|ch a IH]; simpl.
  - intros _. destruct (str_split_nonempty sep b) as (w & ws & Hb).
    by rewrite Hb.
  - destruct (Ascii.eqb ch sep); [done|]. intros H. rewrite IH by done.
    by destruct (str_split sep b).
Qed.

(** X1.  The registry lookup by JID.  For a JID of the shape
    [product.kind.serial@domain], whose first three parts hold no dot and
    whose serial holds no at-sign, the registry is asked for the serial,
    whatever the domain is.  A text with fewer than two dots raises
    [IndexError], and only such a text does: with two dots or more the
    lookup always answers, with an entity ID or with null. *)
Theorem entity_id_from_jid (hass : HomeAssistant) :
  (forall product kind serial domain,
     count_char "." product = 0%nat -> count_char "." kind = 0%nat ->
     count_char "." serial = 0%nat -> count_char "@" serial = 0%nat ->
     _get_entity_id_from_jid hass (make_jid product kind serial domain)
     = Ok (entity_ids hass !! serial)) /\
  (forall jid,
     (count_char "." jid < 2)%nat <-> _get_entity_id_from_jid hass jid = Raise IndexError) /\
  (forall jid, (2 <= count_char "." jid)%nat ->
     exists unique_id,
       _get_entity_id_from_jid hass jid = Ok (entity_ids hass !! unique_id)).
Proof.
  assert (forall jid, (2 <= count_char "." jid)%nat ->
     exists unique_id,
       _get_entity_id_from_jid hass jid = Ok (entity_ids hass !! unique_id)) as Hok.
  { intros jid Hdots. unfold _get_entity_id_from_jid, index.
    pose proof (str_split_length "." jid) as Hlen.
    destruct (str_split "." jid !! 2%nat) as [part|] eqn:Hpart.
    - destruct (str_split_nonempty "@" part) as (w & ws & ->). by exists w.
    - apply lookup_ge_None in Hpart. lia. }
  split; [|split; [|done]].
  - intros product kind serial domain Hp Hk Hs Ha.
    unfold _get_entity_id_from_jid, make_jid, index.
    rewrite (str_split_sep "." product) by done.
    rewrite (str_split_sep "." kind) by done. simpl lookup.
    rewrite (str_split_prefix "." serial) by done.
    change (str_split "." ("@" +:+ domain))
      with (match str_split "." domain with
            | [] => [String "@" EmptyString]
            | w :: ws => String "@" w :: ws
            end).
    destruct (str_split_nonempty "." domain) as (w & ws & ->). simpl lookup. cbv iota.
    rewrite (str_split_app "@" serial) by done. done.
  - intros jid. split.
    + intros Hdots. unfold _get_entity_id_from_jid, index.
      pose proof (str_split_length "." jid) as Hlen.
      rewrite (lookup_ge_None_2 (str_split "." jid) 2) by lia. done.
    + intros Hraise. destruct (decide (count_char "." jid < 2)%nat) as [|Hge]; [done|].
      destruct (Hok jid) as [u Hu]; [lia|]. congruence.
Qed.

Lemma entity_id_from_jid_witness :
  _get_entity_id_from_jid Sample.hass
    (make_jid "1111" "2222222" "44444444" "products.bang-olufsen.com")
  = Ok (Some "media_player.kitchen") /\
  _get_entity_id_from_jid Sample.hass "attic" = Raise IndexError /\
  (exists unique_id,
     _get_entity_id_from_jid Sample.hass "1111.2222222.55555555.local"
     = Ok (entity_ids Sample.hass !! unique_id)).
Proof.
  destruct (entity_id_from_jid Sample.hass) as (Hserial & Hshort & Hlong).
  split; [|split].
  - rewrite (Hserial "1111" "2222222" "44444444" "products.bang-olufsen.com");
      reflexivity.
  - apply (Hshort "attic"). simpl. lia.
  - apply (Hlong "1111.2222222.55555555.local"). simpl. lia.
Defined.

Lemma get_beolink_jid_raises c hass member :
  config_entry_of hass member = None ->
  _get_beolink_jid c hass member = Raise AttributeError.
Proof.
  unfold config_entry_of, _get_beolink_jid.
  destruct (entities hass !! member) as [entry|]; simpl; [|done].
  by intros ->.
Qed.

Lemma get_beolink_jid_answers c hass member entry :
  config_entry_of hass member = Some entry ->
  _get_beolink_jid c hass member = Ok (dict_get (data entry) (CONF_BEOLINK_JID c)).
Proof.
  unfold config_entry_of, _get_beolink_jid.
  destruct (entities hass !! member) as [registered|]; simpl; [|done].
  by intros ->.
Qed.

Lemma join_players_jids_stops c hass before member rest jids e :
  Forall (fun m => is_Some (config_entry_of hass m)) before ->
  config_entry_of hass member = None ->
  join_players_jids c hass (before ++ member :: rest) jids e
  = (Raise AttributeError, e, join_warnings c hass before).
Proof.
  intros Hok Hbad. revert jids. induction Hok as [|m ms Hm _ IH]; intros jids.
  - simpl. run. by rewrite (get_beolink_jid_raises c hass member Hbad).
  - destruct Hm as [entry Hm]. simpl. unfold join_warnings, jid_of in *. simpl. run.
    rewrite (get_beolink_jid_answers c hass m entry Hm).
    destruct (dict_get (data entry) (CONF_BEOLINK_JID c)); cbv iota; by rewrite IH.
Qed.

(** X2.  Joining with a group member that is not a registered entity, or
    whose registry entry has no config entry: the members before it are
    resolved as usual (a warning for each one without a JID), then the
    lookup raises [AttributeError].  Nothing is sent to the client, no
    task is created for the members that did resolve, and the members
    after it are never looked at. *)
Theorem join_players_unregistered_member (c : Consts) (check_valid_jid : string -> bool)
    (hass : HomeAssistant) (before : list string) (member : string)
    (rest : list string) (e : Entity) :
  Forall (fun m => is_Some (config_entry_of hass m)) before ->
  config_entry_of hass member = None ->
  let r := async_join_players c check_valid_jid hass (before ++ member :: rest) e in
  result r = Raise AttributeError /\ after r = e /\
  trace r = join_warnings c hass before /\ requests (trace r) = [] /\
  Forall (fun ev => match ev with CreateTask _ => False | _ => True end) (trace r).
Proof.
  intros Hok Hbad r. subst r. unfold async_join_players.
  assert ((length (before ++ member :: rest) =? 0)%nat = false) as ->
    by by destruct before.
  rewrite run_bind, (join_players_jids_stops c hass before member rest [] e Hok Hbad).
  unfold result, after, trace. simpl. repeat split.
  - clear Hok. unfold join_warnings, requests. induction before as [|m ms IH]; [done|].
    simpl. destruct (jid_of c hass m); simpl; by rewrite ?IH.
  - clear Hok. unfold join_warnings. induction before as [|m ms IH]; [done|].
    simpl. destruct (jid_of c hass m); simpl; [done|]. by constructor.
Qed.

Lemma join_players_unregistered_member_witness :
  let r := async_join_players Sample.consts Sample.check_valid_jid Sample.hass
             (["media_player.tv"] ++ "media_player.bedroom" :: ["media_player.kitchen"])
             (Sample.living_room None) in
  result r = Raise AttributeError /\ after r = Sample.living_room None /\
  trace r = join_warnings Sample.consts Sample.hass ["media_player.tv"] /\
  requests (trace r) = [] /\
  Forall (fun ev => match ev with CreateTask _ => False | _ => True end) (trace r).
Proof.
  apply (join_players_unregistered_member Sample.consts Sample.check_valid_jid Sample.hass
           ["media_player.tv"] "media_player.bedroom" ["media_player.kitchen"]
           (Sample.living_room None)).
  - repeat constructor. vm_compute. by eexists.
  - vm_compute. reflexivity.
Defined.

End JidFacts.

(** ** Artwork *)

Module ArtworkFacts.

Import PyFacts MediaPlayer Vocabulary.

Lemma list_max_spec l m :
  list_max l = Ok m -> m ∈ l /\ Forall (fun x => x <= m) l.
Proof.
  destruct l as [|x l]; [done|]. simpl. intros [= <-].
  revert x. induction l as [|y l IH]; intros x; simpl.
  - split; [apply list_elem_of_here|]. constructor; [lia|constructor].
  - destruct (IH (Z.max x y)) as [Hin Hall].
    apply Forall_cons in Hall as [Hxy Hall]. split.
    + apply elem_of_cons in Hin as [Hin|Hin].
      * destruct (Z.max_spec x y) as [[_ Heq]|[_ Heq]]; rewrite Hin, Heq.
        -- apply list_elem_of_further, list_elem_of_here.
        -- apply list_elem_of_here.
      * by do 2 apply list_elem_of_further.
    + repeat constructor; [lia|lia|done].
Qed.

Lemma list_index_spec x l :
  x ∈ l ->
  exists i, list_index x l = Ok i /\ l !! i = Some x /\
            forall j y, (j < i)%nat -> l !! j = Some y -> y <> x.
Proof.
  induction l as [|y l IH]; [by intros ?%elem_of_nil|]. intros Hin. simpl.
  destruct (Z.eqb_spec y x) as [->|Hne].
  - exists 0%nat. split; [done|]. split; [done|]. intros j z Hj. lia.
  - apply elem_of_cons in Hin as [->|Hin]; [done|].
    destruct (IH Hin) as (i & -> & Hi & Hfirst). exists (S i).
    split; [done|]. split; [done|]. intros [|j] z Hj; simpl.
    + by intros [= <-].
    + apply Hfirst. lia.
Qed.

Lemma artwork_images_keys c py first arts widths k :
  Art.key first = Some k ->
  Forall2 (fun image w => key_width py image = Some w) arts widths ->
  artwork_images c py first arts = Ok widths.
Proof.
  intros Hfirst. induction 1 as [|image w arts widths Hw _ IH]; [done|].
  simpl. rewrite Hfirst, IH. unfold key_width in Hw.
  destruct (Art.key image) as [k'|]; [|done]. simpl in Hw. unfold index.
  rewrite <- head_lookup.
  destruct (head (str_split "x" k')) as [part|]; [|done]. simpl in Hw.
  by rewrite Hw.
Qed.

(** X3.  The artwork update over images that all carry a key starting
    with a number (their widths): it completes, sends and logs nothing,
    and stores one of the given images, one whose width no other exceeds;
    among several of that width it is the first in the list. *)
Theorem update_artwork_largest (c : Consts) (py : Builtins) (e : Entity)
    (arts : list Art.t) (widths : list Z) :
  PlaybackContentMetadata.art (_playback_metadata e) = Some arts ->
  arts <> [] ->
  Forall2 (fun image w => key_width py image = Some w) arts widths ->
  exists i image w,
    _update_artwork c py e = (Ok tt, set_media_image image e, []) /\
    arts !! i = Some image /\ widths !! i = Some w /\
    Forall (fun w' => w' <= w) widths /\
    forall j w', (j < i)%nat -> widths !! j = Some w' -> w' < w.
Proof.
  intros Hart Hne Hwidths.
  destruct arts as [|first arts']; [done|].
  pose proof Hwidths as Hw. apply Forall2_cons_inv_l in Hw as (w0 & widths' & Hw0 & _ & ->).
  assert (exists k, Art.key first = Some k) as [k Hk].
  { unfold key_width in Hw0. destruct (Art.key first); [by eauto|done]. }
  pose proof (artwork_images_keys c py first _ _ k Hk Hwidths) as Himages.
  destruct (list_max (w0 :: widths')) as [largest|] eqn:Hmax; [|done].
  destruct (list_max_spec _ _ Hmax) as [Hin Hall].
  destruct (list_index_spec _ _ Hin) as (i & Hindex & Hi & Hfirst).
  destruct (Forall2_lookup_r _ _ _ _ _ Hwidths Hi) as (image & Himage & _).
  exists i, image, largest.
  split; [|split; [done|split; [done|split; [done|]]]].
  - unfold _update_artwork. run. rewrite Hart. cbv iota.
    rewrite Himages. cbv iota. rewrite Hmax. cbv iota.
    rewrite Hindex. cbv iota. unfold index. by rewrite Himage.
  - intros j w' Hj Hw'. pose proof (Hfirst j w' Hj Hw').
    rewrite Forall_lookup in Hall. specialize (Hall j w' Hw'). simpl in Hall. lia.
Qed.

Lemma update_artwork_largest_witness :
  exists i image w,
    _update_artwork Sample.consts Sample.builtins (Examples.playing Examples.covers)
    = (Ok tt, set_media_image image (Examples.playing Examples.covers), []) /\
    Examples.covers !! i = Some image /\ [300; 640; 64; 640] !! i = Some w /\
    Forall (fun w' => w' <= w) [300; 640; 64; 640] /\
    forall j w', (j < i)%nat -> [300; 640; 64; 640] !! j = Some w' -> w' < w.
Proof.
  apply (update_artwork_largest Sample.consts Sample.builtins
           (Examples.playing Examples.covers) Examples.covers [300; 640; 64; 640]).
  - reflexivity.
  - discriminate.
  - repeat constructor.
Defined.

Lemma artwork_images_unmeasured c py first arts :
  Art.key first = None -> Art.size first = None ->
  artwork_images c py first arts = Ok [].
Proof.
  intros Hk Hs. induction arts as [|image arts IH]; [done|].
  simpl. by rewrite Hk, Hs, IH.
Qed.

Lemma artwork_images_missing_key c py first k before bad rest :
  Art.key first = Some k ->
  Forall (fun image => is_Some (key_width py image)) before ->
  Art.key bad = None ->
  artwork_images c py first (before ++ bad :: rest) = Raise AttributeError.
Proof.
  intros Hfirst Hbefore Hbad. induction Hbefore as [|image before [w Hw] _ IH]; simpl.
  - by rewrite Hfirst, Hbad.
  - rewrite Hfirst, IH. unfold key_width in Hw.
    destruct (Art.key image) as [k'|]; [|done]. simpl in Hw. unfold index.
    rewrite <- head_lookup.
    destruct (head (str_split "x" k')) as [part|]; [|done]. simpl in Hw.
    by rewrite Hw.
Qed.

(** X4.  A metadata update stops at artwork it cannot measure.  When the
    first image has neither a key nor a size no width is collected and
    taking the maximum raises [ValueError]; when the first image has a key
    and a later one has none, reading that key raises [AttributeError].
    Either way the new metadata is already stored, while the image and
    the group state stay as they were, nothing is asked of the client and
    the state is not written. *)
Theorem metadata_update_stops_at_bad_artwork (c : Consts) (py : Builtins)
    (hass : HomeAssistant) (client : Responses)
    (data : PlaybackContentMetadata.t) (e : Entity) :
  (forall first rest,
     PlaybackContentMetadata.art data = Some (first :: rest) ->
     Art.key first = None -> Art.size first = None ->
     _update_playback_metadata c py hass client data e
     = (Raise ValueError, set_playback_metadata data e, [])) /\
  (forall first before bad rest,
     PlaybackContentMetadata.art data = Some (first :: before ++ bad :: rest) ->
     Forall (fun image => is_Some (key_width py image)) (first :: before) ->
     Art.key bad = None ->
     _update_playback_metadata c py hass client data e
     = (Raise AttributeError, set_playback_metadata data e, [])).
Proof.
  split.
  - intros first rest Hart Hk Hs.
    unfold _update_playback_metadata. rewrite run_bind. unfold assign. cbv iota.
    rewrite run_bind. unfold _update_artwork at 1. run. fields. rewrite Hart. cbv iota.
    by rewrite (artwork_images_unmeasured c py first _ Hk Hs).
  - intros first before bad rest Hart Hkeys Hbad.
    assert (exists k, Art.key first = Some k) as [k Hk].
    { apply Forall_cons in Hkeys as [[w Hw] _]. unfold key_width in Hw.
      destruct (Art.key first); [by eauto|done]. }
    unfold _update_playback_metadata. rewrite run_bind. unfold assign. cbv iota.
    rewrite run_bind. unfold _update_artwork at 1. run. fields. rewrite Hart. cbv iota.
    change (first :: before ++ bad :: rest) with ((first :: before) ++ bad :: rest).
    by rewrite (artwork_images_missing_key c py first k (first :: before) bad rest Hk Hkeys Hbad).
Qed.

Lemma metadata_update_stops_at_bad_artwork_witness :
  _update_playback_metadata Sample.consts Sample.builtins Sample.hass (Sample.responses [])
    (Examples.song [Examples.blank; Examples.cover "640x640"]) (Sample.living_room None)
  = (Raise ValueError,
     set_playback_metadata (Examples.song [Examples.blank; Examples.cover "640x640"])
       (Sample.living_room None), []) /\
  _update_playback_metadata Sample.consts Sample.builtins Sample.hass (Sample.responses [])
    (Examples.song [Examples.cover "300x300"; Examples.cover "640x640"; Examples.blank])
    (Sample.living_room None)
  = (Raise AttributeError,
     set_playback_metadata
       (Examples.song [Examples.cover "300x300"; Examples.cover "640x640"; Examples.blank])
       (Sample.living_room None), []).
Proof.
  split.
  - apply (proj1 (metadata_update_stops_at_bad_artwork Sample.consts Sample.builtins
                    Sample.hass (Sample.responses [])
                    (Examples.song [Examples.blank; Examples.cover "640x640"])
                    (Sample.living_room None))
             Examples.blank [Examples.cover "640x640"]); reflexivity.
  - apply (proj2 (metadata_update_stops_at_bad_artwork Sample.consts Sample.builtins
                    Sample.hass (Sample.responses [])
                    (Examples.song [Examples.cover "300x300"; Examples.cover "640x640";
                                    Examples.blank])
                    (Sample.living_room None))
             (Examples.cover "300x300") [Examples.cover "640x640"] Examples.blank []).
    + reflexivity.
    + repeat constructor; vm_compute; by eexists.
    + reflexivity.
Defined.

End ArtworkFacts.

(** ** The group state, recomputed *)

Module GroupFacts.

Import PyFacts MediaPlayer Vocabulary.

(** The loop over the listeners reads the registry and nothing else: its
    outcome does not depend on the entity, which it leaves as it is. *)
Lemma listeners_loop_state hass peers listeners :
  forall group_members names, exists o, forall e,
    beolink_listeners_loop hass peers listeners group_members names e = (o, e, []).
Proof.
  induction listeners as [|l ls IH]; intros group_members names.
  - by eexists.
  - simpl. destruct (_get_entity_id_from_jid hass (BeolinkListener.jid l)) as [id|err] eqn:Hid.
    + edestruct IH as [o Ho]. exists o. intros e.
      rewrite run_bind. unfold lift. rewrite Ho. by destruct o.
    + exists (Raise err). intros e. by rewrite run_bind.
Qed.

(** The case analysis every group update goes through. *)
Ltac update_beolink_cases c hass client e :=
  destruct (0 <? length (beolink_peers client))%nat eqn:Hpeers; run; fields;
  (destruct (source c e) eqn:Hs;
   [match goal with
    | |- context [if str_in ?s ?l then _ else _] => destruct (str_in s l) eqn:Hin
    end|]; run; fields);
  (destruct (PlaybackContentMetadata.remote_leader (_playback_metadata e)) eqn:Hl;
   run; fields);
  try (destruct (_get_entity_id_from_jid hass (BeolinkLeader.jid _)) eqn:Hlid;
       run; fields);
  try (destruct (0 <? length (beolink_listeners client))%nat eqn:Hlen; run; fields);
  try (destruct (_get_entity_id_from_jid hass (_beolink_jid e)) eqn:Hsid;
       run; fields);
  try (match goal with
       | |- context [beolink_listeners_loop hass ?peers ?listeners ?members ?names] =>
           let o := fresh "o" in
           let H := fresh in
           destruct (listeners_loop_state hass peers listeners members names) as [o H];
           rewrite !H; rename H into Hloop; destruct o as [[? ?]|]; run; fields
       end).

(** X5.  The group state is recomputed from scratch.  Whatever group
    members, remote leader and Beolink attribute the entity held before,
    a group update gives the same outcome and asks the client the same
    questions, and when it completes the entity it leaves is the same: no
    stale value of the three survives a completed update.  An update that
    raises has not written the group members, which are those held
    before; the rest of the entity is then the same as well. *)
Theorem update_beolink_from_scratch (c : Consts) (hass : HomeAssistant)
    (client : Responses) (e : Entity) (group_members : list (option string))
    (leader : option BeolinkLeader.t) (attribute : option BeolinkAttribute) :
  let r := _update_beolink c hass client e in
  let r' := _update_beolink c hass client (with_stale group_members leader attribute e) in
  result r' = result r /\ trace r' = trace r /\
  (result r = Ok tt -> after r' = after r) /\
  (forall err, result r = Raise err ->
     _attr_group_members (after r) = _attr_group_members e /\
     _attr_group_members (after r') = group_members /\
     after r' = set_attr_group_members group_members (after r)).
Proof.
  intros r r'. subst r r'.
  assert (source c (with_stale group_members leader attribute e) = source c e) as Hsource
    by reflexivity.
  unfold _update_beolink. run. rewrite Hsource. unfold with_stale. fields.
  update_beolink_cases c hass client e.
  all: split; [reflexivity|split; [reflexivity|split]].
  all: try (intros; discriminate).
  all: try (intros _; destruct e; reflexivity).
  all: intros err _; split; [reflexivity|split; [reflexivity|]]; destruct e; reflexivity.
Qed.

Lemma update_beolink_from_scratch_witness :
  (result (_update_beolink Sample.consts Sample.hass (Sample.responses [Sample.jid_kitchen])
             (with_stale [Some "media_player.tv"] (Some Sample.kitchen_leader) None
                (Sample.living_room None)))
   = Ok tt /\
   after (_update_beolink Sample.consts Sample.hass (Sample.responses [Sample.jid_kitchen])
            (with_stale [Some "media_player.tv"] (Some Sample.kitchen_leader) None
               (Sample.living_room None)))
   = after (_update_beolink Sample.consts Sample.hass (Sample.responses [Sample.jid_kitchen])
              (Sample.living_room None))) /\
  result (_update_beolink Sample.consts Sample.hass (Sample.responses ["attic"])
            (with_stale [Some "media_player.tv"] (Some Sample.kitchen_leader) None
               (Sample.living_room None)))
  = Raise IndexError /\
  _attr_group_members
    (after (_update_beolink Sample.consts Sample.hass (Sample.responses ["attic"])
              (with_stale [Some "media_player.tv"] (Some Sample.kitchen_leader) None
                 (Sample.living_room None))))
  = [Some "media_player.tv"].
Proof.
  destruct (update_beolink_from_scratch Sample.consts Sample.hass
              (Sample.responses [Sample.jid_kitchen]) (Sample.living_room None)
              [Some "media_player.tv"] (Some Sample.kitchen_leader) None)
    as (Hresult & _ & Hafter & _).
  destruct (update_beolink_from_scratch Sample.consts Sample.hass
              (Sample.responses ["attic"]) (Sample.living_room None)
              [Some "media_player.tv"] (Some Sample.kitchen_leader) None)
    as (Hresult' & _ & _ & Hraise).
  split; [split; [by rewrite Hresult|by apply Hafter]|].
  split; [by rewrite Hresult'|].
  by destruct (Hraise IndexError eq_refl) as (_ & Hmembers & _).
Defined.

Ltac source_of c e :=
  repeat match goal with
         | |- context [source c ?x] =>
             lazymatch x with
             | e => fail
             | _ => change (source c x) with (source c e)
             end
         end.

(** X6.  A completed group update is idempotent: run again on the entity
    it leaves, against the same answers of the client and the same
    registry, it completes again, asks the same questions and changes
    nothing. *)
Theorem update_beolink_idempotent (c : Consts) (hass : HomeAssistant)
    (client : Responses) (e : Entity) :
  result (_update_beolink c hass client e) = Ok tt ->
  _update_beolink c hass client (after (_update_beolink c hass client e))
  = _update_beolink c hass client e.
Proof.
  assert (forall e1 t, _update_beolink c hass client e = (Ok tt, e1, t) ->
                       _update_beolink c hass client e1 = (Ok tt, e1, t)) as Hfix.
  { intros e1 t. unfold _update_beolink at 1. run. fields.
    update_beolink_cases c hass client e.
    all: try discriminate.
    all: intros [= <- <-].
    all: unfold _update_beolink; run; source_of c e; fields.
    all: rewrite ?Hpeers, ?Hs; run; fields; rewrite ?Hin; run; fields.
    all: rewrite ?Hl; run; fields; rewrite ?Hlid, ?Hlen; run; fields; rewrite ?Hsid; run; fields.
    all: rewrite ?Hloop; run; fields.
    all: destruct e; reflexivity. }
  intros Hok. destruct (_update_beolink c hass client e) as [[o e1] t] eqn:Hrun.
  unfold result in Hok. simpl in Hok. subst o. by apply Hfix.
Qed.

Lemma update_beolink_idempotent_witness :
  _update_beolink Sample.consts Sample.hass (Sample.responses [Sample.jid_kitchen])
    (after (_update_beolink Sample.consts Sample.hass
              (Sample.responses [Sample.jid_kitchen]) (Sample.living_room None)))
  = _update_beolink Sample.consts Sample.hass (Sample.responses [Sample.jid_kitchen])
      (Sample.living_room None).
Proof.
  apply (update_beolink_idempotent Sample.consts Sample.hass
           (Sample.responses [Sample.jid_kitchen]) (Sample.living_room None)).
  reflexivity.
Defined.

Lemma update_beolink_writes (c : Consts) (hass : HomeAssistant) (client : Responses)
    (e : Entity) :
  exists group_members listeners leader attribute,
    after (_update_beolink c hass client e)
    = set_attr_group_members group_members
        (set_beolink_listeners listeners
           (set_remote_leader leader (set_beolink_attribute attribute e))).
Proof.
  unfold _update_beolink. run. fields.
  update_beolink_cases c hass client e.
  all: match goal with
       | |- exists _ _ _ _, ?x = _ =>
           exists (_attr_group_members x), (_beolink_listeners x),
                  (_remote_leader x), (_beolink_attribute x)
       end; destruct e; reflexivity.
Qed.

(** X7.  What a group update never touches.  Whether it completes or
    raises, the entity it leaves has the JID, the volume limits and step,
    the friendly name, both source catalogs, the image, the metadata, the
    last source change and the volume it had before. *)
Theorem update_beolink_frame (c : Consts) (hass : HomeAssistant) (client : Responses)
    (e : Entity) :
  untouched e (after (_update_beolink c hass client e)).
Proof.
  destruct (update_beolink_writes c hass client e) as (gm & bl & rl & ba & ->).
  by repeat split.
Qed.

(** X8.  The solo case.  A device without a remote leader (none in the
    metadata, or dropped because the source is Line-In or the URI
    streamer) to which the client reports no listener: the update
    completes whatever the JIDs look like, after asking for the peers and
    the listeners; the group members are empty, and the Beolink attribute
    has neither a leader nor a listeners entry. *)
Theorem update_beolink_solo (c : Consts) (hass : HomeAssistant) (client : Responses)
    (e : Entity) :
  PlaybackContentMetadata.remote_leader (_playback_metadata e) = None
  \/ leader_overridden c e = true ->
  beolink_listeners client = [] ->
  let r := _update_beolink c hass client e in
  result r = Ok tt /\
  trace r = [Request get_beolink_peers; Request get_beolink_listeners] /\
  _remote_leader (after r) = None /\
  _beolink_listeners (after r) = [] /\
  _attr_group_members (after r) = [] /\
  _beolink_attribute (after r) ≫= attr_leader = None /\
  _beolink_attribute (after r) ≫= attr_listeners = None.
Proof.
  intros Hleader Hnone r. subst r. unfold _update_beolink. run. rewrite Hnone. fields.
  destruct (0 <? length (beolink_peers client))%nat; run; fields;
  (destruct (source c e) as [s|] eqn:Hs;
    [destruct (str_in s _) eqn:Hin|]; run; fields).
  all: try (destruct Hleader as [Hleader|Hleader];
            [rewrite Hleader
            |unfold leader_overridden in Hleader; rewrite Hs in Hleader; congruence]).
  all: run; fields; done.
Qed.

Lemma update_beolink_solo_witness :
  result (_update_beolink Sample.consts Sample.hass (Sample.responses [])
            Examples.on_line_in) = Ok tt /\
  trace (_update_beolink Sample.consts Sample.hass (Sample.responses [])
           Examples.on_line_in)
  = [Request get_beolink_peers; Request get_beolink_listeners] /\
  _remote_leader (after (_update_beolink Sample.consts Sample.hass (Sample.responses [])
                           Examples.on_line_in)) = None /\
  _beolink_listeners (after (_update_beolink Sample.consts Sample.hass (Sample.responses [])
                               Examples.on_line_in)) = [] /\
  _attr_group_members (after (_update_beolink Sample.consts Sample.hass (Sample.responses [])
                                Examples.on_line_in)) = [] /\
  _beolink_attribute (after (_update_beolink Sample.consts Sample.hass (Sample.responses [])
                               Examples.on_line_in)) ≫= attr_leader = None /\
  _beolink_attribute (after (_update_beolink Sample.consts Sample.hass (Sample.responses [])
                               Examples.on_line_in)) ≫= attr_listeners = None.
Proof.
  apply (update_beolink_solo Sample.consts Sample.hass (Sample.responses [])
           Examples.on_line_in).
  - right. reflexivity.
  - reflexivity.
Defined.

(** X9.  The source decides over the metadata.  While the source is
    Line-In or the URI streamer, a group update leaves the device without
    a remote leader and without a leader entry in the Beolink attribute,
    whatever leader the metadata names and whether the update completes
    or raises; and it asks the client for the listeners, as a device that
    is no listener does. *)
Theorem update_beolink_source_override (c : Consts) (hass : HomeAssistant)
    (client : Responses) (e : Entity) :
  leader_overridden c e = true ->
  let r := _update_beolink c hass client e in
  _remote_leader (after r) = None /\
  _beolink_attribute (after r) ≫= attr_leader = None /\
  trace r = [Request get_beolink_peers; Request get_beolink_listeners].
Proof.
  intros Hover r. subst r. unfold leader_overridden in Hover.
  unfold _update_beolink. run. fields.
  update_beolink_cases c hass client e.
  all: try discriminate.
  all: done.
Qed.

Lemma update_beolink_source_override_witness :
  PlaybackContentMetadata.remote_leader (_playback_metadata Examples.on_line_in)
  = Some Sample.kitchen_leader /\
  _remote_leader (after (_update_beolink Sample.consts Sample.hass
                           (Sample.responses [Sample.jid_kitchen]) Examples.on_line_in))
  = None /\
  _beolink_attribute (after (_update_beolink Sample.consts Sample.hass
                               (Sample.responses [Sample.jid_kitchen]) Examples.on_line_in))
    ≫= attr_leader = None /\
  trace (_update_beolink Sample.consts Sample.hass
           (Sample.responses [Sample.jid_kitchen]) Examples.on_line_in)
  = [Request get_beolink_peers; Request get_beolink_listeners].
Proof.
  split; [reflexivity|].
  apply (update_beolink_source_override Sample.consts Sample.hass
           (Sample.responses [Sample.jid_kitchen]) Examples.on_line_in).
  reflexivity.
Defined.

(** X10.  The source property never invents a value: it answers with the
    Line-In, Bluetooth or Chromecast constant, or with the name of the
    last source change. *)
Theorem source_answers (c : Consts) (e : Entity) :
  source c e ∈ [Some (SOURCE_ENUM_lineIn c); Some (SOURCE_ENUM_bluetooth c);
                Some (SOURCE_ENUM_chromeCast c); Source.name (_source_change e)].
Proof.
  unfold source.
  repeat match goal with
         | |- context [if ?b then _ else _] => destruct b
         | |- context [match ?x with _ => _ end] => destruct x
         end; set_solver.
Qed.

End GroupFacts.

(** ** Procedures, lists and dicts *)

Module ProcFacts.

Import PyFacts.

Lemma step_bind {S A B} (m : proc S A) (k : A -> proc S B) (s : S) :
  (m ≫= k) s
  = match m s with
    | (Ok a, s', t) => let '(r, s'', t') := k a s' in (r, s'', t ++ t')
    | (Raise e, s', t) => (Raise e, s', t)
    end.
Proof. reflexivity. Qed.

Lemma for_all_effects {S A} (l : list A) (body : A -> proc S unit)
    (f : A -> list effect) (s : S) :
  (forall x s', body x s' = (Ok tt, s', f x)) ->
  for_all l body s = (Ok tt, s, flat_map f l).
Proof.
  intros Hbody. induction l as [|x l IH]; [done|].
  simpl. rewrite step_bind, Hbody, IH. done.
Qed.

Lemma dict_get_set {V} (d : dict V) k v k' :
  dict_get (dict_set d k v) k' = if String.eqb k k' then Some v else dict_get d k'.
Proof.
  induction d as [|[k0 v0] d IH]; simpl; [done|].
  destruct (String.eqb_spec k0 k) as [->|Hne]; simpl.
  - by destruct (String.eqb k k').
  - rewrite IH. destruct (String.eqb_spec k0 k') as [->|Hne']; [|done].
    destruct (String.eqb_spec k k'); congruence.
Qed.

Lemma dict_keys_get {V} (d : dict V) k : k ∈ dict_keys d <-> is_Some (dict_get d k).
Proof.
  destruct (dict_get d k) eqn:Hget.
  - split; [by eauto|]. intros _. destruct (decide (k ∈ dict_keys d)) as [|Hnot]; [done|].
    apply dict_get_None in Hnot. congruence.
  - apply dict_get_None in Hget. split; [done|]. by intros [? ?].
Qed.

Lemma dict_get_Some_elem_of {V} (d : dict V) k v : dict_get d k = Some v -> (k, v) ∈ d.
Proof.
  induction d as [|[k' v'] d IH]; simpl; [done|].
  destruct (String.eqb_spec k' k) as [->|_].
  - intros [= ->]. apply list_elem_of_here.
  - intros H. by apply list_elem_of_further, IH.
Qed.

Lemma find_last_Some {A} (f : A -> bool) l x :
  find_last f l = Some x -> f x = true /\ x ∈ l.
Proof.
  induction l as [|y l IH]; simpl; [done|].
  destruct (find_last f l) as [z|].
  - intros [= ->]. destruct IH as [? ?]; [done|]. split; [done|]. by apply list_elem_of_further.
  - destruct (f y) eqn:Hy; [|done]. intros [= ->]. split; [done|]. apply list_elem_of_here.
Qed.

Lemma find_last_is_Some {A} (f : A -> bool) l x :
  x ∈ l -> f x = true -> is_Some (find_last f l).
Proof.
  induction l as [|y l IH]; [by intros ?%elem_of_nil|].
  intros [->|Hin]%elem_of_cons Hx; simpl.
  - destruct (find_last f l); [by eauto|]. rewrite Hx. by eauto.
  - destruct (IH Hin Hx) as [z ->]. by eauto.
Qed.

Lemma find_last_None {A} (f : A -> bool) l :
  (forall x, x ∈ l -> f x = false) -> find_last f l = None.
Proof.
  intros Hall. destruct (find_last f l) as [x|] eqn:Hfind; [|done].
  apply find_last_Some in Hfind as [Hx Hin]. rewrite (Hall x Hin) in Hx. done.
Qed.

Lemma dict_keys_set {V} (d : dict V) k v :
  dict_keys (dict_set d k v)
  = if dict_contains d k then dict_keys d else dict_keys d ++ [k].
Proof.
  unfold dict_contains, dict_keys. induction d as [|[k' v'] d IH]; [done|].
  cbn [dict_set dict_get]. destruct (String.eqb k' k); [done|].
  rewrite !fmap_cons, IH. by destruct (dict_get d k).
Qed.

(** Writing to a dict keeps its keys distinct. *)
Lemma dict_set_NoDup {V} (d : dict V) k v :
  NoDup (dict_keys d) -> NoDup (dict_keys (dict_set d k v)).
Proof.
  intros Hnd. rewrite dict_keys_set. unfold dict_contains.
  destruct (dict_get d k) eqn:Hget; [done|].
  apply NoDup_app. split; [done|]. split; [|apply NoDup_singleton].
  intros x Hx [->|[]%elem_of_nil]%elem_of_cons. by apply dict_get_None in Hget.
Qed.

Lemma dict_union_cons {V} (a : dict V) k v b :
  dict_union a ((k, v) :: b) = dict_union (dict_set a k v) b.
Proof. reflexivity. Qed.

Lemma dict_union_NoDup {V} (a b : dict V) :
  NoDup (dict_keys a) -> NoDup (dict_keys (dict_union a b)).
Proof.
  revert a. induction b as [|[k v] b IH]; intros a Hnd; [done|].
  rewrite dict_union_cons. by apply IH, dict_set_NoDup.
Qed.

Lemma dict_last_cons {V} k' (v' : V) b k :
  dict_last ((k', v') :: b) k
  = match dict_last b k with
    | Some v => Some v
    | None => if String.eqb k' k then Some v' else None
    end.
Proof.
  unfold dict_last. simpl.
  destruct (find_last _ b); [done|]. by destruct (String.eqb k' k).
Qed.

(** In a union the entries of the right operand win, the last one for
    each key. *)
Lemma dict_get_union {V} (a b : dict V) k :
  dict_get (dict_union a b) k
  = match dict_last b k with
    | Some v => Some v
    | None => dict_get a k
    end.
Proof.
  revert a. induction b as [|[k' v'] b IH]; intros a; [done|].
  rewrite dict_union_cons, IH, dict_last_cons, dict_get_set.
  destruct (dict_last b k); [done|]. by destruct (String.eqb k' k).
Qed.

Lemma dict_last_elem_of {V} (b : dict V) k v : dict_last b k = Some v -> (k, v) ∈ b.
Proof.
  unfold dict_last. destruct (find_last _ b) as [[k' v']|] eqn:Hfind; [|done].
  apply find_last_Some in Hfind as [Heq Hin]. simpl in Heq.
  apply String.eqb_eq in Heq as ->. by intros [= <-].
Qed.

Lemma dict_last_is_Some {V} (b : dict V) k v : (k, v) ∈ b -> is_Some (dict_last b k).
Proof.
  intros Hin. unfold dict_last.
  destruct (find_last_is_Some (fun entry : string * V => String.eqb entry.1 k) b (k, v) Hin)
    as [entry ->]; [apply String.eqb_refl|]. by eauto.
Qed.

Lemma dict_last_NoDup {V} (b : dict V) k :
  NoDup (dict_keys b) -> dict_last b k = dict_get b k.
Proof.
  intros Hnd. destruct (dict_last b k) as [v|] eqn:Hlast.
  - symmetry. by apply dict_get_elem_of, dict_last_elem_of.
  - destruct (dict_get b k) as [v|] eqn:Hget; [|done].
    apply dict_get_Some_elem_of, dict_last_is_Some in Hget as [? ?]. congruence.
Qed.

End ProcFacts.

(** ** Selecting a listening position *)

Module SelectOptionFacts.

Import PyFacts ProcFacts Select SelectFacts ListeningPositionSelect.

(** X11.  Rebuilding the catalog and selecting from it.  After a rebuild
    over scenes that form a dict, each listening position having at least
    one action, an option is offered exactly when some scene is a
    listening position with that label; selecting it triggers the first
    such scene, in the order of the scenes, and nothing else.  Selecting
    anything else raises [KeyError] before a request is made. *)
Theorem select_listening_position (client : Responses)
    (group : option SpeakerGroupOverview.t) (e : Entity) (option : string) :
  NoDup (dict_keys (all_scenes client)) ->
  (forall key scene, (key, scene) ∈ all_scenes client ->
     is_Some (listening_position_label scene) -> Scene.action_list scene <> []) ->
  let e' := after (_update_listening_positions client group e) in
  (option ∈ _attr_options e' <-> is_Some (dict_get (labelled (all_scenes client)) option)) /\
  async_select_option option e'
  = match dict_get (labelled (all_scenes client)) option with
    | Some key => (Ok tt, e', [Call (post_scene_trigger key)])
    | None => (Raise KeyError, e', [])
    end.
Proof.
  intros Hnd Hactions e'.
  destruct (update_listening_positions_run client group e Hnd Hactions)
    as (e1 & fetched & Hrun & Hpos & Hopt).
  subst e'. rewrite Hrun. unfold after. simpl.
  assert (forall k, dict_get (_listening_positions e1) k
                    = dict_get (labelled (all_scenes client)) k) as Hget.
  { intros k. by rewrite Hpos, catalog_get. }
  split.
  - by rewrite Hopt, dict_keys_get, Hget.
  - unfold async_select_option. step. rewrite Hget.
    by destruct (dict_get (labelled (all_scenes client)) option).
Qed.

Lemma select_listening_position_witness :
  ("Sofa" ∈ _attr_options
     (after (_update_listening_positions Sample.scene_responses None Sample.select))) /\
  async_select_option "Sofa"
    (after (_update_listening_positions Sample.scene_responses None Sample.select))
  = (Ok tt, after (_update_listening_positions Sample.scene_responses None Sample.select),
     [Call (post_scene_trigger "scene-1")]) /\
  async_select_option "Party"
    (after (_update_listening_positions Sample.scene_responses None Sample.select))
  = (Raise KeyError,
     after (_update_listening_positions Sample.scene_responses None Sample.select), []).
Proof.
  assert (NoDup (dict_keys (all_scenes Sample.scene_responses))) as Hnd
    by (apply (bool_decide_unpack _); vm_compute; exact I).
  assert (forall key scene, (key, scene) ∈ all_scenes Sample.scene_responses ->
            is_Some (listening_position_label scene) -> Scene.action_list scene <> [])
    as Hactions.
  { intros key scene Hin Hlabel.
    repeat (apply elem_of_cons in Hin as [Heq|Hin];
            [injection Heq as -> ->; try discriminate|]).
    - destruct Hlabel as [label Hlabel]. vm_compute in Hlabel. discriminate.
    - by apply elem_of_nil in Hin. }
  destruct (select_listening_position Sample.scene_responses None Sample.select "Sofa"
              Hnd Hactions) as [Hoffered Hsofa].
  destruct (select_listening_position Sample.scene_responses None Sample.select "Party"
              Hnd Hactions) as [_ Hparty].
  split; [|split].
  - apply Hoffered. by eexists.
  - exact Hsofa.
  - exact Hparty.
Defined.

End SelectOptionFacts.

(** ** The sound modes *)

Module SoundModeFacts.

Import PyFacts ProcFacts Vocabulary JidFacts SoundModeSelect.

Lemma digits_no_space d : count_char " " (NilEmpty.string_of_uint d) = 0%nat.
Proof. induction d; simpl; done. Qed.

Lemma str_of_int_no_space n : count_char " " (str_of_int n) = 0%nat.
Proof.
  unfold str_of_int, NilZero.string_of_int, NilZero.string_of_uint.
  destruct (Z.to_int n) as [d|d]; destruct d; simpl; try done; apply digits_no_space.
Qed.

Lemma str_of_int_inj a b : str_of_int a = str_of_int b -> a = b.
Proof.
  unfold str_of_int. intros Heq. apply DecimalZ.to_int_inj.
  assert (forall n, NilZero.int_of_string (NilZero.string_of_int (Z.to_int n))
                    = Some (Z.to_int n)) as Hparse.
  { intros n. apply NilZero.isi; destruct n; simpl; try done;
      intros [= H]; by apply Unsigned.to_uint_nonnil in H. }
  pose proof (Hparse a) as Ha. rewrite Heq, Hparse in Ha. congruence.
Qed.

Lemma append_empty s : s +:+ "" = s.
Proof.
  induction s as [|ch s IH]; [done|].
  change (String ch (s +:+ "") = String ch s). by rewrite IH.
Qed.

Lemma append_assoc a b c : (a +:+ b) +:+ c = a +:+ (b +:+ c).
Proof.
  induction a as [|ch a IH]; [done|].
  change (String ch ((a +:+ b) +:+ c) = String ch (a +:+ (b +:+ c))). by rewrite IH.
Qed.

Lemma str_split_cons sep ch s :
  str_split sep (String ch s)
  = if Ascii.eqb ch sep then EmptyString :: str_split sep s
    else match str_split sep s with
         | [] => [String ch EmptyString]
         | w :: ws => String ch w :: ws
         end.
Proof. reflexivity. Qed.

(** A text without a space, after a space, is the last word. *)
Lemma last_word a d :
  count_char " " d = 0%nat ->
  last (str_split " " (a +:+ String " " d)) = Some d.
Proof.
  intros Hd.
  assert (str_split " " d = [d]) as Hword.
  { pose proof (str_split_prefix " " d "" Hd) as H. simpl in H. by rewrite !append_empty in H. }
  induction a as [|ch a IH].
  - rewrite (str_split_app " " "" d), Hword; reflexivity.
  - change (String ch a +:+ String " " d) with (String ch (a +:+ String " " d)).
    rewrite str_split_cons.
    pose proof (str_split_length " " (a +:+ String " " d)) as Hlen.
    assert (0 < count_char " " (a +:+ String " " d))%nat as Hspace.
    { clear. induction a as [|c a IH]; simpl; [lia|].
      change (String c a +:+ String " " d) with (String c (a +:+ String " " d)) in *.
      simpl. lia. }
    destruct (str_split " " (a +:+ String " " d)) as [|w [|w' ws]]; simpl in Hlen; [lia|lia|].
    by destruct (Ascii.eqb ch " ").
Qed.

Lemma label_carries_id name id :
  last (str_split " " (format_str name +:+ " - " +:+ str_of_int id)) = Some (str_of_int id).
Proof.
  replace (format_str name +:+ " - " +:+ str_of_int id)
    with ((format_str name +:+ " -") +:+ String " " (str_of_int id)).
  - apply last_word, str_of_int_no_space.
  - by rewrite append_assoc.
Qed.

(** The label names the mode: two modes with the same label have the
    same ID, whatever their names are. *)
Lemma sound_mode_label_id m1 m2 :
  sound_mode_label m1 = sound_mode_label m2 -> ListeningMode.id m1 = ListeningMode.id m2.
Proof.
  unfold sound_mode_label. intros Heq. apply str_of_int_inj.
  pose proof (label_carries_id (ListeningMode.name m1) (ListeningMode.id m1)) as H1.
  rewrite Heq, label_carries_id in H1. congruence.
Qed.

Lemma active_mode_cons m modes active :
  active_mode (m :: modes) active
  = match active_mode modes active with
    | Some m' => Some m'
    | None =>
        if opt_Z_eqb (Some (ListeningMode.id m)) (ListeningModeRef.id active)
        then Some m else None
    end.
Proof. reflexivity. Qed.

Lemma mode_labelled_cons m modes label :
  mode_labelled (m :: modes) label
  = match mode_labelled modes label with
    | Some m' => Some m'
    | None => if String.eqb (sound_mode_label m) label then Some m else None
    end.
Proof. reflexivity. Qed.

Lemma sound_modes_loop active modes e :
  exists e',
    for_all modes (sound_mode_step active) e = (Ok tt, e', []) /\
    _sound_modes e' = sound_modes_after modes (_sound_modes e) /\
    _attr_current_option e'
    = match active_mode modes active with
      | Some m => Some (sound_mode_label m)
      | None => _attr_current_option e
      end /\
    _attr_options e' = _attr_options e.
Proof.
  revert e. induction modes as [|m modes IH]; intros e.
  - by exists e.
  - simpl for_all. rewrite step_bind. unfold sound_mode_step at 1. step.
    rewrite active_mode_cons.
    destruct (opt_Z_eqb (Some (ListeningMode.id m)) (ListeningModeRef.id active)) eqn:Hactive;
      step.
    + destruct (IH (set_attr_current_option (Some (sound_mode_label m))
                      (set_sound_modes (dict_set (_sound_modes e) (sound_mode_label m)
                                          (ListeningMode.id m)) e)))
        as (e' & Hrun & Hmodes & Hcur & Hopt).
      exists e'. rewrite Hrun, Hmodes, Hcur, Hopt. repeat split.
      destruct (active_mode modes active); simpl; rewrite ?Hactive; reflexivity.
    + destruct (IH (set_sound_modes (dict_set (_sound_modes e) (sound_mode_label m)
                                       (ListeningMode.id m)) e))
        as (e' & Hrun & Hmodes & Hcur & Hopt).
      exists e'. rewrite Hrun, Hmodes, Hcur, Hopt. repeat split.
      destruct (active_mode modes active); simpl; rewrite ?Hactive; reflexivity.
Qed.

Lemma sound_modes_after_get modes d label :
  dict_get (sound_modes_after modes d) label
  = match mode_labelled modes label with
    | Some m => Some (ListeningMode.id m)
    | None => dict_get d label
    end.
Proof.
  revert d. induction modes as [|m modes IH]; intros d; [done|].
  simpl. rewrite IH, mode_labelled_cons.
  destruct (mode_labelled modes label); [done|].
  rewrite dict_get_set. by destruct (String.eqb (sound_mode_label m) label).
Qed.

Lemma update_sound_modes_run client active e :
  exists e',
    _update_sound_modes client active e
    = (Ok tt, e',
       Call get_listening_mode_set ::
       match active with
       | Some _ => []
       | None => [Call get_active_listening_mode]
       end ++ [Event WriteHaState]) /\
    _sound_modes e' = sound_modes_after (listening_mode_set client) (_sound_modes e) /\
    _attr_current_option e'
    = match active_mode (listening_mode_set client)
              (default (active_listening_mode client) active) with
      | Some m => Some (sound_mode_label m)
      | None => _attr_current_option e
      end /\
    _attr_options e' = dict_keys (_sound_modes e').
Proof.
  unfold _update_sound_modes.
  destruct (sound_modes_loop (default (active_listening_mode client) active)
              (listening_mode_set client) e) as (e1 & Hrun & Hmodes & Hcur & Hopt).
  exists (set_attr_options (dict_keys (_sound_modes e1)) e1).
  destruct active as [a|]; simpl in Hrun, Hcur |- *; step; rewrite Hrun; step;
    rewrite <- Hmodes, <- Hcur; done.
Qed.

Lemma listed_mode_selectable client e m :
  m ∈ listening_mode_set client ->
  dict_get (sound_modes_after (listening_mode_set client) (_sound_modes e))
    (sound_mode_label m) = Some (ListeningMode.id m).
Proof.
  intros Hin. rewrite sound_modes_after_get.
  destruct (find_last_is_Some (fun m' => String.eqb (sound_mode_label m') (sound_mode_label m))
              _ m Hin (String.eqb_refl _)) as [m' Hm'].
  unfold mode_labelled. rewrite Hm'. apply find_last_Some in Hm' as [Heq _].
  apply String.eqb_eq in Heq. by rewrite (sound_mode_label_id _ _ Heq).
Qed.

(** X12.  Every sound mode the device lists can be selected.  After an
    update, whatever the select held before and whichever mode is active,
    the label of each listed mode is among the options, and selecting it
    activates the mode with that mode's ID: the ID in the label keeps two
    modes of the same name apart. *)
Theorem select_sound_mode (client : SelectResponses)
    (active : option ListeningModeRef.t) (e : Entity) (m : ListeningMode.t) :
  m ∈ listening_mode_set client ->
  let r := _update_sound_modes client active e in
  outcome_of r = Ok tt /\
  sound_mode_label m ∈ _attr_options (state_of r) /\
  async_select_option (sound_mode_label m) (state_of r)
  = (Ok tt, state_of r, [Call (activate_listening_mode (ListeningMode.id m))]).
Proof.
  intros Hin r. subst r.
  destruct (update_sound_modes_run client active e) as (e' & -> & Hmodes & _ & Hopt).
  unfold outcome_of, state_of. simpl.
  pose proof (listed_mode_selectable client e m Hin) as Hget. rewrite <- Hmodes in Hget.
  split; [done|]. split.
  - rewrite Hopt. apply dict_keys_get. by eauto.
  - unfold async_select_option. step. by rewrite Hget.
Qed.

Lemma select_sound_mode_witness :
  outcome_of (_update_sound_modes Examples.sound_mode_responses None
                Examples.sound_mode_select) = Ok tt /\
  ("None - 3" ∈ _attr_options
     (state_of (_update_sound_modes Examples.sound_mode_responses None
                  Examples.sound_mode_select))) /\
  async_select_option "None - 3"
    (state_of (_update_sound_modes Examples.sound_mode_responses None
                 Examples.sound_mode_select))
  = (Ok tt,
     state_of (_update_sound_modes Examples.sound_mode_responses None
                 Examples.sound_mode_select),
     [Call (activate_listening_mode 3)]).
Proof.
  apply (select_sound_mode Examples.sound_mode_responses None Examples.sound_mode_select
           {| ListeningMode.id := 3; ListeningMode.name := None |}).
  do 2 apply list_elem_of_further. apply list_elem_of_here.
Defined.

(** X13.  The sound modes are never forgotten.  The update writes the
    options from the catalog, and every option the catalog held before
    is still offered afterwards: an option that is the label of no listed
    mode is selected afterwards exactly as before, with the ID it had. *)
Theorem sound_modes_accumulate (client : SelectResponses)
    (active : option ListeningModeRef.t) (e : Entity) :
  let e' := state_of (_update_sound_modes client active e) in
  _attr_options e' = dict_keys (_sound_modes e') /\
  (forall option, option ∈ dict_keys (_sound_modes e) -> option ∈ _attr_options e') /\
  (forall option,
     (forall m, m ∈ listening_mode_set client -> sound_mode_label m <> option) ->
     outcome_of (async_select_option option e') = outcome_of (async_select_option option e) /\
     effects_of (async_select_option option e') = effects_of (async_select_option option e)).
Proof.
  intros e'. subst e'.
  destruct (update_sound_modes_run client active e) as (e' & -> & Hmodes & _ & Hopt).
  unfold state_of. simpl. split; [done|]. split.
  - intros option Hin. rewrite Hopt. apply dict_keys_get.
    rewrite Hmodes, sound_modes_after_get.
    destruct (mode_labelled _ option); [by eauto|]. by apply dict_keys_get.
  - intros option Hnew.
    assert (dict_get (_sound_modes e') option = dict_get (_sound_modes e) option) as Hget.
    { rewrite Hmodes, sound_modes_after_get. unfold mode_labelled.
      rewrite find_last_None; [done|].
      intros m Hin. apply String.eqb_neq. by apply Hnew. }
    unfold async_select_option. step. rewrite Hget.
    by destruct (dict_get (_sound_modes e) option).
Qed.

Lemma sound_modes_accumulate_witness :
  _attr_options (state_of (_update_sound_modes Examples.sound_mode_responses None
                             Examples.sound_mode_select))
  = ["Night - 7"; "Speech - 1"; "Music - 2"; "None - 3"] /\
  effects_of (async_select_option "Night - 7"
                (state_of (_update_sound_modes Examples.sound_mode_responses None
                             Examples.sound_mode_select)))
  = [Call (activate_listening_mode 7)].
Proof.
  destruct (sound_modes_accumulate Examples.sound_mode_responses None
              Examples.sound_mode_select) as (Hoptions & _ & Hstale).
  split.
  - rewrite Hoptions. reflexivity.
  - destruct (Hstale "Night - 7") as [_ ->]; [|reflexivity].
    intros m Hin.
    repeat (apply elem_of_cons in Hin as [->|Hin]; [discriminate|]).
    by apply elem_of_nil in Hin.
Defined.

(** X14.  The current option after an update.  When the active mode (the
    one given, or else the one the device reports) has the ID of a listed
    mode, the current option is an offered label, and selecting it
    activates the active ID again.  When no listed mode has the active ID
    the current option stays what it was. *)
Theorem sound_mode_current_option (client : SelectResponses)
    (active : option ListeningModeRef.t) (e : Entity) :
  let a := default (active_listening_mode client) active in
  let e' := state_of (_update_sound_modes client active e) in
  (forall id,
     ListeningModeRef.id a = Some id ->
     (exists m, m ∈ listening_mode_set client /\ ListeningMode.id m = id) ->
     exists label,
       _attr_current_option e' = Some label /\ label ∈ _attr_options e' /\
       async_select_option label e' = (Ok tt, e', [Call (activate_listening_mode id)])) /\
  ((forall m, m ∈ listening_mode_set client ->
      ListeningModeRef.id a <> Some (ListeningMode.id m)) ->
   _attr_current_option e' = _attr_current_option e).
Proof.
  intros a e'. subst e'.
  destruct (update_sound_modes_run client active e) as (e' & -> & Hmodes & Hcur & Hopt).
  unfold state_of. simpl. fold a in Hcur. split.
  - intros id Ha (m & Hin & Hid).
    destruct (find_last_is_Some
                (fun m => opt_Z_eqb (Some (ListeningMode.id m)) (ListeningModeRef.id a))
                _ m Hin) as [m' Hm'].
    { rewrite Ha, Hid. simpl. apply Z.eqb_refl. }
    unfold active_mode in Hcur. rewrite Hm' in Hcur.
    apply find_last_Some in Hm' as [Hactive Hin'].
    rewrite Ha in Hactive. simpl in Hactive. apply Z.eqb_eq in Hactive.
    pose proof (listed_mode_selectable client e m' Hin') as Hget. rewrite <- Hmodes in Hget.
    exists (sound_mode_label m'). split; [done|]. split.
    + rewrite Hopt. apply dict_keys_get. by eauto.
    + unfold async_select_option. step. rewrite Hget. by rewrite Hactive.
  - intros Hnone. rewrite Hcur. unfold active_mode. rewrite find_last_None; [done|].
    intros m Hin. specialize (Hnone m Hin).
    destruct (ListeningModeRef.id a) as [id|]; simpl; [|done].
    apply Z.eqb_neq. congruence.
Qed.

Lemma sound_mode_current_option_witness :
  exists label,
    _attr_current_option
      (state_of (_update_sound_modes Examples.sound_mode_responses None
                   Examples.sound_mode_select)) = Some label /\
    (label ∈ _attr_options
       (state_of (_update_sound_modes Examples.sound_mode_responses None
                    Examples.sound_mode_select))) /\
    async_select_option label
      (state_of (_update_sound_modes Examples.sound_mode_responses None
                   Examples.sound_mode_select))
    = (Ok tt,
       state_of (_update_sound_modes Examples.sound_mode_responses None
                   Examples.sound_mode_select),
       [Call (activate_listening_mode 2)]).
Proof.
  apply (proj1 (sound_mode_current_option Examples.sound_mode_responses None
                  Examples.sound_mode_select) 2).
  - reflexivity.
  - exists {| ListeningMode.id := 2; ListeningMode.name := Some "Music" |}.
    split; [|reflexivity]. apply list_elem_of_further, list_elem_of_here.
Defined.

End SoundModeFacts.

(** ** The media player, continued *)

Module PlayerFacts.

Import PyFacts ProcFacts MediaPlayer Player.

Lemma find_invalid (check_valid_jid : string -> bool) (jids : list string) :
  List.find (fun jid => negb (check_valid_jid jid)) jids = None
  <-> forallb check_valid_jid jids = true.
Proof.
  induction jids as [|jid jids IH]; simpl; [done|].
  destruct (check_valid_jid jid); simpl; [done|]. split; done.
Qed.

(** X15.  Unexpanding is all or nothing, and silent.  When every JID is
    valid one task is created that sends an unexpand request followed by
    a one second sleep for each JID in order, as expanding does with
    expand requests.  When some JID is not valid nothing at all happens:
    no request, no task, and, unlike expanding, which names an invalid
    JID in an error, no log record. *)
Theorem unexpand_all_or_nothing (check_valid_jid : string -> bool)
    (beolink_jids : list string) (e : Entity) :
  let r := async_beolink_unexpand check_valid_jid beolink_jids e in
  let r' := async_beolink_expand check_valid_jid beolink_jids (base e) in
  outcome_of r = Ok tt /\ state_of r = e /\ result r' = Ok tt /\
  (forallb check_valid_jid beolink_jids = true ->
   effects_of r
   = [Task (flat_map (fun jid => [Call (post_beolink_unexpand jid); Event (Sleep 1)])
              beolink_jids)] /\
   trace r' = [expand_task beolink_jids]) /\
  (forallb check_valid_jid beolink_jids = false ->
   effects_of r = [] /\
   exists jid, jid ∈ beolink_jids /\ check_valid_jid jid = false /\
               trace r' = [Log LOG_ERROR "Invalid Beolink JID: %s" [LStr jid]]).
Proof.
  intros r r'. subst r r'. unfold async_beolink_unexpand, async_beolink_expand.
  pose proof (find_invalid check_valid_jid beolink_jids) as Hfind.
  destruct (List.find _ beolink_jids) as [bad|] eqn:Hbad.
  - assert (forallb check_valid_jid beolink_jids = false) as Hall.
    { destruct (forallb check_valid_jid beolink_jids); [|done].
      destruct Hfind as [_ Hfind]. by specialize (Hfind eq_refl). }
    rewrite Hall. split; [done|]. split; [done|]. split; [done|]. split; [done|].
    intros _. split; [done|].
    apply find_some in Hbad as [Hin Hbad]. exists bad.
    split; [by apply list_elem_of_In|]. split; [by destruct (check_valid_jid bad)|done].
  - destruct Hfind as [Hfind _]. rewrite (Hfind eq_refl).
    split; [done|]. split; [done|]. split; [done|]. split; [|done].
    intros _. step. unfold _beolink_unexpand, _beolink_expand.
    rewrite (for_all_effects _ _
               (fun jid => [Call (post_beolink_unexpand jid); Event (Sleep 1)])); [|done].
    unfold this, emit, trace. simpl.
    rewrite (for_each_trace _ _
               (fun jid => [Request (post_beolink_expand jid); Sleep 1])); [|done].
    done.
Qed.

Lemma unexpand_all_or_nothing_witness :
  effects_of (async_beolink_unexpand Sample.check_valid_jid
                [Sample.jid_kitchen; Sample.jid_bedroom]
                (Examples.player (Sample.living_room None)))
  = [Task [Call (post_beolink_unexpand Sample.jid_kitchen); Event (Sleep 1);
           Call (post_beolink_unexpand Sample.jid_bedroom); Event (Sleep 1)]] /\
  effects_of (async_beolink_unexpand Sample.check_valid_jid [Sample.jid_kitchen; "attic"]
                (Examples.player (Sample.living_room None)))
  = [].
Proof.
  split.
  - apply (proj1 (proj2 (proj2 (proj2
             (unexpand_all_or_nothing Sample.check_valid_jid
                [Sample.jid_kitchen; Sample.jid_bedroom]
                (Examples.player (Sample.living_room None))))))).
    reflexivity.
  - apply (proj2 (proj2 (proj2 (proj2
             (unexpand_all_or_nothing Sample.check_valid_jid [Sample.jid_kitchen; "attic"]
                (Examples.player (Sample.living_room None))))))).
    reflexivity.
Defined.

Lemma seek_position_finite position ms :
  int_of_float (fmul position (float_of_int 1000)) = Ok ms ->
  exists p, int_of_float position = Ok p.
Proof.
  destruct position as [s|s| |s m e]; simpl; try done; by eauto.
Qed.

(** X16.  Seeking.  Unless the source is Deezer a seek logs an error and
    does nothing else, whatever the position is.  On Deezer a position
    whose milliseconds are no integer (a NaN, an infinity) raises before
    anything is sent or stored; any other position is sent in
    milliseconds, the update time becomes the clock's, the state is
    written, and the position property then answers with the whole
    seconds of the position, or with null while the device listens to a
    remote leader. *)
Theorem seek_then_position (c : Consts) (k : PlayerConsts) (platform : Platform)
    (position : float) (e : Entity) :
  let r := async_media_seek c k platform position e in
  (source c (base e) <> Some (SOURCE_ENUM_deezer k) ->
   r = (Ok tt, e,
        [Event (Log LOG_ERROR "Seeking is currently only supported when using Deezer" [])])) /\
  (source c (base e) = Some (SOURCE_ENUM_deezer k) ->
   (forall err, int_of_float (fmul position (float_of_int 1000)) = Raise err ->
      r = (Raise err, e, [])) /\
   (forall ms, int_of_float (fmul position (float_of_int 1000)) = Ok ms ->
      exists p,
        int_of_float position = Ok p /\
        outcome_of r = Ok tt /\
        effects_of r = [Call (seek_to_position ms); Event WriteHaState] /\
        base (state_of r) = base e /\
        _last_update (state_of r) = utcnow platform /\
        media_position (state_of r)
        = match _remote_leader (base e) with
          | None => Some p
          | Some _ => None
          end)).
Proof.
  intros r. subst r. unfold async_media_seek. step. split.
  - intros Hsource.
    destruct (opt_eqb (source c (base e)) (Some (SOURCE_ENUM_deezer k))) eqn:Heq; [|done].
    by apply opt_eqb_eq in Heq.
  - intros Hsource.
    assert (opt_eqb (source c (base e)) (Some (SOURCE_ENUM_deezer k)) = true) as ->
      by by apply opt_eqb_eq.
    split.
    + intros err ->. done.
    + intros ms Hms. destruct (seek_position_finite position ms Hms) as [p Hp].
      exists p. rewrite Hms, Hp. step. done.
Qed.

Lemma seek_then_position_witness :
  async_media_seek Sample.consts Examples.player_consts Examples.platform
    (float_of_int 90) (Examples.player (Sample.living_room None))
  = (Ok tt, Examples.player (Sample.living_room None),
     [Event (Log LOG_ERROR "Seeking is currently only supported when using Deezer" [])]) /\
  exists p,
    int_of_float (float_of_int 90) = Ok p /\
    outcome_of (async_media_seek Sample.consts Examples.player_consts Examples.platform
                  (float_of_int 90) (Examples.player Examples.on_deezer)) = Ok tt /\
    effects_of (async_media_seek Sample.consts Examples.player_consts Examples.platform
                  (float_of_int 90) (Examples.player Examples.on_deezer))
    = [Call (seek_to_position 90000); Event WriteHaState] /\
    base (state_of (async_media_seek Sample.consts Examples.player_consts Examples.platform
                      (float_of_int 90) (Examples.player Examples.on_deezer)))
    = Examples.on_deezer /\
    _last_update (state_of (async_media_seek Sample.consts Examples.player_consts
                              Examples.platform (float_of_int 90)
                              (Examples.player Examples.on_deezer)))
    = 1700000000 /\
    media_position (state_of (async_media_seek Sample.consts Examples.player_consts
                                Examples.platform (float_of_int 90)
                                (Examples.player Examples.on_deezer)))
    = Some p.
Proof.
  split.
  - apply (proj1 (seek_then_position Sample.consts Examples.player_consts Examples.platform
                    (float_of_int 90) (Examples.player (Sample.living_room None)))).
    discriminate.
  - apply (proj2 (proj2 (seek_then_position Sample.consts Examples.player_consts
                           Examples.platform (float_of_int 90)
                           (Examples.player Examples.on_deezer)) eq_refl) 90000).
    reflexivity.
Defined.

(** The volume of an overlay that leaves the stored level alone. *)
Lemma overlay_volume_spec absolute_volume volume_offset e volume :
  overlay_volume absolute_volume volume_offset e = Some volume ->
  absolute_volume = Some volume \/
  (truthy_int absolute_volume = None /\ volume <= 100 /\
   exists level offset,
     truthy_level (_volume (base e)) = Some level /\ volume_offset = Some offset /\
     volume = Z.min (level + offset) 100).
Proof.
  unfold overlay_volume, truthy_int.
  destruct absolute_volume as [a|]; [destruct (a =? 0)|];
    try (intros [= <-]; by left).
  all: destruct volume_offset as [o|]; [destruct (o =? 0)|]; try done.
  all: destruct (truthy_level (_volume (base e))) as [level|]; try done.
  all: intros [= <-]; right; split; [done|]; split; [lia|]; by exists level, o.
Qed.

(** An overlay given both volumes logs an error and returns. *)
Lemma overlay_both_volumes platform models uri absolute_volume volume_offset tts
    tts_language e :
  is_Some (truthy_int absolute_volume) -> is_Some (truthy_int volume_offset) ->
  async_overlay_audio platform models uri absolute_volume volume_offset tts tts_language e
  = (Ok tt, e,
     [Event (Log LOG_ERROR
               "Can't define absolute volume and volume offset at the same time" [])]).
Proof. intros [? Ha] [? Ho]. unfold async_overlay_audio. by rewrite Ha, Ho. Qed.

(** An overlay not given both volumes: the warning it may log for the
    volume, then the request it builds, if it has something to play. *)
Lemma overlay_run platform models uri absolute_volume volume_offset tts tts_language e :
  truthy_int absolute_volume = None \/ truthy_int volume_offset = None ->
  exists warning,
    calls warning = [] /\
    async_overlay_audio platform models uri absolute_volume volume_offset tts tts_language e
    = let volume := overlay_volume absolute_volume volume_offset e in
      let played (request : outcome OverlayPlayRequest.t) :=
        match request with
        | Ok request => (Ok tt, e, warning ++ [Call (post_overlay_play request)])
        | Raise err => (Raise err, e, warning)
        end in
      match truthy_str tts, truthy_str uri with
      | Some _, Some _ =>
          (Ok tt, e,
           [Event (Log LOG_ERROR "Can't define URI and TTS message at the same time" [])])
      | None, Some location => played (uri_request platform models location volume)
      | Some message, None => played (tts_request models message tts_language volume)
      | None, None => (Ok tt, e, warning)
      end.
Proof.
  intros Hvolumes.
  exists (match truthy_int absolute_volume, truthy_int volume_offset,
                truthy_level (_volume (base e)) with
          | None, Some _, None => [Event (Log LOG_WARNING "Error setting volume" [])]
          | _, _, _ => []
          end).
  split; [by repeat case_match|].
  unfold async_overlay_audio, overlay_volume, uri_request, tts_request, built, construct.
  destruct (truthy_int absolute_volume) as [absolute|],
    (truthy_int volume_offset) as [offset|]; [by destruct Hvolumes| | |].
  all: destruct (truthy_str tts) as [message|], (truthy_str uri) as [location|]; step.
  all: try destruct (truthy_level (_volume (base e))) as [level|]; step;
    cbn [fmap option_fmap option_map]; try reflexivity.
  all: try (destruct (is_media_source_id platform location);
            [destruct (resolved_media_url platform location) as [media_id|err]|]; step;
            try reflexivity).
  all: repeat case_match; simplify_eq; step; try reflexivity.
Qed.

Lemma calls_app t t' : calls (t ++ t') = calls t ++ calls t'.
Proof. apply omap_app. Qed.

Lemma calls_nil_not_elem t r : calls t = [] -> Call r ∉ t.
Proof.
  intros Hcalls Hin. assert (r ∈ calls t) as Hr.
  { apply list_elem_of_omap. by exists (Call r). }
  rewrite Hcalls in Hr. by apply elem_of_nil in Hr.
Qed.

(** The requests carry the volume they are given. *)
Lemma uri_request_volume platform models location volume request :
  uri_request platform models location volume = Ok request ->
  OverlayPlayRequest.volume_absolute request = volume.
Proof. unfold uri_request, built. intros H. by repeat case_match; simplify_eq. Qed.

Lemma tts_request_volume models message tts_language volume request :
  tts_request models message tts_language volume = Ok request ->
  OverlayPlayRequest.volume_absolute request = volume.
Proof. unfold tts_request, built. intros H. by repeat case_match; simplify_eq. Qed.

(** X17.  What an overlay sends.  An overlay leaves the entity alone and
    makes at most one request; when it raises it has made none.  It
    completes without a request when a non-zero absolute volume and a
    non-zero offset are both given, when a URI and a message are both
    given, or when neither is.  Otherwise it has a URI or a message to
    play: it raises what the media source resolution or the first of the
    request models to refuse raises, and else completes after exactly one
    request, for the URI (a media source ID resolved) or for the message
    in the language given.  The volume of a request is the absolute volume
    given, or else the stored level plus the offset, capped at 100: an
    absolute volume of 0 counts as not given. *)
Theorem overlay_audio_volume (platform : Platform) (models : Models)
    (uri : option string) (absolute_volume volume_offset : option Z)
    (tts : option string) (tts_language : string) (e : Entity) :
  let r := async_overlay_audio platform models uri absolute_volume volume_offset tts
             tts_language e in
  let volume := overlay_volume absolute_volume volume_offset e in
  let played (request : outcome OverlayPlayRequest.t) :=
    match request with
    | Ok request =>
        outcome_of r = Ok tt /\ calls (effects_of r) = [post_overlay_play request]
    | Raise err => outcome_of r = Raise err /\ calls (effects_of r) = []
    end in
  state_of r = e /\
  (length (calls (effects_of r)) <= 1)%nat /\
  (forall err, outcome_of r = Raise err -> calls (effects_of r) = []) /\
  ((is_Some (truthy_int absolute_volume) /\ is_Some (truthy_int volume_offset)) \/
   (is_Some (truthy_str tts) /\ is_Some (truthy_str uri)) \/
   (truthy_str tts = None /\ truthy_str uri = None) ->
   outcome_of r = Ok tt /\ calls (effects_of r) = []) /\
  (truthy_int absolute_volume = None \/ truthy_int volume_offset = None ->
   (forall location, truthy_str uri = Some location -> truthy_str tts = None ->
      played (uri_request platform models location volume)) /\
   (forall message, truthy_str tts = Some message -> truthy_str uri = None ->
      played (tts_request models message tts_language volume))) /\
  (forall request volume,
     Call (post_overlay_play request) ∈ effects_of r ->
     OverlayPlayRequest.volume_absolute request = Some volume ->
     absolute_volume = Some volume \/
     (truthy_int absolute_volume = None /\ volume <= 100 /\
      exists level offset,
        truthy_level (_volume (base e)) = Some level /\ volume_offset = Some offset /\
        volume = Z.min (level + offset) 100)).
Proof.
  intros r volume played. subst r played.
  pose proof (overlay_volume_spec absolute_volume volume_offset e) as Hspec.
  fold volume in Hspec.
  destruct (truthy_int absolute_volume) as [absolute|] eqn:Habsolute.
  1: destruct (truthy_int volume_offset) as [offset|] eqn:Hoffset.
  1: { rewrite overlay_both_volumes by (rewrite ?Habsolute, ?Hoffset; by eexists).
       unfold outcome_of, state_of, effects_of. simpl.
       split; [done|]. split; [lia|]. split; [done|]. split; [done|].
       split; [by intros [|]|].
       intros request v Hin. set_unfold in Hin. by destruct Hin. }
  all: edestruct (overlay_run platform models uri absolute_volume volume_offset tts
                    tts_language e) as (warning & Hwarning & ->);
    [rewrite ?Habsolute, ?Hoffset; by auto|].
  all: cbv zeta; fold volume.
  all: destruct (truthy_str tts) as [message|] eqn:Htts,
         (truthy_str uri) as [location|] eqn:Huri;
    try destruct (uri_request platform models location volume) as [built|err] eqn:Hbuilt;
    try destruct (tts_request models message tts_language volume) as [built|err] eqn:Hbuilt;
    unfold outcome_of, state_of, effects_of; simpl;
    rewrite ?calls_app, ?Hwarning; simpl.
  all: split; [done|]; split; [lia|]; split; [by intros|]; split;
    [try (intros _; done);
     try (intros [[[? ?] [? ?]]|[[[? ?] [? ?]]|[? ?]]]; done)|].
  all: split;
    [intros _; split; intros ? ? ?; simplify_eq; try rewrite Hbuilt; done|].
  all: intros request v Hin Hv.
  all: try (by apply calls_nil_not_elem in Hin).
  all: try (by set_unfold in Hin; destruct Hin).
  all: apply elem_of_app in Hin as [Hin|Hin]; [by apply calls_nil_not_elem in Hin|].
  all: set_unfold in Hin; destruct Hin as [[= ->]|?]; [|done].
  all: apply Hspec; rewrite <- Hv; symmetry.
  all: first [by eapply uri_request_volume|by eapply tts_request_volume].
Qed.

Lemma overlay_audio_volume_witness :
  (outcome_of (async_overlay_audio Examples.platform Examples.models
                 (Some "http://192.168.0.9/bell.mp3") (Some 40) (Some 10) None "en-us"
                 (Examples.player (Sample.living_room (Some 95))))
   = Ok tt /\
   calls (effects_of (async_overlay_audio Examples.platform Examples.models
                        (Some "http://192.168.0.9/bell.mp3") (Some 40) (Some 10) None "en-us"
                        (Examples.player (Sample.living_room (Some 95)))))
   = []) /\
  (outcome_of (async_overlay_audio Examples.platform Examples.models
                 (Some "media-source://media_source/local/doorbell.mp3") (Some 0) (Some 10)
                 None "en-us" (Examples.player (Sample.living_room (Some 95))))
   = Ok tt /\
   calls (effects_of (async_overlay_audio Examples.platform Examples.models
                        (Some "media-source://media_source/local/doorbell.mp3") (Some 0)
                        (Some 10) None "en-us"
                        (Examples.player (Sample.living_room (Some 95)))))
   = [post_overlay_play
        {| OverlayPlayRequest.uri :=
             Some {| Uri.location := "http://192.168.0.1:8123/media/doorbell.mp3" |};
           OverlayPlayRequest.text_to_speech := None;
           OverlayPlayRequest.volume_absolute := Some 100 |}]) /\
  (outcome_of (async_overlay_audio Examples.platform Examples.models None (Some 40) None
                 (Some "Dinner is ready") "en-gb"
                 (Examples.player (Sample.living_room (Some 95))))
   = Ok tt /\
   calls (effects_of (async_overlay_audio Examples.platform Examples.models None (Some 40)
                        None (Some "Dinner is ready") "en-gb"
                        (Examples.player (Sample.living_room (Some 95)))))
   = [post_overlay_play
        {| OverlayPlayRequest.uri := None;
           OverlayPlayRequest.text_to_speech :=
             Some {| TextToSpeech.lang := "en-gb"; TextToSpeech.text := "Dinner is ready" |};
           OverlayPlayRequest.volume_absolute := Some 40 |}]) /\
  outcome_of (async_overlay_audio Examples.platform Examples.models None (Some 40) None
                (Some Examples.long_message) "en-gb"
                (Examples.player (Sample.living_room (Some 95))))
  = Raise ValueError /\
  calls (effects_of (async_overlay_audio Examples.platform Examples.models None (Some 40)
                       None (Some Examples.long_message) "en-gb"
                       (Examples.player (Sample.living_room (Some 95)))))
  = [].
Proof.
  destruct (overlay_audio_volume Examples.platform Examples.models
              (Some "http://192.168.0.9/bell.mp3") (Some 40) (Some 10) None "en-us"
              (Examples.player (Sample.living_room (Some 95))))
    as (_ & _ & _ & Hconflict & _).
  destruct (overlay_audio_volume Examples.platform Examples.models
              (Some "media-source://media_source/local/doorbell.mp3") (Some 0) (Some 10)
              None "en-us" (Examples.player (Sample.living_room (Some 95))))
    as (_ & _ & _ & _ & Huri & _).
  destruct (overlay_audio_volume Examples.platform Examples.models None (Some 40) None
              (Some "Dinner is ready") "en-gb"
              (Examples.player (Sample.living_room (Some 95))))
    as (_ & _ & _ & _ & Htts & _).
  destruct (overlay_audio_volume Examples.platform Examples.models None (Some 40) None
              (Some Examples.long_message) "en-gb"
              (Examples.player (Sample.living_room (Some 95))))
    as (_ & _ & _ & _ & Hlong & _).
  split; [apply Hconflict; left; split; by eexists|].
  split; [exact (proj1 (Huri (or_introl eq_refl)) _ eq_refl eq_refl)|].
  split; [exact (proj2 (Htts (or_intror eq_refl)) _ eq_refl eq_refl)|].
  exact (proj2 (Hlong (or_intror eq_refl)) _ eq_refl eq_refl).
Defined.

End PlayerFacts.

(** ** The source catalogs *)

Module SourcesFacts.

Import PyFacts ProcFacts MediaPlayer Player.

Lemma audio_sources_union k items :
  audio_sources_of k items = dict_union [] (omap (listed k) items).
Proof.
  unfold audio_sources_of. generalize (@nil (string * string)).
  induction items as [|source items IH]; intros d; [done|].
  simpl. destruct (listed k source) as [[id name]|]; simpl; by rewrite IH.
Qed.

(** The loop over the remote menu, on any part of a menu whose keys lead
    to their items. *)
Lemma menu_loop menu items e :
  (forall key menu_item, (key, menu_item) ∈ items -> dict_get menu key = Some menu_item) ->
  exists e',
    for_all (dict_keys items) (menu_item_step menu) e = (Ok tt, e', []) /\
    _video_sources e' = dict_union (_video_sources e) (video_sources_of items) /\
    base e' = base e /\ _software_version e' = _software_version e /\
    _playback_progress e' = _playback_progress e /\ _last_update e' = _last_update e.
Proof.
  revert e. induction items as [|[key menu_item] items IH]; intros e Hget.
  - by exists e.
  - simpl for_all. rewrite step_bind. unfold menu_item_step at 1. step.
    rewrite (Hget key menu_item) by apply list_elem_of_here.
    assert (forall key' item', (key', item') ∈ items -> dict_get menu key' = Some item')
      as Hrest.
    { intros key' item' Hin. by apply Hget, list_elem_of_further. }
    unfold video_sources_of. simpl omap. fold (video_sources_of items).
    destruct (RemoteMenuItem.available menu_item) as [[|]|];
      [destruct (video_label menu_item) as [label|]| |]; step.
    + destruct (IH (set_video_sources (dict_set (_video_sources e) key label) e) Hrest)
        as (e' & -> & Hvideo & Hbase & Hversion & Hprogress & Hupdate).
      exists e'. by rewrite Hvideo.
    + destruct (IH e Hrest) as (e' & -> & ?). by exists e'.
    + destruct (IH e Hrest) as (e' & -> & ?). by exists e'.
    + destruct (IH e Hrest) as (e' & -> & ?). by exists e'.
Qed.

(** What the update does once the sources are known. *)
Lemma update_sources_run k platform client items e :
  available_sources client = Ok items ->
  NoDup (dict_keys (remote_menu client)) ->
  exists e',
    _update_sources k platform client e
    = (Ok tt, e',
       [Call get_available_sources; Call get_remote_menu]
       ++ if is_running platform then [Event WriteHaState] else []) /\
    _audio_sources (base e') = dict_union [] (omap (listed k) items) /\
    _video_sources e'
    = dict_union (_video_sources e) (video_sources_of (remote_menu client)) /\
    _sources (base e') = dict_union (_audio_sources (base e')) (_video_sources e') /\
    base e' = set_sources (_sources (base e'))
                (set_audio_sources (_audio_sources (base e')) (base e)).
Proof.
  intros Hitems Hnd. unfold _update_sources. step. rewrite Hitems. step.
  destruct (menu_loop (remote_menu client) (remote_menu client)
              (on_base (set_audio_sources (audio_sources_of k items)) e))
    as (e1 & Hrun & Hvideo & Hbase & _).
  { intros key item Hin. by apply dict_get_elem_of. }
  rewrite Hrun. step. rewrite Hbase. Player.fields.
  eexists. split.
  - destruct (is_running platform); step; reflexivity.
  - Player.fields. rewrite Hbase. simpl. rewrite audio_sources_union. done.
Qed.

Lemma listed_spec k source id name :
  listed k source = Some (id, name) <->
  ListedSource.is_enabled source = Some true /\
  ListedSource.id source = Some id /\ ListedSource.name source = Some name /\
  id <> "" /\ name <> "" /\ id ∉ HIDDEN_SOURCE_IDS k.
Proof.
  unfold listed, truthy_str. split.
  - intros H. repeat case_match; simplify_eq.
    repeat match goal with
           | H : String.eqb _ _ = false |- _ => apply String.eqb_neq in H
           | H : negb _ = true |- _ => apply negb_true_iff, str_in_not_elem_of in H
           end.
    done.
  - intros (-> & -> & -> & Hid%String.eqb_neq & Hname%String.eqb_neq
            & Hhidden%str_in_not_elem_of).
    by rewrite Hid, Hname, Hhidden.
Qed.

Lemma video_label_spec menu_item label :
  video_label menu_item = Some label <->
  RemoteMenuItem.label menu_item = Some label /\ label <> "" /\ label <> "TV" /\
  exists content categories,
    RemoteMenuItem.content menu_item = Some content /\
    ContentItem.categories content = Some categories /\
    categories <> [] /\ "music" ∉ categories.
Proof.
  unfold video_label, truthy_str. split.
  - intros H. repeat case_match; simplify_eq.
    repeat match goal with
           | H : String.eqb _ _ = false |- _ => apply String.eqb_neq in H
           | H : negb _ = true |- _ => apply negb_true_iff in H
           | H : _ && _ = true |- _ => apply andb_true_iff in H as [? ?]
           | H : str_in _ _ = false |- _ => apply str_in_not_elem_of in H
           end.
    repeat split; try done. eexists _, _. repeat split; try done.
    intros ->. done.
  - intros (-> & Hl%String.eqb_neq & Htv%String.eqb_neq & content & categories
            & -> & -> & Hsome & Hmusic%str_in_not_elem_of).
    rewrite Hl, Htv, Hmusic. by destruct categories.
Qed.

Lemma menu_keys : NoDup (dict_keys (remote_menu Examples.player_responses)).
Proof. apply (bool_decide_unpack _); vm_compute; exact I. Qed.

(** X18.  The audio catalog after an update that gets the sources from
    the device (the remote menu being a dict).  The update completes.  The
    catalog has no ID twice; each of its entries is the ID and name of a
    listed source that is enabled, the ID and the name not empty, the ID
    not hidden; and the ID of every such source is in the catalog. *)
Theorem update_sources_audio (k : PlayerConsts) (platform : Platform)
    (client : PlayerResponses) (items : list ListedSource.t) (e : Entity) :
  available_sources client = Ok items ->
  NoDup (dict_keys (remote_menu client)) ->
  let r := _update_sources k platform client e in
  let audio := _audio_sources (base (state_of r)) in
  outcome_of r = Ok tt /\
  NoDup (dict_keys audio) /\
  (forall id name,
     dict_get audio id = Some name ->
     (id ∉ HIDDEN_SOURCE_IDS k) /\ id <> "" /\ name <> "" /\
     exists source,
       source ∈ items /\ ListedSource.is_enabled source = Some true /\
       ListedSource.id source = Some id /\ ListedSource.name source = Some name) /\
  (forall source id name,
     source ∈ items -> ListedSource.is_enabled source = Some true ->
     ListedSource.id source = Some id -> ListedSource.name source = Some name ->
     id <> "" -> name <> "" -> id ∉ HIDDEN_SOURCE_IDS k ->
     id ∈ dict_keys audio).
Proof.
  intros Hitems Hnd r audio. subst r audio.
  destruct (update_sources_run k platform client items e Hitems Hnd)
    as (e' & -> & Haudio & _).
  unfold outcome_of, state_of. simpl. rewrite Haudio.
  split; [done|]. split; [apply dict_union_NoDup; constructor|]. split.
  - intros id name. rewrite dict_get_union. simpl.
    destruct (dict_last _ id) as [name'|] eqn:Hlast; [|done]. intros [= ->].
    apply dict_last_elem_of, list_elem_of_omap in Hlast as (source & Hin & Hlisted).
    apply listed_spec in Hlisted as (? & ? & ? & ? & ? & ?). repeat split; try done.
    by exists source.
  - intros source id name Hin Henabled Hid Hname Hid' Hname' Hhidden.
    apply dict_keys_get. rewrite dict_get_union.
    destruct (dict_last_is_Some (omap (listed k) items) id name) as [name' ->]; [|by eauto].
    apply list_elem_of_omap. exists source. split; [done|]. by apply listed_spec.
Qed.

Lemma update_sources_audio_witness :
  outcome_of (_update_sources Examples.player_consts Examples.platform
                Examples.player_responses (Examples.player (Sample.living_room None)))
  = Ok tt /\
  _audio_sources
    (base (state_of (_update_sources Examples.player_consts Examples.platform
                       Examples.player_responses
                       (Examples.player (Sample.living_room None)))))
  = [("spotify", "Spotify Connect"); ("lineIn", "Line-In")] /\
  ("spotify" ∈ dict_keys
     (_audio_sources
        (base (state_of (_update_sources Examples.player_consts Examples.platform
                           Examples.player_responses
                           (Examples.player (Sample.living_room None))))))).
Proof.
  destruct (update_sources_audio Examples.player_consts Examples.platform
              Examples.player_responses Examples.available
              (Examples.player (Sample.living_room None)) eq_refl menu_keys)
    as (Hok & _ & _ & Hshown).
  split; [exact Hok|]. split; [reflexivity|].
  apply (Hshown (Examples.listed "spotify" "Spotify Connect" true) "spotify"
           "Spotify Connect"); try done.
  - apply list_elem_of_here.
  - intros Hin. repeat (apply elem_of_cons in Hin as [Heq|Hin]; [discriminate|]).
    by apply elem_of_nil in Hin.
Defined.

(** X19.  The video sources are never forgotten.  After an update every
    key the video sources held is still there; every available item of
    the remote menu with a label that passes the test is there under its
    key; and an entry that was not there before is the label of an
    available menu item with content in some category, none of them
    music, the label not empty and not TV. *)
Theorem update_sources_video (k : PlayerConsts) (platform : Platform)
    (client : PlayerResponses) (items : list ListedSource.t) (e : Entity) :
  available_sources client = Ok items ->
  NoDup (dict_keys (remote_menu client)) ->
  let video := _video_sources (state_of (_update_sources k platform client e)) in
  (forall key, key ∈ dict_keys (_video_sources e) -> key ∈ dict_keys video) /\
  (forall key menu_item label,
     dict_get (remote_menu client) key = Some menu_item ->
     RemoteMenuItem.available menu_item = Some true ->
     video_label menu_item = Some label ->
     dict_get video key = Some label) /\
  (forall key label,
     dict_get video key = Some label ->
     dict_get (_video_sources e) key = Some label \/
     exists menu_item content categories,
       dict_get (remote_menu client) key = Some menu_item /\
       RemoteMenuItem.available menu_item = Some true /\
       RemoteMenuItem.label menu_item = Some label /\ label <> "" /\ label <> "TV" /\
       RemoteMenuItem.content menu_item = Some content /\
       ContentItem.categories content = Some categories /\
       categories <> [] /\ "music" ∉ categories).
Proof.
  intros Hitems Hnd video. subst video.
  destruct (update_sources_run k platform client items e Hitems Hnd)
    as (e' & -> & _ & Hvideo & _).
  unfold state_of. simpl. rewrite Hvideo. clear Hvideo.
  assert (forall key label,
            (key, label) ∈ video_sources_of (remote_menu client) <->
            exists menu_item, dict_get (remote_menu client) key = Some menu_item /\
                              RemoteMenuItem.available menu_item = Some true /\
                              video_label menu_item = Some label) as Hadded.
  { intros key label. unfold video_sources_of. rewrite list_elem_of_omap. split.
    - intros ([key' menu_item] & Hin & Hsome). exists menu_item.
      destruct (RemoteMenuItem.available menu_item) as [[|]|]; try done.
      destruct (video_label menu_item) as [l|]; [|done]. injection Hsome as -> ->.
      split; [by apply dict_get_elem_of|done].
    - intros (menu_item & Hget & Havailable & Hlabel). exists (key, menu_item).
      split; [by apply dict_get_Some_elem_of|]. by rewrite Havailable, Hlabel. }
  split; [|split].
  - intros key Hin. apply dict_keys_get. rewrite dict_get_union.
    destruct (dict_last _ key); [by eauto|]. by apply dict_keys_get.
  - intros key menu_item label Hget Havailable Hlabel. rewrite dict_get_union.
    assert ((key, label) ∈ video_sources_of (remote_menu client)) as Hin
      by (apply Hadded; by exists menu_item).
    destruct (dict_last_is_Some _ _ _ Hin) as [label' Hlast]. rewrite Hlast.
    apply dict_last_elem_of, Hadded in Hlast as (menu_item' & Hget' & _ & Hlabel').
    congruence.
  - intros key label. rewrite dict_get_union.
    destruct (dict_last _ key) as [label'|] eqn:Hlast; [|by left].
    intros [= ->]. right.
    apply dict_last_elem_of, Hadded in Hlast as (menu_item & Hget & Havailable & Hlabel).
    apply video_label_spec in Hlabel
      as (Hl & Hne & Htv & content & categories & Hcontent & Hcategories & Hsome & Hmusic).
    by exists menu_item, content, categories.
Qed.

Lemma update_sources_video_witness :
  ("Hdmi2" ∈ dict_keys
     (_video_sources
        (state_of (_update_sources Examples.player_consts Examples.platform
                     Examples.player_responses
                     (Examples.player (Sample.living_room None)))))) /\
  dict_get (_video_sources
              (state_of (_update_sources Examples.player_consts Examples.platform
                           Examples.player_responses
                           (Examples.player (Sample.living_room None)))))
    "HdmiArc1" = Some "HDMI A".
Proof.
  destruct (update_sources_video Examples.player_consts Examples.platform
              Examples.player_responses Examples.available
              (Examples.player (Sample.living_room None)) eq_refl menu_keys)
    as (Hkept & Hadded & _).
  split.
  - apply Hkept. apply list_elem_of_here.
  - by apply (Hadded "HdmiArc1" (Examples.menu_item "HDMI A" ["video"] true)).
Defined.

Lemma select_source_found e name key :
  dict_get (_sources e) key = Some name ->
  exists key',
    dict_get (_sources e) key' = Some name /\
    async_select_source name e
    = (Ok tt, e,
       [Request (if str_in name (dict_values (_audio_sources e))
                 then set_active_source key' else post_remote_trigger key')]).
Proof.
  intros Hget. unfold async_select_source. run.
  assert (str_in name (dict_values (_sources e)) = true) as ->.
  { apply str_in_elem_of, list_elem_of_fmap. exists (key, name).
    split; [done|]. by apply dict_get_Some_elem_of. }
  simpl negb. cbv iota.
  set (found := List.filter _ _).
  assert (key ∈ found) as Hkey.
  { apply list_elem_of_In, filter_In. split.
    - apply list_elem_of_In, dict_keys_get. by eauto.
    - by apply opt_eqb_eq. }
  destruct found as [|key' found'] eqn:Hfound; [by apply elem_of_nil in Hkey|].
  assert (key' ∈ List.filter (fun x => opt_eqb (dict_get (_sources e) x) (Some name))
                    (dict_keys (_sources e))) as Hkey'.
  { fold found. rewrite Hfound. apply list_elem_of_here. }
  apply list_elem_of_In, filter_In in Hkey' as [_ Hkey'%opt_eqb_eq].
  exists key'. split; [done|]. unfold index. simpl.
  by destruct (str_in name (dict_values (_audio_sources e))).
Qed.

(** X20.  Updating the sources, then selecting one.  The combined catalog
    is the audio catalog with the video sources on top: under a key that
    both have, the video label is the one shown.  The name of an audio
    source whose key no video source has can be selected, which sets the
    active source to a key the catalog shows under that name; the label
    of a video source that is no audio source's name can be selected,
    which triggers the remote menu item of such a key. *)
Theorem update_sources_select (k : PlayerConsts) (platform : Platform)
    (client : PlayerResponses) (items : list ListedSource.t) (e : Entity) :
  available_sources client = Ok items ->
  NoDup (dict_keys (remote_menu client)) ->
  NoDup (dict_keys (_video_sources e)) ->
  let e' := state_of (_update_sources k platform client e) in
  (forall key,
     dict_get (_sources (base e')) key
     = match dict_get (_video_sources e') key with
       | Some label => Some label
       | None => dict_get (_audio_sources (base e')) key
       end) /\
  (forall key name,
     dict_get (_audio_sources (base e')) key = Some name ->
     dict_get (_video_sources e') key = None ->
     exists key',
       dict_get (_sources (base e')) key' = Some name /\
       async_select_source name (base e')
       = (Ok tt, base e', [Request (set_active_source key')])) /\
  (forall key label,
     dict_get (_video_sources e') key = Some label ->
     label ∉ dict_values (_audio_sources (base e')) ->
     exists key',
       dict_get (_sources (base e')) key' = Some label /\
       async_select_source label (base e')
       = (Ok tt, base e', [Request (post_remote_trigger key')])).
Proof.
  intros Hitems Hnd Hvideos e'. subst e'.
  destruct (update_sources_run k platform client items e Hitems Hnd)
    as (e' & -> & Haudio & Hvideo & Hsources & _).
  unfold state_of. simpl.
  assert (forall key,
     dict_get (_sources (base e')) key
     = match dict_get (_video_sources e') key with
       | Some label => Some label
       | None => dict_get (_audio_sources (base e')) key
       end) as Hget.
  { intros key. rewrite Hsources, dict_get_union, dict_last_NoDup; [done|].
    rewrite Hvideo. by apply dict_union_NoDup. }
  split; [done|]. split.
  - intros key name Hname Hnone.
    destruct (select_source_found (base e') name key) as (key' & Hkey' & Hrun).
    { by rewrite Hget, Hnone. }
    exists key'. split; [done|]. rewrite Hrun.
    assert (str_in name (dict_values (_audio_sources (base e'))) = true) as ->; [|done].
    apply str_in_elem_of, list_elem_of_fmap. exists (key, name).
    split; [done|]. by apply dict_get_Some_elem_of.
  - intros key label Hlabel Hout.
    destruct (select_source_found (base e') label key) as (key' & Hkey' & Hrun).
    { by rewrite Hget, Hlabel. }
    exists key'. split; [done|]. rewrite Hrun.
    by apply str_in_not_elem_of in Hout as ->.
Qed.

Lemma update_sources_select_witness :
  exists key,
    dict_get (_sources
                (base (state_of (_update_sources Examples.player_consts Examples.platform
                                   Examples.player_responses
                                   (Examples.player (Sample.living_room None))))))
      key = Some "Line-In" /\
    async_select_source "Line-In"
      (base (state_of (_update_sources Examples.player_consts Examples.platform
                         Examples.player_responses
                         (Examples.player (Sample.living_room None)))))
    = (Ok tt,
       base (state_of (_update_sources Examples.player_consts Examples.platform
                         Examples.player_responses
                         (Examples.player (Sample.living_room None)))),
       [Request (set_active_source key)]).
Proof.
  assert (NoDup (dict_keys (_video_sources (Examples.player (Sample.living_room None)))))
    as Hvideo by (apply (bool_decide_unpack _); vm_compute; exact I).
  destruct (update_sources_select Examples.player_consts Examples.platform
              Examples.player_responses Examples.available
              (Examples.player (Sample.living_room None)) eq_refl menu_keys Hvideo)
    as (_ & Haudio & _).
  by apply (Haudio "lineIn" "Line-In").
Defined.

(** X21.  When the request for the sources fails.  Any exception but
    [ValueError] leaves the update at once, the catalogs as they were.
    On [ValueError] the update goes on as if the device had listed the
    fallback sources: same outcome, same entity, the same effects but for
    one warning, logged right after the failed request, that names the
    version of the vendor's package and the software version of the
    device. *)
Theorem update_sources_fallback (k : PlayerConsts) (platform : Platform)
    (client : PlayerResponses) (e : Entity) (err : exn) :
  available_sources client = Raise err ->
  let r := _update_sources k platform client e in
  let r' := _update_sources k platform
              {| available_sources := Ok (FALLBACK_SOURCES k);
                 remote_menu := remote_menu client |} e in
  (err <> ValueError -> r = (Raise err, e, [Call get_available_sources])) /\
  (err = ValueError ->
   outcome_of r = outcome_of r' /\ state_of r = state_of r' /\
   exists rest,
     effects_of r' = Call get_available_sources :: rest /\
     effects_of r
     = Call get_available_sources ::
       Event (Log LOG_WARNING
                "The API is outdated compared to the device software version %s and %s. Using fallback sources"
                [LStr (MOZART_API_VERSION k); LStr (_software_version e)]) :: rest).
Proof.
  intros Herr r r'. subst r r'. unfold _update_sources. step. rewrite Herr. simpl.
  split.
  - intros Hne. by destruct err.
  - intros ->. step.
    match goal with
    | |- context [for_all ?l ?body ?s] => destruct (for_all l body s) as [[[[]|err] s'] t]
    end; step.
    + destruct (is_running platform); step; unfold outcome_of, state_of, effects_of; simpl;
        (split; [done|]; split; [done|]; by eexists).
    + unfold outcome_of, state_of, effects_of; simpl.
      split; [done|]; split; [done|]; by eexists.
Qed.

Lemma update_sources_fallback_witness :
  _audio_sources
    (base (state_of (_update_sources Examples.player_consts Examples.platform
                       Examples.outdated_responses
                       (Examples.player (Sample.living_room None)))))
  = [("lineIn", "Line-In"); ("spdif", "Optical")] /\
  outcome_of (_update_sources Examples.player_consts Examples.platform
                Examples.outdated_responses (Examples.player (Sample.living_room None)))
  = Ok tt.
Proof.
  destruct (proj2 (update_sources_fallback Examples.player_consts Examples.platform
                     Examples.outdated_responses
                     (Examples.player (Sample.living_room None)) ValueError eq_refl)
              eq_refl) as (Houtcome & Hstate & _).
  split.
  - rewrite Hstate. reflexivity.
  - rewrite Houtcome. reflexivity.
Defined.

End SourcesFacts.
